(** * SpINUp: spectral inference networks, checked against their specification

    Shallow embedding of the training code of the repository
    (jax_spin.py, stfn_training.py, train_spin.py, backbone.py).

    Conventions of the embedding.
    - Array entries are real numbers: IEEE rounding, overflow and NaN are
      outside the model.  Where a routine has no real-valued result (a
      Cholesky factorisation that meets a non-positive pivot, a square root of
      a negative number) the model says so explicitly with an [option] or an
      error value.
    - A 1-D array is a [list R], a 2-D array a list of rows, a 3-D array a
      list of 2-D arrays.  numpy/jax.numpy primitives are written once, in
      [Section Arrays], by their index formulas.
    - A parameter pytree is the list of its leaves; the axes of one parameter
      tensor are flattened into a single trailing axis [p].  Every
      contraction of the source leaves these trailing axes untouched.
    - Automatic differentiation is a library service: the Jacobian of the
      network (and of the operator) with respect to the parameters is an input
      of the model, and [jacrev]/[vjp] are the chain rule over it. *)

From stdpp Require Import base gmap strings.
From Stdlib Require Import Reals Lra Lia List.
Import ListNotations.

#[local] Unset Default Proof Using.
#[local] Open Scope R_scope.

(** ** Finite sums *)

Fixpoint sum_n (n : nat) (f : nat -> R) : R :=
  match n with
  | O => 0
  | S m => sum_n m f + f m
  end.

(** ** Arrays *)

Abbreviation vector := (list R).
Abbreviation matrix := (list (list R)).
Abbreviation tensor3 := (list (list (list R))).

Definition vget (v : vector) (i : nat) : R := nth i v 0.
Definition mget (A : matrix) (i j : nat) : R := nth j (nth i A []) 0.
Definition tget (T : tensor3) (i j p : nat) : R := nth p (nth j (nth i T []) []) 0.

Definition mk_vector (n : nat) (f : nat -> R) : vector := map f (seq 0 n).
Definition mk_matrix (m n : nat) (f : nat -> nat -> R) : matrix :=
  map (fun i => mk_vector n (f i)) (seq 0 m).
Definition mk_tensor3 (m n q : nat) (f : nat -> nat -> nat -> R) : tensor3 :=
  map (fun i => mk_matrix n q (f i)) (seq 0 m).

(** [shape[0]], [shape[1]], [shape[2]]. *)
Definition rows (A : matrix) : nat := length A.
Definition cols (A : matrix) : nat := length (hd [] A).
Definition dim0 (T : tensor3) : nat := length T.
Definition dim1 (T : tensor3) : nat := length (hd [] T).
Definition dim2 (T : tensor3) : nat := length (hd [] (hd [] T)).

Definition wf_vector (n : nat) (v : vector) : Prop := length v = n.
Definition wf_matrix (m n : nat) (A : matrix) : Prop :=
  length A = m /\ Forall (wf_vector n) A.
Definition wf_tensor3 (m n q : nat) (T : tensor3) : Prop :=
  length T = m /\ Forall (wf_matrix n q) T.

Fixpoint map2 {A B C : Type} (f : A -> B -> C) (l : list A) (l' : list B) : list C :=
  match l, l' with
  | x :: t, y :: t' => f x y :: map2 f t t'
  | _, _ => []
  end.

Section Arrays.

(** Elementwise arithmetic. *)
Definition vscale (c : R) (v : vector) : vector := map (Rmult c) v.
Definition vadd (v w : vector) : vector := map2 Rplus v w.
Definition vdiv (v : vector) (c : R) : vector := map (fun x => x / c) v.

Definition mscale (c : R) (A : matrix) : matrix := map (vscale c) A.
Definition madd (A B : matrix) : matrix := map2 vadd A B.
Definition mdiv (A : matrix) (c : R) : matrix := map (fun r => vdiv r c) A.

Definition vsub (v w : vector) : vector := map2 Rminus v w.
Definition mneg (A : matrix) : matrix := map (map Ropp) A.

Definition tscale (c : R) (T : tensor3) : tensor3 := map (mscale c) T.
Definition tadd (T U : tensor3) : tensor3 := map2 madd T U.

(** [A.T] *)
Definition transpose (A : matrix) : matrix :=
  mk_matrix (cols A) (rows A) (fun i j => mget A j i).

(** [np.dot(A, B)], [A @ B] for 2-D arrays. *)
Definition dot (A B : matrix) : matrix :=
  mk_matrix (rows A) (cols B)
    (fun i j => sum_n (cols A) (fun p => mget A i p * mget B p j)).

(** [np.diag] of a 2-D array (the diagonal) and of a 1-D array (the
    diagonal matrix). *)
Definition diag_of (A : matrix) : vector :=
  mk_vector (Nat.min (rows A) (cols A)) (fun i => mget A i i).
Definition diag_matrix (v : vector) : matrix :=
  mk_matrix (length v) (length v) (fun i j => if Nat.eqb i j then vget v i else 0).

(** [np.triu]: entries strictly below the diagonal are zeroed. *)
Definition triu (A : matrix) : matrix :=
  mk_matrix (rows A) (cols A) (fun i j => if Nat.leb i j then mget A i j else 0).

(** [np.eye(k)], [np.ones(k)], [np.sum] of a 1-D array. *)
Definition eye (k : nat) : matrix :=
  mk_matrix k k (fun i j => if Nat.eqb i j then 1 else 0).
Definition ones (k : nat) : vector := mk_vector k (fun _ => 1).
Definition vsum (v : vector) : R := sum_n (length v) (vget v).

(** [np.tensordot(A, T, 1)]: the last axis of [A] against the first of [T]. *)
Definition tensordot_1 (A : matrix) (T : tensor3) : tensor3 :=
  mk_tensor3 (rows A) (dim1 T) (dim2 T)
    (fun i j p => sum_n (cols A) (fun b => mget A i b * tget T b j p)).

(** [np.tensordot(G, T, ([0,1],[1,0]))]: axis 0 of [G] against axis 1 of
    [T] and axis 1 of [G] against axis 0 of [T]. *)
Definition tensordot_01_10 (G : matrix) (T : tensor3) : vector :=
  mk_vector (dim2 T)
    (fun p => sum_n (rows G) (fun a => sum_n (cols G) (fun b =>
                mget G a b * tget T b a p))).

(** [jnp.tensordot(G, T, [[0,1],[0,1]])]. *)
Definition tensordot_01_01 (G : matrix) (T : tensor3) : vector :=
  mk_vector (dim2 T)
    (fun p => sum_n (rows G) (fun a => sum_n (cols G) (fun b =>
                mget G a b * tget T a b p))).

End Arrays.

(** ** Library linear algebra: Cholesky factor and triangular inverse *)

Module Linalg.

(** Index-level Cholesky factorisation of the leading [k] by [k] block of
    [A], by elimination of the first row and column: the pivot must be
    positive, the rest of the first column is divided by its square root,
    and the factorisation continues on the Schur complement.  [None]: a
    pivot is not positive, the matrix has no Cholesky factor. *)
Fixpoint chol_fn (k : nat) (A : nat -> nat -> R) : option (nat -> nat -> R) :=
  match k with
  | O => Some (fun _ _ => 0)
  | S k' =>
      if Rlt_dec 0 (A O O) then
        let l := sqrt (A O O) in
        let v := fun i => A (S i) O / l in
        match chol_fn k' (fun i j => A (S i) (S j) - v i * v j) with
        | Some L' =>
            Some (fun i j =>
                    match i, j with
                    | O, O => l
                    | O, S _ => 0
                    | S i', O => v i'
                    | S i', S j' => L' i' j'
                    end)
        | None => None
        end
      else None
  end.

(** Modelled from the spec: [jnp.linalg.cholesky], a library routine whose
    source is not part of the repository.  Section 4.2 gives its contract
    (a lower-triangular factor with positive diagonal, failure on a matrix
    that is not positive-definite); the model computes that factor. *)
Definition cholesky (A : matrix) : option matrix :=
  match chol_fn (rows A) (mget A) with
  | Some L => Some (mk_matrix (rows A) (rows A) L)
  | None => None
  end.

(** Index-level inverse of a lower-triangular matrix by forward
    substitution on the first column. *)
Fixpoint inv_fn (k : nat) (L : nat -> nat -> R) : nat -> nat -> R :=
  match k with
  | O => fun _ _ => 0
  | S k' =>
      let l := L O O in
      let M := inv_fn k' (fun i j => L (S i) (S j)) in
      let w := fun i => - (sum_n k' (fun p => M i p * L (S p) O)) / l in
      fun i j =>
        match i, j with
        | O, O => 1 / l
        | O, S _ => 0
        | S i', O => w i'
        | S i', S j' => M i' j'
        end
  end.

(** Modelled from the spec: [jnp.linalg.inv], a library routine whose source
    is not part of the repository, on the only arguments the repository
    passes to it, the triangular factor returned by [cholesky] (section 4.2:
    inversion of L, never of the covariance itself). *)
Definition inv (L : matrix) : matrix :=
  mk_matrix (rows L) (rows L) (inv_fn (rows L) (mget L)).

(** The mathematical notions of the contract, on index functions and on
    arrays. *)
Definition sym_fn (k : nat) (A : nat -> nat -> R) : Prop :=
  forall i j, (i < k)%nat -> (j < k)%nat -> A i j = A j i.

Definition quad_form (k : nat) (A : nat -> nat -> R) (x : nat -> R) : R :=
  sum_n k (fun i => sum_n k (fun j => x i * A i j * x j)).

Definition pd_fn (k : nat) (A : nat -> nat -> R) : Prop :=
  sym_fn k A /\
  forall x : nat -> R,
    (exists i, (i < k)%nat /\ x i <> 0) -> 0 < quad_form k A x.

Definition delta (i j : nat) : R := if Nat.eqb i j then 1 else 0.

Definition symmetric (k : nat) (A : matrix) : Prop := sym_fn k (mget A).

Definition positive_definite (k : nat) (A : matrix) : Prop := pd_fn k (mget A).

Definition lower_triangular (k : nat) (L : matrix) : Prop :=
  forall i j, (i < j)%nat -> (j < k)%nat -> mget L i j = 0.

Definition positive_diagonal (k : nat) (L : matrix) : Prop :=
  forall i, (i < k)%nat -> 0 < mget L i i.

End Linalg.

(** ** Outcomes of a Python call *)

Inductive exn : Type :=
| NameError (name : string)
| KeyError (key : string)
| UnboundLocalError (name : string).

(** A call returns a value, raises, or reaches a point where the linear
    algebra has no real-valued result ([NotReal]): the factorisation of a
    matrix that is not positive-definite.  [NotReal] is not an exception.
    Nothing in the four modules raises or checks at that point: the steps
    call [jnp.linalg.cholesky], in jax_spin.py and stfn_training.py under
    [jit], and go on with its result, which then holds non-finite entries
    (or, when rounding makes a pivot positive, entries without meaning).
    [NotReal] stands for that silent continuation, whose values the exact
    arithmetic of the model does not have. *)
Inductive outcome (A : Type) : Type :=
| Returns (a : A)
| Raises (e : exn)
| NotReal.
Arguments Returns {A} a.
Arguments Raises {A} e.
Arguments NotReal {A}.

Definition bind {A B : Type} (x : outcome A) (f : A -> outcome B) : outcome B :=
  match x with
  | Returns a => f a
  | Raises e => Raises e
  | NotReal => NotReal
  end.

Definition of_option {A : Type} (x : option A) : outcome A :=
  match x with
  | Some a => Returns a
  | None => NotReal
  end.

Notation "'let*' x ':=' e 'in' k" := (bind e (fun x => k))
  (at level 10, x pattern, e at level 100, k at level 200).

(** Pytrees: the list of leaves of a parameter structure, each leaf flattened;
    a Jacobian pytree carries the leading axes of the differentiated array in
    front of the flattened parameter axis. *)
Abbreviation pytree := (list vector) (only parsing).
Abbreviation jac_pytree := (list tensor3) (only parsing).

(** ** jax_spin.py *)

Module JaxSpin.

(** [sigma_avg] is first a 1-D array ([np.ones(neig)]) and from the first
    step on a 2-D array. *)
Inductive ndarray : Type :=
| Arr1 (v : vector)
| Arr2 (A : matrix).

(** The fields of a [SpIN] object that [train] only reads.  [net_u] is the
    method of that name (the network followed by [apply_mask]) and
    [net_u_jac] is [vmap(jacfwd(self.net_u), in_axes=(None, 0))]: for every
    leaf the array of shape (N, neig) + leaf shape. *)
Record SpIN (opt_state : Type) : Type := {
  operator : (pytree -> matrix -> matrix) -> pytree -> matrix -> matrix;
  net_u : pytree -> matrix -> matrix;
  net_u_jac : pytree -> matrix -> jac_pytree;
  opt_update : nat -> pytree -> opt_state -> opt_state;
  get_params : opt_state -> pytree;
  beta : R;
  neig : nat
}.
Arguments operator {opt_state} s.
Arguments net_u {opt_state} s.
Arguments net_u_jac {opt_state} s.
Arguments opt_update {opt_state} s.
Arguments get_params {opt_state} s.
Arguments beta {opt_state} s.
Arguments neig {opt_state} s.

(** The fields that [train] updates. *)
Record SpIN_state (opt_state : Type) : Type := {
  st_opt_state : opt_state;
  itercount : nat;
  loss_log : list R;
  evals_log : list vector
}.
Arguments st_opt_state {opt_state} s.
Arguments itercount {opt_state} s.
Arguments loss_log {opt_state} s.
Arguments evals_log {opt_state} s.

Definition averages : Type := ndarray * jac_pytree.
Definition outputs : Type := matrix * matrix * matrix * matrix * matrix.

(** [(1.0 - beta) * sigma_avg + beta * sigma], with numpy broadcasting of a
    1-D [sigma_avg] along the rows of [sigma]. *)
Definition blend_sigma (beta : R) (sigma_avg : ndarray) (sigma : matrix) : matrix :=
  match sigma_avg with
  | Arr1 v => map (fun row => vadd (vscale (1 - beta) v) row) (mscale beta sigma)
  | Arr2 A => madd (mscale (1 - beta) A) (mscale beta sigma)
  end.

(** A seed that numpy can broadcast against a k by k array, and the entry
    that broadcasting gives it at (i, j). *)
Definition broadcastable (k : nat) (seed : ndarray) : Prop :=
  match seed with
  | Arr1 v => length v = k
  | Arr2 A => wf_matrix k k A
  end.

Definition broadcast_entry (seed : ndarray) (i j : nat) : R :=
  match seed with
  | Arr1 v => vget v j
  | Arr2 A => mget A i j
  end.

Section Methods.
Context {opt_state : Type} (self : SpIN opt_state).

(** Shapes: a batch of N points, k network outputs, and for the leaf number
    [l], of r entries, the Jacobian of the network of shape (N, k, r) and the
    average of the covariance Jacobian of shape (k, k, r). *)
Definition batch_ok (params : pytree) (inputs : matrix) (N k : nat) : Prop :=
  (0 < N)%nat /\ (0 < k)%nat /\ rows inputs = N
  /\ wf_matrix N k (net_u self params inputs)
  /\ wf_matrix N k (operator self (net_u self) params inputs).

Definition leaf_ok (params : pytree) (inputs : matrix) (J : jac_pytree)
           (N k l r : nat) : Prop :=
  (l < length (net_u_jac self params inputs))%nat /\ (l < length J)%nat
  /\ wf_tensor3 N k r (nth l (net_u_jac self params inputs) [])
  /\ wf_tensor3 k k r (nth l J []).

Definition evaluate_spin (params : pytree) (inputs : matrix)
           (avgs : averages) (beta : R) : outcome (outputs * matrix) :=
  let n := rows inputs in
  let sigma_avg := fst avgs in
  let u := net_u self params inputs in
  let sigma := mdiv (dot (transpose u) u) (INR n) in
  let sigma_avg := blend_sigma beta sigma_avg sigma in
  let* chol := of_option (Linalg.cholesky sigma_avg) in
  let choli := Linalg.inv chol in
  let operator := operator self (net_u self) params inputs in
  let pi := mdiv (dot (transpose operator) u) (INR n) in
  let rq := dot choli (dot pi (transpose choli)) in
  Returns ((u, choli, pi, rq, operator), sigma_avg).

Definition masked_gradients (params : pytree) (inputs : matrix)
           (outs : outputs) (avgs : averages) (beta : R)
  : pytree * jac_pytree :=
  let n := rows inputs in
  let '(u, choli, _, rq, operator) := outs in
  let sigma_jac_avg := snd avgs in
  let dl := diag_matrix (diag_of choli) in
  let triu_ := triu (dot rq dl) in
  let grad_sigma := mscale (-1) (dot (transpose choli) triu_) in
  let grad_pi := dot (transpose choli) dl in
  let grad_theta := net_u_jac self params inputs in
  let sigma_jac := map (fun x => tensordot_1 (transpose u) x) grad_theta in
  let sigma_jac_avg :=
    map2 (fun x y => tadd (tscale (1 - beta) x) (tscale beta y))
         sigma_jac_avg sigma_jac in
  let gradient_pi_1 := dot (transpose grad_pi) (transpose operator) in
  let gradients :=
    map2 (fun x y =>
            vdiv (vadd (tensordot_01_10 gradient_pi_1 x)
                       (vscale 1 (tensordot_01_10 (transpose grad_sigma) y)))
                 (INR n))
         grad_theta sigma_jac_avg in
  let gradients := map (vscale (-1)) gradients in
  (gradients, sigma_jac_avg).

Definition loss_and_grad (params : pytree) (batch : matrix * averages * R)
  : outcome (R * pytree * averages) :=
  let '(inputs, avgs, beta) := batch in
  let* (outs, sigma_avg) := evaluate_spin params inputs avgs beta in
  let '(_, _, _, rq, _) := outs in
  let eigenvalues := diag_of rq in
  let loss := vsum eigenvalues in
  let '(gradients, sigma_jac_avg) :=
    masked_gradients params inputs outs avgs beta in
  let avgs := (Arr2 sigma_avg, sigma_jac_avg) in
  Returns (loss, gradients, avgs).

(** [tensordot(u.T, x, 1) * 0] on the Jacobian at the first batch.  The
    source reads the network through the module-level name [model], which
    the script binds to the object that is being trained. *)
Definition init_sigma_jac (params : pytree) (inputs : matrix) : jac_pytree :=
  let u := net_u self params inputs in
  let grad_theta := net_u_jac self params inputs in
  map (fun x => tscale 0 (tensordot_1 (transpose u) x)) grad_theta.

Definition step (i : nat) (st : opt_state) (batch : matrix * averages * R)
  : outcome (R * opt_state * averages) :=
  let params := get_params self st in
  let* (loss, gradients, avgs) := loss_and_grad params batch in
  let st := opt_update self i gradients st in
  Returns (loss, st, avgs).

Definition eigenpairs (params : pytree) (inputs : matrix)
           (avgs : averages) (beta : R) : outcome (vector * matrix) :=
  let* (outs, _) := evaluate_spin params inputs avgs beta in
  let '(u, choli, _, rq, _) := outs in
  let evals := diag_of rq in
  let efuns := dot u (transpose choli) in
  Returns (evals, efuns).

(** The decay used by iteration number [cnt] of the loop:
    [beta = self.beta if cnt > 0 else 1.0]. *)
Definition beta_at (cnt : nat) : R :=
  if Nat.ltb 0 cnt then beta self else 1.

(** What one pass through the body of the loop of [train] carries to the
    next: the object, the iterator position, the averages and the values
    of the local names [params] and [beta]. *)
Record loop_state : Type := {
  obj : SpIN_state opt_state;
  pos : nat;
  avgs_of : averages;
  last : option (pytree * R)
}.

(** [inputs] is the iterator over the data set: [inputs i] is the batch
    returned by the [i]-th call of [next]. *)
Definition train_body (inputs : nat -> matrix) (ls : loop_state)
  : outcome loop_state :=
  let o := obj ls in
  let cnt := itercount o in
  let beta := beta_at cnt in
  let batch := (inputs (pos ls), avgs_of ls, beta) in
  let* (loss, st, avgs) := step cnt (st_opt_state o) batch in
  let params := get_params self st in
  let* (evals, _) := eigenpairs params (inputs (S (pos ls))) avgs beta in
  Returns {| obj := {| st_opt_state := st;
                       itercount := S cnt;
                       loss_log := loss_log o ++ [loss];
                       evals_log := evals_log o ++ [evals] |};
             pos := S (S (pos ls));
             avgs_of := avgs;
             last := Some (params, beta) |}.

Fixpoint train_loop (inputs : nat -> matrix) (nIter : nat) (ls : loop_state)
  : outcome loop_state :=
  match nIter with
  | O => Returns ls
  | S m => let* ls' := train_body inputs ls in train_loop inputs m ls'
  end.

(** The state of the loop when it is entered: the moving averages are
    initialised from the first item of the iterator. *)
Definition train_init (inputs : nat -> matrix) (o : SpIN_state opt_state)
  : loop_state :=
  let sigma_avg := Arr1 (ones (neig self)) in
  let sigma_jac_avg := init_sigma_jac (get_params self (st_opt_state o)) (inputs O) in
  {| obj := o; pos := 1%nat; avgs_of := (sigma_avg, sigma_jac_avg); last := None |}.

Definition train (inputs : nat -> matrix) (nIter : nat) (o : SpIN_state opt_state)
  : outcome (SpIN_state opt_state * (pytree * averages * R)) :=
  let* ls := train_loop inputs nIter (train_init inputs o) in
  match last ls with
  | Some (params, beta) => Returns (obj ls, (params, avgs_of ls, beta))
  | None => Raises (UnboundLocalError "params")
  end.

End Methods.

End JaxSpin.

(** ** helper.py *)

Module Helper.

(** Modelled from the spec: [helper.moving_average], which the training
    scripts import but whose source is not part of the repository.  Section
    4.1: the running average is replaced by (1 - beta) times itself plus
    beta times the new data, tensorwise. *)
Definition moving_average (running_average new_data : matrix) (beta : R) : matrix :=
  madd (mscale (1 - beta) running_average) (mscale beta new_data).

Definition moving_average_v (running_average new_data : vector) (beta : R) : vector :=
  vadd (vscale (1 - beta) running_average) (vscale beta new_data).

Definition moving_average_t (running_average new_data : tensor3) (beta : R) : tensor3 :=
  tadd (tscale (1 - beta) running_average) (tscale beta new_data).

End Helper.

(** ** stfn_training.py *)

Module StfnTraining.

(** [u1[:, :, None] @ u2[:, :, None].swapaxes(2, 1)]: the batch of outer
    products, and [jnp.mean(_, axis=0)]. *)
Definition outer_batch (u1 u2 : matrix) : tensor3 :=
  mk_tensor3 (rows u1) (cols u1) (cols u2)
    (fun b i j => sum_n 1 (fun _ => mget u1 b i * mget u2 b j)).

Definition mean_axis0 (T : tensor3) : matrix :=
  mk_matrix (dim1 T) (dim2 T)
    (fun i j => sum_n (dim0 T) (fun b => tget T b i j) / INR (dim0 T)).

Definition covariance (u1 u2 : matrix) : matrix :=
  mean_axis0 (outer_batch u1 u2).

Definition covariance_fwd (u1 u2 : matrix) : matrix * (matrix * matrix * nat) :=
  (covariance u1 u2, (u1, u2, rows u1)).

Definition covariance_bwd (res : matrix * matrix * nat) (g : matrix)
  : matrix * matrix :=
  let '(u1, u2, batch_size) := res in
  (mdiv (dot u2 g) (INR batch_size), mdiv (dot u1 g) (INR batch_size)).

(** Reverse-mode differentiation through the network: the cotangent [ct] of
    an (N, k) array that depends on the parameters with Jacobian [du]
    (shape (N, k) + leaf shape) is pulled back to the leaf. *)
Definition pullback (du : tensor3) (ct : matrix) : vector :=
  mk_vector (dim2 du)
    (fun p => sum_n (dim0 du) (fun b => sum_n (dim1 du) (fun c =>
                mget ct b c * tget du b c p))).

Definition basis (k i j : nat) : matrix :=
  mk_matrix k k (fun a b => if Nat.eqb a i && Nat.eqb b j then 1 else 0).

(** [jax.jacrev(sigma_from_theta, has_aux=True)(weight_dict)] on one leaf:
    for every entry (i, j) of the output, the custom backward rule of
    [covariance] is run on the basis cotangent; both cotangents reach the
    same [u] and add up before they are pulled back. *)
Definition jacrev_sigma (u : matrix) (du : tensor3) : tensor3 :=
  let k := cols u in
  mk_tensor3 k k (dim2 du)
    (fun i j p =>
       let '(ct1, ct2) := covariance_bwd (snd (covariance_fwd u u)) (basis k i j) in
       vget (pullback du (madd ct1 ct2)) p).

(** The function [f_vjp] returned by
    [jax.vjp(pi_from_theta, weight_dict, has_aux=True)] on one leaf: [du] is
    the Jacobian of [u], [dh] the total Jacobian of [h_u]. *)
Definition vjp_pi (u h_u : matrix) (du dh : tensor3) (g : matrix) : vector :=
  let '(ct_u, ct_h) := covariance_bwd (snd (covariance_fwd u h_u)) g in
  vadd (pullback du ct_u) (pullback dh ct_h).

(** The derivative of Pi with respect to one leaf as this module
    differentiates: what [jax.jacrev(pi_from_theta)] returns, the function
    [f_vjp] run on every basis cotangent.  The source only ever applies
    [f_vjp] to one cotangent. *)
Definition jacrev_pi (u h_u : matrix) (du dh : tensor3) : tensor3 :=
  let k := cols u in
  mk_tensor3 k k (dim2 du)
    (fun i j p => vget (vjp_pi u h_u du dh (basis k i j)) p).

(** The callables handed to [train_step].  [model_jac] and [h_jac] are what
    differentiation of [u_from_theta] and of
    [theta |-> h_fn(theta, batch, u_from_theta(theta))] produces, per leaf,
    with shape (N, k) + leaf shape. *)
Record network : Type := {
  model_apply : pytree -> matrix -> matrix;
  model_jac : pytree -> matrix -> jac_pytree;
  h_fn : pytree -> matrix -> matrix -> matrix;
  h_jac : pytree -> matrix -> jac_pytree
}.

Record optimizer (opt_state : Type) : Type := {
  opt_update : pytree -> opt_state -> pytree * opt_state;
  optax_apply_updates : pytree -> pytree -> pytree
}.
Arguments opt_update {opt_state} o.
Arguments optax_apply_updates {opt_state} o.

(** Shapes: a batch of N points, k network outputs, and for the leaf number
    [l], of r entries, the Jacobians of the network and of the operator of
    shape (N, k, r) and the average of the covariance Jacobian of shape
    (k, k, r). *)
Definition batch_ok (net : network) (weight_dict : pytree) (batch : matrix)
           (N k : nat) : Prop :=
  let u := model_apply net weight_dict batch in
  (0 < N)%nat /\ (0 < k)%nat
  /\ wf_matrix N k u /\ wf_matrix N k (h_fn net weight_dict batch u).

Definition leaf_ok (net : network) (weight_dict : pytree) (batch : matrix)
           (J : jac_pytree) (N k l r : nat) : Prop :=
  (l < length J)%nat
  /\ (l < length (model_jac net weight_dict batch))%nat
  /\ (l < length (h_jac net weight_dict batch))%nat
  /\ wf_tensor3 k k r (nth l J [])
  /\ wf_tensor3 N k r (nth l (model_jac net weight_dict batch) [])
  /\ wf_tensor3 N k r (nth l (h_jac net weight_dict batch) []).

(** Lines 60 to 98 of [train_step]: everything up to the gradients that are
    handed to the optimizer. *)
Record gradient_pass : Type := {
  gp_loss : R;
  gp_energies : vector;
  gp_sigma_t_bar : matrix;
  gp_j_sigma_t_bar : jac_pytree;
  gp_L_inv : matrix;
  gp_gradients : pytree
}.

Definition train_step_gradients (net : network) (weight_dict : pytree)
           (batch : matrix) (sigma_t_bar : matrix) (j_sigma_t_bar : jac_pytree)
           (moving_average_beta : R) : outcome gradient_pass :=
  let augmented_beta := moving_average_beta in
  let u := model_apply net weight_dict batch in
  let j_sigma_t_hat := map (jacrev_sigma u) (model_jac net weight_dict batch) in
  let j_sigma_t_bar :=
    map2 (fun x y => Helper.moving_average_t x y augmented_beta)
         j_sigma_t_bar j_sigma_t_hat in
  let sigma := covariance u u in
  let sigma_t_bar := Helper.moving_average sigma_t_bar sigma augmented_beta in
  let* L := of_option (Linalg.cholesky sigma_t_bar) in
  let L_inv := Linalg.inv L in
  let h_u := h_fn net weight_dict batch u in
  let pi := covariance u h_u in
  let f_vjp := fun g =>
    map2 (fun du dh => vjp_pi u h_u du dh g)
         (model_jac net weight_dict batch) (h_jac net weight_dict batch) in
  let A_1_J_pi := f_vjp (dot (transpose L_inv) (diag_matrix (diag_of L_inv))) in
  let Lambda := dot (dot L_inv pi) (transpose L_inv) in
  let energies := diag_of Lambda in
  let loss := vsum energies in
  let A_2 := dot (mneg (transpose L_inv))
                 (triu (dot Lambda (diag_matrix (diag_of L_inv)))) in
  let gradients :=
    map2 (fun sig_jac loss_pi_grad => vadd (tensordot_01_01 A_2 sig_jac) loss_pi_grad)
         j_sigma_t_bar A_1_J_pi in
  Returns {| gp_loss := loss; gp_energies := energies;
             gp_sigma_t_bar := sigma_t_bar; gp_j_sigma_t_bar := j_sigma_t_bar;
             gp_L_inv := L_inv; gp_gradients := gradients |}.

Definition train_step {opt_state : Type} (net : network) (weight_dict : pytree)
           (opt : optimizer opt_state) (st : opt_state)
           (batch : matrix) (sigma_t_bar : matrix) (j_sigma_t_bar : jac_pytree)
           (moving_average_beta : R) (epoch : nat)
  : outcome (R * pytree * vector * matrix * jac_pytree * matrix * opt_state) :=
  let* gp := train_step_gradients net weight_dict batch sigma_t_bar
                                  j_sigma_t_bar moving_average_beta in
  let '(updates, st) := opt_update opt (gp_gradients gp) st in
  let weight_dict := optax_apply_updates opt weight_dict updates in
  Returns (gp_loss gp, weight_dict, gp_energies gp, gp_sigma_t_bar gp,
           gp_j_sigma_t_bar gp, gp_L_inv gp, st).

(** [ModelTrainer]: the hyperparameters that the loop reads, and the state
    that [create_train_state] returns. *)
Record ModelTrainer (opt_state : Type) : Type := {
  n_eigenfuncs : nat;
  moving_average_beta : R;
  num_epochs : nat;
  net_of : network;
  opt_of : optimizer opt_state;
  init_weight_dict : pytree;
  init_opt_state : opt_state
}.
Arguments n_eigenfuncs {opt_state} m.
Arguments moving_average_beta {opt_state} m.
Arguments num_epochs {opt_state} m.
Arguments net_of {opt_state} m.
Arguments opt_of {opt_state} m.
Arguments init_weight_dict {opt_state} m.
Arguments init_opt_state {opt_state} m.

Record run_state (opt_state : Type) : Type := {
  weight_dict : pytree;
  opt_state_of : opt_state;
  sigma_t_bar : matrix;
  j_sigma_t_bar : jac_pytree;
  loss : list R;
  energies : list vector
}.
Arguments weight_dict {opt_state} r.
Arguments opt_state_of {opt_state} r.
Arguments sigma_t_bar {opt_state} r.
Arguments j_sigma_t_bar {opt_state} r.
Arguments loss {opt_state} r.
Arguments energies {opt_state} r.

Section Trainer.
Context {opt_state : Type} (self : ModelTrainer opt_state).

(** The state with which the loop of [start_training] is entered. *)
Definition start_state : run_state opt_state :=
  let k := n_eigenfuncs self in
  {| weight_dict := init_weight_dict self;
     opt_state_of := init_opt_state self;
     sigma_t_bar := eye k;
     j_sigma_t_bar :=
       map (fun x => mk_tensor3 k k (length x) (fun _ _ _ => 0))
           (init_weight_dict self);
     loss := [];
     energies := [] |}.

Definition epoch_body (batches : nat -> matrix) (epoch : nat)
           (r : run_state opt_state) : outcome (run_state opt_state) :=
  let batch := batches epoch in
  let* (new_loss, w, new_energies, s, j, _, st) :=
    train_step (net_of self) (weight_dict r) (opt_of self) (opt_state_of r)
               batch (sigma_t_bar r) (j_sigma_t_bar r)
               (moving_average_beta self) epoch in
  Returns {| weight_dict := w; opt_state_of := st; sigma_t_bar := s;
             j_sigma_t_bar := j; loss := loss r ++ [new_loss];
             energies := energies r ++ [new_energies] |}.

(** [for epoch in range(start_epoch+1, start_epoch+num_epochs+1)], with the
    callback that may stop the run every 500 epochs. *)
Fixpoint epochs (batches : nat -> matrix)
         (callback : option (nat -> list vector -> bool))
         (count epoch : nat) (r : run_state opt_state)
  : outcome (run_state opt_state) :=
  match count with
  | O => Returns r
  | S count' =>
      let* r' := epoch_body batches epoch r in
      let to_stop :=
        match callback with
        | Some cb => Nat.eqb (epoch mod 500) 0 && cb epoch (energies r')
        | None => false
        end in
      if to_stop then Returns r'
      else epochs batches callback count' (S epoch) r'
  end.

Definition start_training (batches : nat -> matrix)
           (callback : option (nat -> list vector -> bool))
  : outcome (run_state opt_state) :=
  let start_epoch := O in
  epochs batches callback (num_epochs self) (S start_epoch) start_state.

End Trainer.

End StfnTraining.

(** ** train_spin.py *)

Module TrainSpin.

(** The part of the interpreter state that the module touches: the heap of
    dictionary objects (keys are layer names, values the flattened arrays)
    and the binding of the module-level name [j_sigma_t_bar], if any. *)
Definition loc := nat.

Record pystate : Type := {
  heap : gmap loc (gmap string vector);
  global_j_sigma_t_bar : option loc
}.

Definition M (A : Type) : Type := pystate -> outcome A * pystate.

Definition ret {A : Type} (a : A) : M A := fun s => (Returns a, s).

Definition mbind {A B : Type} (m : M A) (f : A -> M B) : M B :=
  fun s =>
    match m s with
    | (Returns a, s') => f a s'
    | (Raises e, s') => (Raises e, s')
    | (NotReal, s') => (NotReal, s')
    end.

Definition lift {A : Type} (x : outcome A) : M A := fun s => (x, s).

Notation "'let!' x ':=' m 'in' k" := (mbind m (fun x => k))
  (at level 10, x pattern, m at level 100, k at level 200).

(** Reading the name [j_sigma_t_bar] inside [calculate_masked_gradient]: the
    function never binds the name (it only stores into a subscript of it),
    so the name is looked up among the globals of the module. *)
Definition load_j_sigma_t_bar : M loc :=
  fun s =>
    match global_j_sigma_t_bar s with
    | Some l => (Returns l, s)
    | None => (Raises (NameError "j_sigma_t_bar"), s)
    end.

(** [d[key]] on the dictionary object at [l]. *)
Definition getitem (l : loc) (key : string) : M vector :=
  fun s =>
    match heap s !! l with
    | Some d =>
        match d !! key with
        | Some v => (Returns v, s)
        | None => (Raises (KeyError key), s)
        end
    | None => (Raises (KeyError key), s)
    end.

(** [d[key] = v] on the dictionary object at [l], in place. *)
Definition setitem (l : loc) (key : string) (v : vector) : M unit :=
  fun s =>
    match heap s !! l with
    | Some d =>
        (Returns tt, {| heap := <[l := <[key := v]> d]> (heap s);
                        global_j_sigma_t_bar := global_j_sigma_t_bar s |})
    | None => (Returns tt, s)
    end.

(** [jnp.einsum('bj, bjcw -> bcw', A, J)] followed by [jnp.mean(_, axis=0)],
    with the axes c, w of the kernel flattened. *)
Definition einsum_bj_bjcw (A : matrix) (J : tensor3) : matrix :=
  mk_matrix (dim0 J) (dim2 J)
    (fun b p => sum_n (dim1 J) (fun j => mget A b j * tget J b j p)).

Definition mean_rows (A : matrix) : vector :=
  mk_vector (cols A) (fun p => sum_n (rows A) (fun b => mget A b p) / INR (rows A)).

(** Lines 44 to 63: the two matrices that are contracted with the Jacobian
    of the network, when the factorisation succeeds. *)
Definition factors (pred h_u sigma_t_bar : matrix) (moving_average_beta : R)
  : option (matrix * matrix) :=
  let sigma_t_hat := StfnTraining.mean_axis0 (StfnTraining.outer_batch pred pred) in
  let pi_t_hat := StfnTraining.mean_axis0 (StfnTraining.outer_batch h_u pred) in
  let sigma_t_bar := Helper.moving_average sigma_t_bar sigma_t_hat moving_average_beta in
  match Linalg.cholesky sigma_t_bar with
  | None => None
  | Some L =>
      let L_inv := Linalg.inv L in
      let L_inv_T := transpose L_inv in
      let L_diag_inv :=
        map (fun row => map2 Rmult row (map (fun x => 1 / x) (diag_of L)))
            (eye (rows L)) in
      let A_1 := dot L_inv_T L_diag_inv in
      let A_1 := dot h_u A_1 in
      let Lambda := dot (dot L_inv pi_t_hat) L_inv_T in
      let A_2 := dot L_inv_T (triu (dot Lambda L_diag_inv)) in
      let A_2 := dot pred A_2 in
      Some (A_1, A_2)
  end.

(** One pass through the body of the loop over the layer names.  The name
    lookup and the subscript come first in the control flow; the numbers
    stored are real only when the factorisation succeeded. *)
Definition layer_body (fac : option (matrix * matrix)) (moving_average_beta : R)
           (key : string) (kernel_jac : tensor3) : M vector :=
  let! l := load_j_sigma_t_bar in
  let! old := getitem l key in
  let! f := lift (of_option fac) in
  let '(A_1, A_2) := f in
  let j_pi_t_hat := mean_rows (einsum_bj_bjcw A_1 kernel_jac) in
  let j_sigma_t_hat := mean_rows (einsum_bj_bjcw A_2 kernel_jac) in
  let! _ := setitem l key (Helper.moving_average_v old j_sigma_t_hat moving_average_beta) in
  let! l' := load_j_sigma_t_bar in
  let! new := getitem l' key in
  let masked_grad := vsub j_pi_t_hat new in
  ret masked_grad.

Fixpoint layers_loop (fac : option (matrix * matrix)) (moving_average_beta : R)
         (params : list (string * tensor3)) : M (list (string * vector)) :=
  match params with
  | [] => ret []
  | (key, kernel_jac) :: rest =>
      let! g := layer_body fac moving_average_beta key kernel_jac in
      let! gs := layers_loop fac moving_average_beta rest in
      ret ((key, g) :: gs)
  end.

Definition calculate_masked_gradient (del_u_del_weights : list (string * tensor3))
           (pred h_u sigma_t_bar : matrix) (moving_average_beta : R)
  : M (list (string * vector)) :=
  layers_loop (factors pred h_u sigma_t_bar moving_average_beta)
              moving_average_beta del_u_del_weights.

(** The model, its derivative with respect to the weights ([jacrev(u_of_w)]),
    the operator of physics.py and the optimizer of optax: callables that the
    script obtains from other modules. *)
Record env (weights opt_state : Type) : Type := {
  model_apply : weights -> matrix -> matrix;
  model_jacrev : weights -> matrix -> list (string * tensor3);
  hamiltonian_operator : (matrix -> matrix) -> matrix -> matrix;
  opt_update : list (string * vector) -> opt_state -> weights * opt_state;
  apply_updates : weights -> weights -> weights;
  sparsify_weights : weights -> weights
}.
Arguments model_apply {weights opt_state} e.
Arguments model_jacrev {weights opt_state} e.
Arguments hamiltonian_operator {weights opt_state} e.
Arguments opt_update {weights opt_state} e.
Arguments apply_updates {weights opt_state} e.
Arguments sparsify_weights {weights opt_state} e.

Section Script.
Context {weights opt_state : Type} (e : env weights opt_state).

Definition train_step (weight_dict : weights) (st : opt_state) (batch : matrix)
           (sigma_t_bar : matrix) (j_sigma_t_bar : loc) (moving_average_beta : R)
  : M (weights * R * matrix * loc) :=
  let u_of_x := model_apply e weight_dict in
  let pred := u_of_x batch in
  let del_u_del_weights := model_jacrev e weight_dict batch in
  let h_u := hamiltonian_operator e u_of_x batch in
  let! masked_gradient :=
    calculate_masked_gradient del_u_del_weights pred h_u sigma_t_bar
                              moving_average_beta in
  let '(updates, _) := opt_update e masked_gradient st in
  let weight_dict := apply_updates e weight_dict updates in
  let energies := 0 in
  ret (weight_dict, energies, sigma_t_bar, j_sigma_t_bar).

(** The interpreter state after lines 142 to 145 of the main block: the
    module-level name [j_sigma_t_bar] is bound to a new dictionary with
    one zero array per layer. *)
Definition main_state (kernel_sizes : list (string * nat)) : pystate :=
  {| heap := {[ O := list_to_map
                      (map (fun kn => (fst kn, mk_vector (snd kn) (fun _ => 0)))
                           kernel_sizes) ]};
     global_j_sigma_t_bar := Some O |}.

(** The loop of the main block: [count] epochs, each on [batches epoch]. *)
Fixpoint main_loop (batches : nat -> matrix) (moving_average_beta : R)
         (st : opt_state) (count epoch : nat)
         (weight_dict : weights) (sigma_t_bar : matrix) (j_sigma_t_bar : loc)
  : M (weights * matrix * loc) :=
  match count with
  | O => ret (weight_dict, sigma_t_bar, j_sigma_t_bar)
  | S count' =>
      let! r := train_step weight_dict st (batches epoch) sigma_t_bar
                      j_sigma_t_bar moving_average_beta in
      let '(w, _, s, j) := r in
      main_loop batches moving_average_beta st count' (S epoch)
                (sparsify_weights e w) s j
  end.

End Script.

End TrainSpin.

(** ** backbone.py *)

Module Backbone.

Definition softplus (x : R) : R := ln (1 + exp x).

(** [jnp.sqrt]: no real value on a negative argument. *)
Definition jsqrt (x : R) : option R :=
  if Rle_dec 0 x then Some (sqrt x) else None.

(** The kernels of the [nn.Dense] layers in the order in which [__call__]
    creates them: the first one, one per entry of [features[1:-1]], and the
    last one.  No layer has a bias. *)
Record kernels : Type := {
  Dense_first : matrix;
  Dense_hidden : list matrix;
  Dense_last : matrix
}.

Definition Dense (kernel : matrix) (x : matrix) : matrix := dot x kernel.

Definition softplus_all (x : matrix) : matrix := map (map softplus) x.

Fixpoint hidden_layers (ws : list matrix) (x : matrix) : matrix :=
  match ws with
  | [] => x
  | w :: rest => hidden_layers rest (softplus_all (Dense w x))
  end.

(** [jnp.sqrt(2 * self.D ** 2 - x_in ** 2) - self.D] on one coordinate. *)
Definition boundary_term (D : Z) (x : R) : option R :=
  option_map (fun s => s - IZR D) (jsqrt (2 * IZR (D ^ 2) - x ^ 2)).

(** [jnp.prod(d, axis=-1, keepdims=True)] on one row. *)
Fixpoint prod_row (d : list (option R)) : option R :=
  match d with
  | [] => Some 1
  | x :: rest =>
      match x, prod_row rest with
      | Some a, Some b => Some (a * b)
      | _, _ => None
      end
  end.

(** [EigenNet.__call__] on a batch [x_in] of points, one per row. *)
Definition EigenNet_call (D : Z) (w : kernels) (x_in : matrix)
  : list (list (option R)) :=
  let x := Dense (Dense_first w) x_in in
  let x := softplus_all x in
  let x := hidden_layers (Dense_hidden w) x in
  let x := Dense (Dense_last w) x in
  let d := map (fun point => prod_row (map (boundary_term D) point)) x_in in
  map2 (fun row dr => map (fun y => option_map (Rmult y) dr) row) x d.

End Backbone.

(** ** The closed forms of the specification (sections 3 and 4.3) *)

Module Spec.

(** diag(diag(L^-1)) *)
Definition diag_part (L_inv : matrix) : matrix := diag_matrix (diag_of L_inv).


(** The Pi-term: L^-T diag(diag(L^-1)). *)
Definition pi_term (L_inv : matrix) : matrix :=
  dot (transpose L_inv) (diag_part L_inv).

(** The Sigma-term: - L^-T triu(Lambda diag(diag(L^-1))). *)
Definition sigma_term (L_inv Lambda : matrix) : matrix :=
  mscale (-1) (dot (transpose L_inv) (triu (dot Lambda (diag_part L_inv)))).


End Spec.

(** ** Concrete instances *)

Module Examples.

(** A network with one sample, one output and one parameter: the output is the
    constant [c] and its derivative with respect to the parameter is 1; the
    operator is the identity. *)
Definition stfn_net (c : R) : StfnTraining.network :=
  {| StfnTraining.model_apply := fun _ _ => [[c]];
     StfnTraining.model_jac := fun _ _ => [[[[1]]]];
     StfnTraining.h_fn := fun _ _ u => u;
     StfnTraining.h_jac := fun _ _ => [[[[1]]]] |}.

(** Plain gradient descent with learning rate 1: the updates are the negated
    gradients, and [optax.apply_updates] adds the updates to the weights. *)
Definition stfn_opt : StfnTraining.optimizer unit :=
  {| StfnTraining.opt_update := fun g st => (map (vscale (-1)) g, st);
     StfnTraining.optax_apply_updates := fun w u => map2 vadd w u |}.

Definition stfn_trainer : StfnTraining.ModelTrainer unit :=
  {| StfnTraining.n_eigenfuncs := 1;
     StfnTraining.moving_average_beta := 1 / 2;
     StfnTraining.num_epochs := 1;
     StfnTraining.net_of := stfn_net 2;
     StfnTraining.opt_of := stfn_opt;
     StfnTraining.init_weight_dict := [[0]];
     StfnTraining.init_opt_state := tt |}.

(** A [SpIN] object on one sample and one parameter: each of the [neig]
    outputs is the constant [c] with derivative 1, the operator is the
    identity, and the optimizer is plain gradient descent with learning
    rate 1 whose state is the parameters. *)
Definition spin (c : R) (neig : nat) : JaxSpin.SpIN pytree :=
  {| JaxSpin.operator := fun net_u params inputs => net_u params inputs;
     JaxSpin.net_u := fun _ _ => [repeat c neig];
     JaxSpin.net_u_jac := fun _ _ => [[repeat [1] neig]];
     JaxSpin.opt_update := fun _ g st => map2 vsub st g;
     JaxSpin.get_params := fun st => st;
     JaxSpin.beta := 1 / 2;
     JaxSpin.neig := neig |}.

Definition spin_state : JaxSpin.SpIN_state pytree :=
  {| JaxSpin.st_opt_state := [[0]]; JaxSpin.itercount := 0;
     JaxSpin.loss_log := []; JaxSpin.evals_log := [] |}.

(** The script of train_spin.py on the same network, with one layer
    [Dense_0] that has a single weight. *)
Definition train_spin_env : TrainSpin.env (list (string * list R)) unit :=
  {| TrainSpin.model_apply := fun _ _ => [[2]];
     TrainSpin.model_jacrev := fun _ _ => [("Dense_0"%string, [[[1]]])];
     TrainSpin.hamiltonian_operator := fun u_of_x batch => u_of_x batch;
     TrainSpin.opt_update := fun g st => (g, st);
     TrainSpin.apply_updates := fun w _ => w;
     TrainSpin.sparsify_weights := fun w => w |}.

(** A network of backbone.py with one input coordinate, no hidden layer in
    the middle and unit kernels, and one with two input coordinates. *)
Definition unit_kernels : Backbone.kernels :=
  {| Backbone.Dense_first := [[1]];
     Backbone.Dense_hidden := [];
     Backbone.Dense_last := [[1]] |}.

Definition unit_kernels_2 : Backbone.kernels :=
  {| Backbone.Dense_first := [[1]; [1]];
     Backbone.Dense_hidden := [];
     Backbone.Dense_last := [[1]] |}.

Definition train_spin_main : TrainSpin.pystate :=
  TrainSpin.main_state [("Dense_0"%string, 1%nat)].

End Examples.

(** ** Invariant of the loop of train_spin.py *)

Module RunInvariants.

(** What the loop of the main block of train_spin.py keeps true of the
    interpreter state: the module-level name is bound to a dictionary that
    holds every layer name of [K]. *)
Definition dict_ready (K : list string) (s : TrainSpin.pystate) : Prop :=
  TrainSpin.global_j_sigma_t_bar s = Some O
  /\ exists d, TrainSpin.heap s !! O = Some d
               /\ forall key, In key K -> is_Some (d !! key).

End RunInvariants.

(** ** Outcomes of the functions below

    A call returns a value, raises one of the two exceptions that these
    functions can raise on integers and lists, or reaches a value that the
    array library defines differently from one version to the next
    ([LibraryDefined]).  As for the primitives of [Section Arrays], shapes
    that the array library refuses are not part of the model: the arrays are
    combined by their index formulas and the theorems carry the shapes as
    hypotheses. *)

Module Py.

Inductive error : Type :=
| IndexError
| ZeroDivisionError.

Inductive result (A : Type) : Type :=
| Ok (a : A)
| Err (e : error)
| LibraryDefined.
Arguments Ok {A} a.
Arguments Err {A} e.
Arguments LibraryDefined {A}.

End Py.

(** ** jax_spin.py: the network and its mask *)

Module JaxSpinNet.

(** [jax.nn.sigmoid] *)
Definition sigmoid (x : R) : R := 1 / (1 + exp (- x)).

Definition sigmoid_all (x : matrix) : matrix := map (map sigmoid) x.

(** The loop of [MLP.apply] over [params[:-1]]; a layer is a pair (W, b)
    and the bias is never read. *)
Fixpoint hidden (ps : list (matrix * vector)) (inputs : matrix) : matrix :=
  match ps with
  | [] => inputs
  | (W, b) :: rest => hidden rest (sigmoid_all (dot inputs W))
  end.

(** [MLP(layers)[1]], the function [apply], on a batch of points.  With no
    layer, [params[-1]] raises. *)
Definition MLP_apply (params : list (matrix * vector)) (inputs : matrix)
  : Py.result matrix :=
  match params with
  | [] => Py.Err Py.IndexError
  | _ :: _ =>
      let inputs := hidden (removelast params) inputs in
      let '(W, b) := List.last params ([], []) in
      Py.Ok (dot inputs W)
  end.

(** [np.dot] of a 1-D array with a 2-D array, and [apply] on one point. *)
Definition vdot (v : vector) (W : matrix) : vector :=
  mk_vector (cols W) (fun j => sum_n (length v) (fun p => vget v p * mget W p j)).

Fixpoint hidden_point (ps : list (matrix * vector)) (inputs : vector) : vector :=
  match ps with
  | [] => inputs
  | (W, b) :: rest => hidden_point rest (map sigmoid (vdot inputs W))
  end.

Definition MLP_apply_point (params : list (matrix * vector)) (inputs : vector)
  : Py.result vector :=
  match params with
  | [] => Py.Err Py.IndexError
  | _ :: _ =>
      let inputs := hidden_point (removelast params) inputs in
      let '(W, b) := List.last params ([], []) in
      Py.Ok (vdot inputs W)
  end.

(** [np.maximum(-x**2 + np.pi * x, 0)] *)
Definition bump (x : R) : R := Rmax (- (x ^ 2) + PI * x) 0.

(** The value of [mask] for one point after the loop over its coordinates:
    it starts at 0.1 and is multiplied by one factor per coordinate. *)
Definition mask_of (point : vector) : R :=
  fold_left (fun mask x => mask * bump x) point (1 / 10).

(** [SpIN.apply_mask] on a batch (2-D [inputs]; [outputs] has one row per
    point and the mask, of shape (N, 1), scales each row) and on one point
    (1-D [inputs]; the mask is a scalar). *)
Definition apply_mask_batch (inputs outputs : matrix) : matrix :=
  map2 (fun point row => vscale (mask_of point) row) inputs outputs.

Definition apply_mask_point (inputs outputs : vector) : vector :=
  vscale (mask_of inputs) outputs.

(** [SpIN.net_u] with [self.net_apply] the function [MLP_apply]. *)
Definition net_u (params : list (matrix * vector)) (inputs : matrix)
  : Py.result matrix :=
  match MLP_apply params inputs with
  | Py.Ok outputs => Py.Ok (apply_mask_batch inputs outputs)
  | Py.Err e => Py.Err e
  | Py.LibraryDefined => Py.LibraryDefined
  end.

Definition net_u_point (params : list (matrix * vector)) (inputs : vector)
  : Py.result vector :=
  match MLP_apply_point params inputs with
  | Py.Ok outputs => Py.Ok (apply_mask_point inputs outputs)
  | Py.Err e => Py.Err e
  | Py.LibraryDefined => Py.LibraryDefined
  end.

(** The 64-bit integers of the script ([jax_enable_x64] is set): the result
    of an operation is reduced into [-2^63, 2^63). *)
Definition wrap64 (z : Z) : Z := ((z + 2 ^ 63) mod 2 ^ 64 - 2 ^ 63)%Z.

(** [exact_eigenpairs_1d(x, n)] for a column [x] of points, as the script
    passes it: [idx = arange(n) + 1], the integers [-idx**2] and the array
    [sqrt(2/pi) * sin(idx * x)] of shape (N, n). *)
Definition efun (i : Z) (x : R) : R := sqrt (2 / PI) * sin (IZR i * x).

Definition exact_eigenpairs_1d (x : matrix) (n : nat) : list Z * matrix :=
  let idx := map (fun i => wrap64 (Z.of_nat i + 1)) (seq 0 n) in
  let evals := map (fun i => wrap64 (- wrap64 (i ^ 2))) idx in
  let efuns := map (fun row => map (fun i => efun i (vget row 0)) idx) x in
  (evals, efuns).

End JaxSpinNet.

(** ** backbone.py: the sparsifying masks

    The bounds of the bands are Python floats; like the entries of the
    arrays they are modelled by real numbers. *)

Module BackboneMasks.

Abbreviation bmatrix := (list (list bool)).

Definition Rleb (a b : R) : bool := if Rle_dec a b then true else false.

Definition bget (A : bmatrix) (i j : nat) : bool := nth j (nth i A []) false.

(** A boolean array of shape (m, n) from its entries. *)
Definition bmk (m n : nat) (f : nat -> nat -> bool) : bmatrix :=
  map (fun i => map (f i) (seq 0 n)) (seq 0 m).

Definition logical_or (A B : bmatrix) : bmatrix := map2 (map2 orb) A B.
Definition logical_and (A B : bmatrix) : bmatrix := map2 (map2 andb) A B.

Section Mask.
Variables (m n sparsifing_K l L : nat).

(** [beta = (L - l + 1) / L] and, in the pass number [k] of the loop,
    [alpha = k/(sparsifing_K - 1) * (l - 1)/L]. *)
Definition beta : R := (INR L - INR l + 1) / INR L.
Definition alpha (k : nat) : R := INR k / (INR sparsifing_K - 1) * (INR l - 1) / INR L.

(** [ii_in_bound] and [jj_in_bound] of the pass number [k], at the row
    index [i] and at the column index [j]. *)
Definition ii_in_bound (k i : nat) : bool :=
  Rleb (alpha k * INR m) (INR i) && Rleb (INR i) ((alpha k + beta) * INR m).
Definition jj_in_bound (k j : nat) : bool :=
  Rleb (alpha k * INR n) (INR j) && Rleb (INR j) ((alpha k + beta) * INR n).

(** The loop [for k in range(sparsifing_K)] on the two accumulators, which
    are [None] before the first pass. *)
Fixpoint bands (ks : list nat) (acc : option (bmatrix * bmatrix))
  : option (bmatrix * bmatrix) :=
  match ks with
  | [] => acc
  | k :: rest =>
      let ii := bmk m n (fun i _ => ii_in_bound k i) in
      let jj := bmk m n (fun _ j => jj_in_bound k j) in
      bands rest
        (match acc with
         | None => Some (ii, jj)
         | Some (ii_any, jj_any) => Some (logical_or ii_any ii, logical_or jj_any jj)
         end)
  end.

End Mask.

(** [EigenNet.get_layer_sparsifying_mask(W, sparsifing_K, l, L)] on Python
    integers that are not negative.  [beta] divides by [L] before the loop
    and the first pass divides by [sparsifing_K - 1]; with
    [sparsifing_K] = 0 the loop does not run and [np.logical_and] is applied
    to two [None]. *)
Definition get_layer_sparsifying_mask (W : matrix) (sparsifing_K l L : nat)
  : Py.result bmatrix :=
  let m := rows W in
  let n := cols W in
  if Nat.eqb L 0 then Py.Err Py.ZeroDivisionError
  else if Nat.eqb sparsifing_K 1 then Py.Err Py.ZeroDivisionError
  else
    match bands m n sparsifing_K l L (seq 0 sparsifing_K) None with
    | Some (ii_in_any_bound, jj_in_any_bound) =>
        Py.Ok (logical_and ii_in_any_bound jj_in_any_bound)
    | None => Py.LibraryDefined
    end.

(** The list comprehension of [get_all_layer_sparsifying_masks] from the
    layer number [l] on; a weight dictionary is the list of its layers, each
    with its name and its kernel. *)
Fixpoint masks_from (layers : list (string * matrix)) (sparsifing_K l L : nat)
  : Py.result (list bmatrix) :=
  match layers with
  | [] => Py.Ok []
  | (key, kernel) :: rest =>
      match get_layer_sparsifying_mask kernel sparsifing_K l L with
      | Py.Ok mask =>
          match masks_from rest sparsifing_K (S l) L with
          | Py.Ok masks => Py.Ok (mask :: masks)
          | Py.Err e => Py.Err e
          | Py.LibraryDefined => Py.LibraryDefined
          end
      | Py.Err e => Py.Err e
      | Py.LibraryDefined => Py.LibraryDefined
      end
  end.

Definition get_all_layer_sparsifying_masks (weight_dict : list (string * matrix))
           (sparsifing_K : nat) : Py.result (list bmatrix) :=
  let L := length weight_dict in
  masks_from weight_dict sparsifing_K 0 L.

(** [kernel * sparsifying_layer_mask]: [True] counts as 1 and [False] as 0. *)
Definition mul_mask (kernel : matrix) (mask : bmatrix) : matrix :=
  map2 (map2 (fun x (b : bool) => x * (if b then 1 else 0))) kernel mask.

(** [EigenNet.sparsify_weights]: [zip] stops at the shorter of the two
    lists, and the layers that are left keep their kernels. *)
Fixpoint sparsify_weights (weight_dict : list (string * matrix))
         (layer_sparsifying_masks : list bmatrix) : list (string * matrix) :=
  match weight_dict, layer_sparsifying_masks with
  | (key, kernel) :: rest, mask :: masks =>
      (key, mul_mask kernel mask) :: sparsify_weights rest masks
  | _, _ => weight_dict
  end.

End BackboneMasks.

(** ** The derivative that the specification names (section 4.3)

    Pi is the batch cross-covariance (1/N) U1^T U2 of two arrays that both
    depend on the parameters.  [d_covariance] is its derivative with respect
    to one leaf by the product rule, from the Jacobians [du1] and [du2] of the
    two arrays (shape (N, k) + leaf shape); it is what the steps are compared
    with, not something that they compute. *)

Module SpecDerivatives.


End SpecDerivatives.

(** ** More concrete instances *)

Module MoreExamples.

(** A [SpIN] object whose network returns the same row of [neig] values
    [c] for every point of the batch. *)
Definition spin_const (c : R) (neig : nat) : JaxSpin.SpIN pytree :=
  {| JaxSpin.operator := fun net_u params inputs => net_u params inputs;
     JaxSpin.net_u := fun _ inputs => map (fun _ => repeat c neig) inputs;
     JaxSpin.net_u_jac := fun _ inputs => [map (fun _ => repeat [1] neig) inputs];
     JaxSpin.opt_update := fun _ g st => map2 vsub st g;
     JaxSpin.get_params := fun st => st;
     JaxSpin.beta := 1 / 2;
     JaxSpin.neig := neig |}.


(** An object that has been trained for one iteration before: its counter
    is 1. *)
Definition spin_state_1 : JaxSpin.SpIN_state pytree :=
  {| JaxSpin.st_opt_state := [[0]]; JaxSpin.itercount := 1;
     JaxSpin.loss_log := []; JaxSpin.evals_log := [] |}.

(** Two layers with one unit each, and three layers of a 2 by 2 kernel. *)
Definition mlp_2 : list (matrix * vector) := [([[1]], [5]); ([[2]], [7])].

Definition three_layers : list (string * matrix) :=
  [("Dense_0"%string, [[1; 2]; [3; 4]]);
   ("Dense_1"%string, [[5; 6]; [7; 8]]);
   ("Dense_2"%string, [[9; 10]; [11; 12]])].

End MoreExamples.

(** * Properties *)

(** ** Finite sums *)

Lemma sum_n_ext (n : nat) (f g : nat -> R) :
  (forall i, (i < n)%nat -> f i = g i) -> sum_n n f = sum_n n g.
Proof.
  induction n as [|n IH]; intros H; simpl; [reflexivity|].
  rewrite IH by (intros; apply H; lia).
  rewrite (H n) by lia. reflexivity.
Qed.

Lemma sum_n_zero (n : nat) (f : nat -> R) :
  (forall i, (i < n)%nat -> f i = 0) -> sum_n n f = 0.
Proof.
  induction n as [|n IH]; intros H; simpl; [reflexivity|].
  rewrite IH by (intros; apply H; lia).
  rewrite (H n) by lia. lra.
Qed.

Lemma sum_n_plus (n : nat) (f g : nat -> R) :
  sum_n n (fun i => f i + g i) = sum_n n f + sum_n n g.
Proof. induction n as [|n IH]; simpl; [|rewrite IH]; lra. Qed.

Lemma sum_n_minus (n : nat) (f g : nat -> R) :
  sum_n n (fun i => f i - g i) = sum_n n f - sum_n n g.
Proof. induction n as [|n IH]; simpl; [|rewrite IH]; lra. Qed.

Lemma sum_n_scal_l (n : nat) (c : R) (f : nat -> R) :
  sum_n n (fun i => c * f i) = c * sum_n n f.
Proof. induction n as [|n IH]; simpl; [|rewrite IH]; lra. Qed.

Lemma sum_n_scal_r (n : nat) (c : R) (f : nat -> R) :
  sum_n n (fun i => f i * c) = sum_n n f * c.
Proof. induction n as [|n IH]; simpl; [|rewrite IH]; lra. Qed.

Lemma sum_n_opp (n : nat) (f : nat -> R) :
  sum_n n (fun i => - f i) = - sum_n n f.
Proof. induction n as [|n IH]; simpl; [|rewrite IH]; lra. Qed.

Lemma sum_n_div (n : nat) (c : R) (f : nat -> R) :
  sum_n n (fun i => f i / c) = sum_n n f / c.
Proof. unfold Rdiv. apply sum_n_scal_r. Qed.

(** Splitting off the first term instead of the last. *)
Lemma sum_n_head (n : nat) (f : nat -> R) :
  sum_n (S n) f = f O + sum_n n (fun i => f (S i)).
Proof.
  induction n as [|n IH]; [simpl; lra|].
  change (sum_n (S (S n)) f) with (sum_n (S n) f + f (S n)).
  rewrite IH. simpl. lra.
Qed.

(** Exchange of two finite sums. *)
Lemma sum_n_swap (m n : nat) (f : nat -> nat -> R) :
  sum_n m (fun i => sum_n n (fun j => f i j)) =
  sum_n n (fun j => sum_n m (fun i => f i j)).
Proof.
  induction m as [|m IH]; simpl.
  - symmetry. apply sum_n_zero. reflexivity.
  - rewrite IH, <- sum_n_plus. reflexivity.
Qed.

(** A sum against a Kronecker delta picks one term. *)
Lemma sum_n_delta (n j : nat) (f : nat -> R) :
  (j < n)%nat ->
  sum_n n (fun i => if Nat.eqb i j then f i else 0) = f j.
Proof.
  induction n as [|n IH]; intros Hj; [lia|]. simpl.
  destruct (Nat.eqb_spec n j) as [->|Hne].
  - rewrite sum_n_zero; [lra|].
    intros i Hi. destruct (Nat.eqb_spec i j); [lia|reflexivity].
  - rewrite IH by lia. lra.
Qed.

Lemma sum_n_delta' (n j : nat) (f : nat -> R) :
  (j < n)%nat ->
  sum_n n (fun i => if Nat.eqb j i then f i else 0) = f j.
Proof.
  intros Hj. rewrite <- (sum_n_delta n j f Hj).
  apply sum_n_ext. intros i _. rewrite Nat.eqb_sym. reflexivity.
Qed.

Lemma sum_n_mult (m n : nat) (f g : nat -> R) :
  sum_n m f * sum_n n g = sum_n m (fun i => sum_n n (fun j => f i * g j)).
Proof.
  rewrite <- sum_n_scal_r. apply sum_n_ext. intros i _.
  rewrite sum_n_scal_l. reflexivity.
Qed.

Lemma sum_n_nonneg (n : nat) (f : nat -> R) :
  (forall i, (i < n)%nat -> 0 <= f i) -> 0 <= sum_n n f.
Proof.
  induction n as [|n IH]; intros H; simpl; [lra|].
  specialize (IH (fun i Hi => H i (Nat.lt_lt_succ_r _ _ Hi))).
  specialize (H n (Nat.lt_succ_diag_r n)). lra.
Qed.

(** A sum of squares is positive as soon as one term is not zero. *)
Lemma sum_n_sqr_pos (n j : nat) (f : nat -> R) :
  (j < n)%nat -> f j <> 0 -> 0 < sum_n n (fun i => f i * f i).
Proof.
  induction n as [|n IH]; intros Hj Hf; [lia|]. simpl.
  assert (Hs : 0 <= sum_n n (fun i => f i * f i))
    by (apply sum_n_nonneg; intros; nra).
  destruct (Nat.eq_dec j n) as [->|Hne].
  - assert (0 < f n * f n) by nra. lra.
  - specialize (IH ltac:(lia) Hf). nra.
Qed.

(** ** Arrays built from index formulas *)

Lemma length_mk_vector (n : nat) (f : nat -> R) : length (mk_vector n f) = n.
Proof. unfold mk_vector. rewrite length_map, length_seq. reflexivity. Qed.

Lemma vget_mk_vector (n : nat) (f : nat -> R) (i : nat) :
  (i < n)%nat -> vget (mk_vector n f) i = f i.
Proof.
  intros Hi. unfold vget, mk_vector.
  rewrite (nth_indep _ 0 (f O)) by (rewrite length_map, length_seq; lia).
  rewrite (map_nth f), seq_nth by lia. reflexivity.
Qed.

Lemma mk_vector_ext (n : nat) (f g : nat -> R) :
  (forall i, (i < n)%nat -> f i = g i) -> mk_vector n f = mk_vector n g.
Proof.
  intros H. unfold mk_vector. apply map_ext_in.
  intros i Hi. apply in_seq in Hi. apply H. lia.
Qed.

Lemma mk_vector_vget (n : nat) (v : vector) :
  wf_vector n v -> mk_vector n (vget v) = v.
Proof.
  unfold wf_vector. intros <-. unfold mk_vector, vget.
  apply nth_ext with (d := 0) (d' := 0).
  - rewrite length_map, length_seq. reflexivity.
  - intros i Hi. rewrite length_map, length_seq in Hi.
    rewrite (nth_indep _ 0 (nth O v 0)) by (rewrite length_map, length_seq; lia).
    rewrite (map_nth (fun i => nth i v 0)), seq_nth by lia. reflexivity.
Qed.

Lemma vector_ext (n : nat) (v w : vector) :
  wf_vector n v -> wf_vector n w ->
  (forall i, (i < n)%nat -> vget v i = vget w i) -> v = w.
Proof.
  intros Hv Hw H.
  rewrite <- (mk_vector_vget n v Hv), <- (mk_vector_vget n w Hw).
  apply mk_vector_ext, H.
Qed.

Lemma length_mk_matrix (m n : nat) (f : nat -> nat -> R) :
  length (mk_matrix m n f) = m.
Proof. unfold mk_matrix. rewrite length_map, length_seq. reflexivity. Qed.

Lemma nth_mk_matrix (m n : nat) (f : nat -> nat -> R) (i : nat) :
  (i < m)%nat -> nth i (mk_matrix m n f) [] = mk_vector n (f i).
Proof.
  intros Hi. unfold mk_matrix.
  rewrite (nth_indep _ [] (mk_vector n (f O))) by (rewrite length_map, length_seq; lia).
  rewrite (map_nth (fun i => mk_vector n (f i))), seq_nth by lia. reflexivity.
Qed.

Lemma mget_mk_matrix (m n : nat) (f : nat -> nat -> R) (i j : nat) :
  (i < m)%nat -> (j < n)%nat -> mget (mk_matrix m n f) i j = f i j.
Proof.
  intros Hi Hj. unfold mget. rewrite nth_mk_matrix by assumption.
  apply vget_mk_vector. assumption.
Qed.

Lemma wf_mk_matrix (m n : nat) (f : nat -> nat -> R) :
  wf_matrix m n (mk_matrix m n f).
Proof.
  split; [apply length_mk_matrix|].
  unfold mk_matrix. apply Forall_map, Forall_forall.
  intros i _. apply length_mk_vector.
Qed.

Lemma rows_mk_matrix (m n : nat) (f : nat -> nat -> R) : rows (mk_matrix m n f) = m.
Proof. apply length_mk_matrix. Qed.

Lemma cols_mk_matrix (m n : nat) (f : nat -> nat -> R) :
  (0 < m)%nat -> cols (mk_matrix m n f) = n.
Proof.
  intros Hm. unfold cols. destruct m as [|m]; [lia|].
  unfold mk_matrix. simpl. apply length_mk_vector.
Qed.

Lemma mk_matrix_ext (m n : nat) (f g : nat -> nat -> R) :
  (forall i j, (i < m)%nat -> (j < n)%nat -> f i j = g i j) ->
  mk_matrix m n f = mk_matrix m n g.
Proof.
  intros H. unfold mk_matrix. apply map_ext_in.
  intros i Hi. apply in_seq in Hi. apply mk_vector_ext.
  intros j Hj. apply H; lia.
Qed.

Lemma wf_matrix_nth (m n : nat) (A : matrix) (i : nat) :
  wf_matrix m n A -> (i < m)%nat -> wf_vector n (nth i A []).
Proof.
  intros [Hl HA] Hi. rewrite Forall_forall in HA. apply HA, nth_In. lia.
Qed.

Lemma mk_matrix_mget (m n : nat) (A : matrix) :
  wf_matrix m n A -> mk_matrix m n (mget A) = A.
Proof.
  intros HA. pose proof HA as [Hl _].
  apply nth_ext with (d := []) (d' := []).
  - rewrite length_mk_matrix. lia.
  - intros i Hi. rewrite length_mk_matrix in Hi.
    rewrite nth_mk_matrix by assumption.
    apply (mk_vector_vget n). eapply wf_matrix_nth; eassumption.
Qed.

Lemma matrix_ext (m n : nat) (A B : matrix) :
  wf_matrix m n A -> wf_matrix m n B ->
  (forall i j, (i < m)%nat -> (j < n)%nat -> mget A i j = mget B i j) -> A = B.
Proof.
  intros HA HB H.
  rewrite <- (mk_matrix_mget m n A HA), <- (mk_matrix_mget m n B HB).
  apply mk_matrix_ext, H.
Qed.

Lemma rows_wf (m n : nat) (A : matrix) : wf_matrix m n A -> rows A = m.
Proof. intros [H _]. exact H. Qed.

Lemma cols_wf (m n : nat) (A : matrix) :
  wf_matrix m n A -> (0 < m)%nat -> cols A = n.
Proof.
  intros [Hl HA] Hm. unfold cols. destruct A as [|r A]; [simpl in Hl; lia|].
  simpl. inversion HA; subst. assumption.
Qed.

Lemma length_mk_tensor3 (m n q : nat) (f : nat -> nat -> nat -> R) :
  length (mk_tensor3 m n q f) = m.
Proof. unfold mk_tensor3. rewrite length_map, length_seq. reflexivity. Qed.

Lemma nth_mk_tensor3 (m n q : nat) (f : nat -> nat -> nat -> R) (i : nat) :
  (i < m)%nat -> nth i (mk_tensor3 m n q f) [] = mk_matrix n q (f i).
Proof.
  intros Hi. unfold mk_tensor3.
  rewrite (nth_indep _ [] (mk_matrix n q (f O))) by (rewrite length_map, length_seq; lia).
  rewrite (map_nth (fun i => mk_matrix n q (f i))), seq_nth by lia. reflexivity.
Qed.

Lemma tget_mk_tensor3 (m n q : nat) (f : nat -> nat -> nat -> R) (i j p : nat) :
  (i < m)%nat -> (j < n)%nat -> (p < q)%nat ->
  tget (mk_tensor3 m n q f) i j p = f i j p.
Proof.
  intros Hi Hj Hp. unfold tget. rewrite nth_mk_tensor3 by assumption.
  apply (mget_mk_matrix n q (f i)); assumption.
Qed.

Lemma wf_mk_tensor3 (m n q : nat) (f : nat -> nat -> nat -> R) :
  wf_tensor3 m n q (mk_tensor3 m n q f).
Proof.
  split; [apply length_mk_tensor3|].
  unfold mk_tensor3. apply Forall_map, Forall_forall.
  intros i _. apply wf_mk_matrix.
Qed.

Lemma mk_tensor3_ext (m n q : nat) (f g : nat -> nat -> nat -> R) :
  (forall i j p, (i < m)%nat -> (j < n)%nat -> (p < q)%nat -> f i j p = g i j p) ->
  mk_tensor3 m n q f = mk_tensor3 m n q g.
Proof.
  intros H. unfold mk_tensor3. apply map_ext_in.
  intros i Hi. apply in_seq in Hi. apply mk_matrix_ext.
  intros j p Hj Hp. apply H; lia.
Qed.

Lemma mk_tensor3_tget (m n q : nat) (T : tensor3) :
  wf_tensor3 m n q T -> mk_tensor3 m n q (tget T) = T.
Proof.
  intros [Hl HT].
  apply nth_ext with (d := []) (d' := []).
  - rewrite length_mk_tensor3. lia.
  - intros i Hi. rewrite length_mk_tensor3 in Hi.
    rewrite nth_mk_tensor3 by assumption.
    apply (mk_matrix_mget n q). rewrite Forall_forall in HT.
    apply HT, nth_In. lia.
Qed.

Lemma tensor3_ext (m n q : nat) (T U : tensor3) :
  wf_tensor3 m n q T -> wf_tensor3 m n q U ->
  (forall i j p, (i < m)%nat -> (j < n)%nat -> (p < q)%nat ->
                 tget T i j p = tget U i j p) -> T = U.
Proof.
  intros HT HU H.
  rewrite <- (mk_tensor3_tget m n q T HT), <- (mk_tensor3_tget m n q U HU).
  apply mk_tensor3_ext, H.
Qed.

Lemma dims_wf (m n q : nat) (T : tensor3) :
  wf_tensor3 m n q T -> (0 < m)%nat -> (0 < n)%nat ->
  dim0 T = m /\ dim1 T = n /\ dim2 T = q.
Proof.
  intros [Hl HT] Hm Hn. unfold dim0, dim1, dim2.
  destruct T as [|A T]; [simpl in Hl; lia|]. simpl.
  inversion HT as [|? ? HA _]; subst.
  split; [reflexivity|]. split; [apply HA|].
  apply (cols_wf n q A HA Hn).
Qed.

(** ** Entries of the numpy primitives *)

Lemma nth_map2 {A B C : Type} (f : A -> B -> C) (l : list A) (l' : list B)
      (i : nat) (da : A) (db : B) (dc : C) :
  (i < length l)%nat -> (i < length l')%nat ->
  nth i (map2 f l l') dc = f (nth i l da) (nth i l' db).
Proof.
  revert l' i. induction l as [|x l IH]; intros [|y l'] i Hl Hl'; simpl in *; try lia.
  destruct i as [|i]; [reflexivity|]. apply IH; lia.
Qed.

Lemma length_map2 {A B C : Type} (f : A -> B -> C) (l : list A) (l' : list B) :
  length (map2 f l l') = Nat.min (length l) (length l').
Proof.
  revert l'. induction l as [|x l IH]; intros [|y l']; simpl; try reflexivity.
  rewrite IH. reflexivity.
Qed.

Lemma map2_nil_r {A B C : Type} (f : A -> B -> C) (l : list A) : map2 f l [] = [].
Proof. destruct l; reflexivity. Qed.

Lemma nth_map_default {A B : Type} (f : A -> B) (l : list A) (i : nat) (d : A) (d' : B) :
  f d = d' -> nth i (map f l) d' = f (nth i l d).
Proof. intros <-. apply map_nth. Qed.

Lemma nth_map_lt {A B : Type} (f : A -> B) (l : list A) (i : nat) (d : A) (d' : B) :
  (i < length l)%nat -> nth i (map f l) d' = f (nth i l d).
Proof.
  intros Hi. rewrite (nth_indep _ d' (f d)) by (rewrite length_map; exact Hi).
  apply map_nth.
Qed.

Lemma vget_vscale (c : R) (v : vector) (i : nat) :
  vget (vscale c v) i = c * vget v i.
Proof.
  unfold vget, vscale. apply nth_map_default. ring.
Qed.

Lemma vget_vdiv (v : vector) (c : R) (i : nat) :
  vget (vdiv v c) i = vget v i / c.
Proof.
  unfold vget, vdiv.
  apply (nth_map_default (fun x => x / c) v i 0 0). unfold Rdiv. ring.
Qed.

Lemma vget_vadd (v w : vector) (i : nat) :
  (i < length v)%nat -> (i < length w)%nat ->
  vget (vadd v w) i = vget v i + vget w i.
Proof. intros. unfold vget, vadd. apply nth_map2; assumption. Qed.

Lemma vget_vsub (v w : vector) (i : nat) :
  (i < length v)%nat -> (i < length w)%nat ->
  vget (vsub v w) i = vget v i - vget w i.
Proof. intros. unfold vget, vsub. apply nth_map2; assumption. Qed.

Lemma length_vscale (c : R) (v : vector) : length (vscale c v) = length v.
Proof. apply length_map. Qed.

Lemma length_vdiv (v : vector) (c : R) : length (vdiv v c) = length v.
Proof. apply length_map. Qed.

Lemma length_vadd (n : nat) (v w : vector) :
  wf_vector n v -> wf_vector n w -> wf_vector n (vadd v w).
Proof.
  unfold wf_vector, vadd. intros Hv Hw. rewrite length_map2, Hv, Hw. lia.
Qed.

Lemma nth_mscale (c : R) (A : matrix) (i : nat) :
  nth i (mscale c A) [] = vscale c (nth i A []).
Proof. unfold mscale. apply nth_map_default. reflexivity. Qed.

Lemma mget_mscale (c : R) (A : matrix) (i j : nat) :
  mget (mscale c A) i j = c * mget A i j.
Proof. unfold mget. rewrite nth_mscale. apply vget_vscale. Qed.

Lemma mget_mneg (A : matrix) (i j : nat) : mget (mneg A) i j = - mget A i j.
Proof.
  assert (E : nth i (mneg A) [] = map Ropp (nth i A []))
    by (apply (nth_map_default (map Ropp) A i [] []); reflexivity).
  unfold mget. rewrite E. apply (nth_map_default Ropp). ring.
Qed.

Lemma mget_mdiv (A : matrix) (c : R) (i j : nat) :
  mget (mdiv A c) i j = mget A i j / c.
Proof.
  assert (E : nth i (mdiv A c) [] = vdiv (nth i A []) c)
    by (apply (nth_map_default (fun r => vdiv r c) A i [] []); reflexivity).
  unfold mget. rewrite E. apply vget_vdiv.
Qed.

Lemma wf_mscale (m n : nat) (c : R) (A : matrix) :
  wf_matrix m n A -> wf_matrix m n (mscale c A).
Proof.
  intros [Hl HA]. split; [unfold mscale; rewrite length_map; exact Hl|].
  unfold mscale. apply Forall_map. eapply Forall_impl; [|exact HA].
  intros r Hr. unfold wf_vector in *. rewrite length_vscale. exact Hr.
Qed.

Lemma wf_mneg (m n : nat) (A : matrix) :
  wf_matrix m n A -> wf_matrix m n (mneg A).
Proof.
  intros [Hl HA]. split; [unfold mneg; rewrite length_map; exact Hl|].
  unfold mneg. apply Forall_map. eapply Forall_impl; [|exact HA].
  intros r Hr. unfold wf_vector in *. rewrite length_map. exact Hr.
Qed.

Lemma wf_mdiv (m n : nat) (c : R) (A : matrix) :
  wf_matrix m n A -> wf_matrix m n (mdiv A c).
Proof.
  intros [Hl HA]. split; [unfold mdiv; rewrite length_map; exact Hl|].
  unfold mdiv. apply Forall_map. eapply Forall_impl; [|exact HA].
  intros r Hr. unfold wf_vector in *. rewrite length_vdiv. exact Hr.
Qed.

Lemma wf_madd (m n : nat) (A B : matrix) :
  wf_matrix m n A -> wf_matrix m n B -> wf_matrix m n (madd A B).
Proof.
  intros HA HB. pose proof HA as [HlA _]. pose proof HB as [HlB _].
  split; [unfold madd; rewrite length_map2; lia|].
  apply Forall_forall. intros r Hr.
  apply (In_nth _ _ []) in Hr. destruct Hr as [i [Hi <-]].
  unfold madd in *. rewrite length_map2 in Hi.
  rewrite (nth_map2 vadd A B i [] []) by lia.
  apply length_vadd; eapply wf_matrix_nth; try eassumption; lia.
Qed.

Lemma mget_madd (m n : nat) (A B : matrix) (i j : nat) :
  wf_matrix m n A -> wf_matrix m n B -> (i < m)%nat -> (j < n)%nat ->
  mget (madd A B) i j = mget A i j + mget B i j.
Proof.
  intros HA HB Hi Hj. pose proof HA as [HlA _]. pose proof HB as [HlB _].
  unfold mget, madd. rewrite (nth_map2 vadd A B i [] []) by lia.
  apply vget_vadd.
  - rewrite (wf_matrix_nth m n A i HA Hi). exact Hj.
  - rewrite (wf_matrix_nth m n B i HB Hi). exact Hj.
Qed.

Lemma wf_transpose (m n : nat) (A : matrix) :
  wf_matrix m n A -> (0 < m)%nat -> wf_matrix n m (transpose A).
Proof.
  intros HA Hm. unfold transpose.
  rewrite (cols_wf m n A HA Hm), (rows_wf m n A HA). apply wf_mk_matrix.
Qed.

Lemma mget_transpose (m n : nat) (A : matrix) (i j : nat) :
  wf_matrix m n A -> (i < n)%nat -> (j < m)%nat ->
  mget (transpose A) i j = mget A j i.
Proof.
  intros HA Hi Hj. unfold transpose.
  rewrite (cols_wf m n A HA) by lia. rewrite (rows_wf m n A HA).
  rewrite mget_mk_matrix by assumption. reflexivity.
Qed.

Lemma wf_dot (m n q : nat) (A B : matrix) :
  wf_matrix m n A -> wf_matrix n q B -> (0 < n)%nat -> wf_matrix m q (dot A B).
Proof.
  intros HA HB Hn. unfold dot.
  rewrite (rows_wf m n A HA), (cols_wf n q B HB Hn). apply wf_mk_matrix.
Qed.

Lemma mget_dot (m n q : nat) (A B : matrix) (i j : nat) :
  wf_matrix m n A -> wf_matrix n q B -> (i < m)%nat -> (j < q)%nat -> (0 < n)%nat ->
  mget (dot A B) i j = sum_n n (fun p => mget A i p * mget B p j).
Proof.
  intros HA HB Hi Hj Hn. unfold dot.
  rewrite (rows_wf m n A HA), (cols_wf n q B HB Hn), (cols_wf m n A HA) by lia.
  rewrite mget_mk_matrix by assumption. reflexivity.
Qed.

Lemma wf_eye (k : nat) : wf_matrix k k (eye k).
Proof. apply wf_mk_matrix. Qed.

Lemma mget_eye (k i j : nat) :
  (i < k)%nat -> (j < k)%nat -> mget (eye k) i j = if Nat.eqb i j then 1 else 0.
Proof. intros. unfold eye. rewrite mget_mk_matrix by assumption. reflexivity. Qed.

Lemma length_diag_of (k : nat) (A : matrix) :
  wf_matrix k k A -> (0 < k)%nat -> length (diag_of A) = k.
Proof.
  intros HA Hk. unfold diag_of.
  rewrite (rows_wf k k A HA), (cols_wf k k A HA Hk), length_mk_vector. lia.
Qed.

Lemma vget_diag_of (k : nat) (A : matrix) (i : nat) :
  wf_matrix k k A -> (i < k)%nat -> vget (diag_of A) i = mget A i i.
Proof.
  intros HA Hi. unfold diag_of.
  rewrite (rows_wf k k A HA), (cols_wf k k A HA) by lia.
  rewrite vget_mk_vector by lia. reflexivity.
Qed.

Lemma wf_diag_matrix (v : vector) : wf_matrix (length v) (length v) (diag_matrix v).
Proof. apply wf_mk_matrix. Qed.

Lemma mget_diag_matrix (v : vector) (i j : nat) :
  (i < length v)%nat -> (j < length v)%nat ->
  mget (diag_matrix v) i j = if Nat.eqb i j then vget v i else 0.
Proof. intros. unfold diag_matrix. rewrite mget_mk_matrix by assumption. reflexivity. Qed.

Lemma wf_triu (m n : nat) (A : matrix) :
  wf_matrix m n A -> (0 < m)%nat -> wf_matrix m n (triu A).
Proof.
  intros HA Hm. unfold triu.
  rewrite (rows_wf m n A HA), (cols_wf m n A HA Hm). apply wf_mk_matrix.
Qed.

Lemma mget_triu (m n : nat) (A : matrix) (i j : nat) :
  wf_matrix m n A -> (i < m)%nat -> (j < n)%nat ->
  mget (triu A) i j = if Nat.leb i j then mget A i j else 0.
Proof.
  intros HA Hi Hj. unfold triu.
  rewrite (rows_wf m n A HA), (cols_wf m n A HA) by lia.
  rewrite mget_mk_matrix by assumption. reflexivity.
Qed.


(** ** Moving averages and covariances *)

Lemma mget_moving_average (m n : nat) (A B : matrix) (beta : R) (i j : nat) :
  wf_matrix m n A -> wf_matrix m n B -> (i < m)%nat -> (j < n)%nat ->
  mget (Helper.moving_average A B beta) i j
  = (1 - beta) * mget A i j + beta * mget B i j.
Proof.
  intros HA HB Hi Hj. unfold Helper.moving_average.
  rewrite (mget_madd m n) by (try apply wf_mscale; assumption).
  rewrite !mget_mscale. reflexivity.
Qed.

Lemma wf_moving_average (m n : nat) (A B : matrix) (beta : R) :
  wf_matrix m n A -> wf_matrix m n B ->
  wf_matrix m n (Helper.moving_average A B beta).
Proof. intros. apply wf_madd; apply wf_mscale; assumption. Qed.

(** With decay 0 the average is unchanged, with decay 1 it is replaced. *)
Lemma moving_average_0 (m n : nat) (A B : matrix) :
  wf_matrix m n A -> wf_matrix m n B -> Helper.moving_average A B 0 = A.
Proof.
  intros HA HB. apply (matrix_ext m n); [apply wf_moving_average; assumption|assumption|].
  intros i j Hi Hj. rewrite (mget_moving_average m n) by assumption. ring.
Qed.

Lemma moving_average_1 (m n : nat) (A B : matrix) :
  wf_matrix m n A -> wf_matrix m n B -> Helper.moving_average A B 1 = B.
Proof.
  intros HA HB. apply (matrix_ext m n); [apply wf_moving_average; assumption|assumption|].
  intros i j Hi Hj. rewrite (mget_moving_average m n) by assumption. ring.
Qed.

Lemma wf_tscale (m n q : nat) (c : R) (T : tensor3) :
  wf_tensor3 m n q T -> wf_tensor3 m n q (tscale c T).
Proof.
  intros [Hl HT]. split; [unfold tscale; rewrite length_map; exact Hl|].
  unfold tscale. apply Forall_map. eapply Forall_impl; [|exact HT].
  intros A HA. apply wf_mscale. exact HA.
Qed.

Lemma tget_tscale (c : R) (T : tensor3) (i j p : nat) :
  tget (tscale c T) i j p = c * tget T i j p.
Proof.
  assert (E : nth i (tscale c T) [] = mscale c (nth i T []))
    by (apply (nth_map_default (mscale c) T i [] []); reflexivity).
  unfold tget. rewrite E. apply mget_mscale.
Qed.

Lemma wf_tensor3_nth (m n q : nat) (T : tensor3) (i : nat) :
  wf_tensor3 m n q T -> (i < m)%nat -> wf_matrix n q (nth i T []).
Proof.
  intros [Hl HT] Hi. rewrite Forall_forall in HT. apply HT, nth_In. lia.
Qed.

Lemma wf_tadd (m n q : nat) (T U : tensor3) :
  wf_tensor3 m n q T -> wf_tensor3 m n q U -> wf_tensor3 m n q (tadd T U).
Proof.
  intros HT HU. pose proof HT as [HlT _]. pose proof HU as [HlU _].
  split; [unfold tadd; rewrite length_map2; lia|].
  apply Forall_forall. intros A HA.
  apply (In_nth _ _ []) in HA. destruct HA as [i [Hi <-]].
  unfold tadd in *. rewrite length_map2 in Hi.
  rewrite (nth_map2 madd T U i [] []) by lia.
  apply wf_madd; eapply wf_tensor3_nth; try eassumption; lia.
Qed.

Lemma tget_tadd (m n q : nat) (T U : tensor3) (i j p : nat) :
  wf_tensor3 m n q T -> wf_tensor3 m n q U ->
  (i < m)%nat -> (j < n)%nat -> (p < q)%nat ->
  tget (tadd T U) i j p = tget T i j p + tget U i j p.
Proof.
  intros HT HU Hi Hj Hp. pose proof HT as [HlT _]. pose proof HU as [HlU _].
  unfold tget, tadd. rewrite (nth_map2 madd T U i [] []) by lia.
  apply (mget_madd n q); try assumption; eapply wf_tensor3_nth; eassumption.
Qed.



(** The batch covariance of stfn_training.py: (1/N) U1^T U2. *)
Lemma wf_outer_batch (N k1 k2 : nat) (u1 u2 : matrix) :
  wf_matrix N k1 u1 -> wf_matrix N k2 u2 -> (0 < N)%nat ->
  wf_tensor3 N k1 k2 (StfnTraining.outer_batch u1 u2).
Proof.
  intros H1 H2 HN. unfold StfnTraining.outer_batch.
  rewrite (rows_wf N k1 u1 H1), (cols_wf N k1 u1 H1 HN), (cols_wf N k2 u2 H2 HN).
  apply wf_mk_tensor3.
Qed.

Lemma wf_covariance (N k1 k2 : nat) (u1 u2 : matrix) :
  wf_matrix N k1 u1 -> wf_matrix N k2 u2 -> (0 < N)%nat -> (0 < k1)%nat ->
  wf_matrix k1 k2 (StfnTraining.covariance u1 u2).
Proof.
  intros H1 H2 HN Hk. unfold StfnTraining.covariance, StfnTraining.mean_axis0.
  destruct (dims_wf N k1 k2 _ (wf_outer_batch N k1 k2 u1 u2 H1 H2 HN) HN Hk)
    as [_ [-> ->]].
  apply wf_mk_matrix.
Qed.

Lemma mget_covariance (N k1 k2 : nat) (u1 u2 : matrix) (i j : nat) :
  wf_matrix N k1 u1 -> wf_matrix N k2 u2 -> (0 < N)%nat ->
  (i < k1)%nat -> (j < k2)%nat ->
  mget (StfnTraining.covariance u1 u2) i j
  = sum_n N (fun b => mget u1 b i * mget u2 b j) / INR N.
Proof.
  intros H1 H2 HN Hi Hj. unfold StfnTraining.covariance, StfnTraining.mean_axis0.
  destruct (dims_wf N k1 k2 _ (wf_outer_batch N k1 k2 u1 u2 H1 H2 HN) HN)
    as [-> [-> ->]]; [lia|].
  rewrite mget_mk_matrix by assumption. f_equal.
  apply sum_n_ext. intros b Hb. unfold StfnTraining.outer_batch.
  rewrite (rows_wf N k1 u1 H1), (cols_wf N k1 u1 H1 HN), (cols_wf N k2 u2 H2 HN).
  rewrite tget_mk_tensor3 by assumption. simpl. ring.
Qed.

(** The batch covariance of jax_spin.py, [np.dot(u.T, u)/n], is the same
    matrix. *)
Lemma mget_dot_transpose_div (N k1 k2 : nat) (u1 u2 : matrix) (i j : nat) :
  wf_matrix N k1 u1 -> wf_matrix N k2 u2 -> (0 < N)%nat ->
  (i < k1)%nat -> (j < k2)%nat ->
  mget (mdiv (dot (transpose u1) u2) (INR N)) i j
  = sum_n N (fun b => mget u1 b i * mget u2 b j) / INR N.
Proof.
  intros H1 H2 HN Hi Hj. rewrite mget_mdiv. f_equal.
  rewrite (mget_dot k1 N k2) by (try assumption; apply wf_transpose; assumption).
  apply sum_n_ext. intros b Hb.
  rewrite (mget_transpose N k1) by assumption. reflexivity.
Qed.

Lemma wf_dot_transpose_div (N k1 k2 : nat) (u1 u2 : matrix) (c : R) :
  wf_matrix N k1 u1 -> wf_matrix N k2 u2 -> (0 < N)%nat ->
  wf_matrix k1 k2 (mdiv (dot (transpose u1) u2) c).
Proof.
  intros H1 H2 HN. apply wf_mdiv. apply (wf_dot k1 N k2); try assumption.
  apply wf_transpose; assumption.
Qed.

(** The blend of jax_spin.py, for a seed of either rank. *)
Lemma wf_blend_sigma (k : nat) (beta : R) (seed : JaxSpin.ndarray) (sigma : matrix) :
  JaxSpin.broadcastable k seed -> wf_matrix k k sigma ->
  wf_matrix k k (JaxSpin.blend_sigma beta seed sigma).
Proof.
  intros Hs Hsig. destruct seed as [v|A]; simpl in *.
  - destruct (wf_mscale k k beta sigma Hsig) as [Hl HF].
    split; [rewrite length_map; exact Hl|].
    apply Forall_map. eapply Forall_impl; [|exact HF].
    intros r Hr. apply length_vadd; [|exact Hr].
    unfold wf_vector. rewrite length_vscale. exact Hs.
  - apply wf_madd; apply wf_mscale; assumption.
Qed.

Lemma mget_blend_sigma (k : nat) (beta : R) (seed : JaxSpin.ndarray)
      (sigma : matrix) (i j : nat) :
  JaxSpin.broadcastable k seed -> wf_matrix k k sigma ->
  (i < k)%nat -> (j < k)%nat ->
  mget (JaxSpin.blend_sigma beta seed sigma) i j
  = (1 - beta) * JaxSpin.broadcast_entry seed i j + beta * mget sigma i j.
Proof.
  intros Hs Hsig Hi Hj. destruct seed as [v|A]; simpl in *.
  - pose proof (wf_mscale k k beta sigma Hsig) as Hw.
    unfold mget at 1.
    rewrite (nth_map_default (fun row => vadd (vscale (1 - beta) v) row)
               (mscale beta sigma) i [] []).
    2:{ apply map2_nil_r. }
    change (vget (vadd (vscale (1 - beta) v) (nth i (mscale beta sigma) [])) j
            = (1 - beta) * vget v j + beta * mget sigma i j).
    rewrite vget_vadd.
    + rewrite vget_vscale.
      change (vget (nth i (mscale beta sigma) []) j)
        with (mget (mscale beta sigma) i j).
      rewrite mget_mscale. reflexivity.
    + rewrite length_vscale. lia.
    + rewrite (wf_matrix_nth k k _ i Hw Hi). exact Hj.
  - rewrite (mget_madd k k) by (try apply wf_mscale; assumption).
    rewrite !mget_mscale. reflexivity.
Qed.

(** Decay 1 discards the seed, whatever its value and rank. *)
Lemma blend_sigma_1 (k : nat) (seed : JaxSpin.ndarray) (sigma : matrix) :
  JaxSpin.broadcastable k seed -> wf_matrix k k sigma ->
  JaxSpin.blend_sigma 1 seed sigma = sigma.
Proof.
  intros Hs Hsig.
  apply (matrix_ext k k); [apply wf_blend_sigma; assumption|assumption|].
  intros i j Hi Hj. rewrite (mget_blend_sigma k) by assumption. ring.
Qed.

(** ** Evaluation on explicit arrays *)

Ltac arr_compute :=
  cbv - [Rplus Rmult Rminus Rdiv Ropp Rinv IZR INR sqrt Rlt_dec Rle_dec exp ln].

Ltac arr_compute_in H :=
  cbv - [Rplus Rmult Rminus Rdiv Ropp Rinv IZR INR sqrt Rlt_dec Rle_dec exp ln] in H.

(** Evaluation of the array argument of a shape or definiteness goal. *)
Ltac arr_eval t :=
  let v := eval cbv - [Rplus Rmult Rminus Rdiv Ropp Rinv IZR INR sqrt Rlt_dec Rle_dec exp ln] in t in
  change t with v.

Ltac arr_arg :=
  match goal with
  | |- Linalg.positive_definite _ ?A => arr_eval A
  | |- wf_matrix _ _ ?A => arr_eval A
  | |- wf_tensor3 _ _ _ ?A => arr_eval A
  | |- context [Linalg.cholesky ?A] => arr_eval A
  end.

Lemma wf_1x1 (a : R) : wf_matrix 1 1 [[a]].
Proof. split; [reflexivity|]. repeat constructor. Qed.

Lemma wf_1x1x1 (a : R) : wf_tensor3 1 1 1 [[[a]]].
Proof. split; [reflexivity|]. repeat constructor. Qed.

Lemma pd_1x1 (a : R) : 0 < a -> Linalg.positive_definite 1 [[a]].
Proof.
  intros Ha. split.
  - intros i j Hi Hj. replace i with O by lia. replace j with O by lia. reflexivity.
  - intros x [i [Hi Hx]]. replace i with O in Hx by lia.
    arr_compute.
    assert (Hsq : 0 < x O * x O) by nra.
    replace (0 + (0 + x O * a * x O)) with (a * (x O * x O)) by ring.
    apply Rmult_lt_0_compat; assumption.
Qed.

Lemma cholesky_1x1 (a : R) : 0 < a -> Linalg.cholesky [[a]] = Some [[sqrt a]].
Proof.
  intros Ha. unfold Linalg.cholesky. simpl rows. unfold Linalg.chol_fn.
  change (mget [[a]] 0 0) with a.
  destruct (Rlt_dec 0 a) as [_|Hn]; [|contradiction]. reflexivity.
Qed.


Lemma wf_2x2 (a b c d : R) : wf_matrix 2 2 [[a; b]; [c; d]].
Proof. split; [reflexivity|]. repeat constructor. Qed.

(** A 2 by 2 example: 4 a^2 + 4 a b + 5 b^2 = (2 a + b)^2 + 4 b^2. *)
Lemma pd_2x2_example : Linalg.positive_definite 2 [[4; 2]; [2; 5]].
Proof.
  split.
  - intros i j Hi Hj.
    destruct i as [|[|i]]; destruct j as [|[|j]]; try lia; reflexivity.
  - intros x [i [Hi Hx]].
    unfold Linalg.quad_form. cbn [sum_n]. unfold mget. cbn [nth].
    set (a := x O) in *. set (b := x 1%nat) in *.
    replace (0 + (0 + a * 4 * a + a * 2 * b) + (0 + b * 2 * a + b * 5 * b))
      with ((2 * a + b) * (2 * a + b) + 4 * (b * b)) by ring.
    destruct (Req_dec b 0) as [Hb|Hb].
    + assert (Ha : a <> 0).
      { destruct i as [|[|i]]; [exact Hx| |lia]. exfalso. apply Hx. exact Hb. }
      rewrite Hb. replace ((2 * a + 0) * (2 * a + 0) + 4 * (0 * 0))
        with (4 * (a * a)) by ring.
      assert (0 < a * a) by (apply Rsqr_pos_lt; exact Ha). lra.
    + assert (0 < b * b) by (apply Rsqr_pos_lt; exact Hb).
      assert (0 <= (2 * a + b) * (2 * a + b)) by apply Rle_0_sqr. lra.
Qed.

(** ** Matrix algebra *)



Lemma transpose_mneg (m n : nat) (A : matrix) :
  wf_matrix m n A -> (0 < m)%nat -> transpose (mneg A) = mneg (transpose A).
Proof.
  intros HA Hm. apply (matrix_ext n m).
  - apply wf_transpose; [apply wf_mneg|]; assumption.
  - apply wf_mneg, wf_transpose; assumption.
  - intros i j Hi Hj. rewrite mget_mneg.
    rewrite !(mget_transpose m n) by (try apply wf_mneg; assumption).
    apply mget_mneg.
Qed.

(** Shapes and entries of the closed forms. *)
Lemma wf_diag_part (k : nat) (L_inv : matrix) :
  wf_matrix k k L_inv -> (0 < k)%nat -> wf_matrix k k (Spec.diag_part L_inv).
Proof.
  intros HL Hk. unfold Spec.diag_part.
  pose proof (wf_diag_matrix (diag_of L_inv)) as H.
  rewrite (length_diag_of k L_inv HL Hk) in H. exact H.
Qed.

Lemma mget_diag_part (k : nat) (L_inv : matrix) (i j : nat) :
  wf_matrix k k L_inv -> (i < k)%nat -> (j < k)%nat ->
  mget (Spec.diag_part L_inv) i j = if Nat.eqb i j then mget L_inv i i else 0.
Proof.
  intros HL Hi Hj. unfold Spec.diag_part.
  rewrite mget_diag_matrix by (rewrite (length_diag_of k L_inv HL); lia).
  rewrite (vget_diag_of k) by assumption. reflexivity.
Qed.




(** The Pi-term has the entries L^-1[j][i] L^-1[j][j]. *)
Lemma mget_pi_term (k : nat) (L_inv : matrix) (i j : nat) :
  wf_matrix k k L_inv -> (i < k)%nat -> (j < k)%nat ->
  mget (Spec.pi_term L_inv) i j = mget L_inv j i * mget L_inv j j.
Proof.
  intros HL Hi Hj. assert (Hk : (0 < k)%nat) by lia.
  unfold Spec.pi_term.
  rewrite (mget_dot k k k);
    [|apply wf_transpose; assumption|apply wf_diag_part; assumption|assumption..].
  rewrite (sum_n_ext k _
    (fun a => if Nat.eqb a j then mget L_inv a i * mget L_inv a a else 0)).
  2:{ intros a Ha. rewrite (mget_transpose k k) by assumption.
      rewrite (mget_diag_part k) by assumption.
      destruct (Nat.eqb a j); ring. }
  apply (sum_n_delta k j (fun a => mget L_inv a i * mget L_inv a a)). exact Hj.
Qed.


(** The Sigma-term has the entries
    - sum over a <= j of L^-1[a][i] Lambda[a][j] L^-1[j][j]. *)
Lemma mget_sigma_term (k : nat) (L_inv Lambda : matrix) (i j : nat) :
  wf_matrix k k L_inv -> wf_matrix k k Lambda -> (i < k)%nat -> (j < k)%nat ->
  mget (Spec.sigma_term L_inv Lambda) i j
  = - sum_n k (fun a => if Nat.leb a j
                        then mget L_inv a i * (mget Lambda a j * mget L_inv j j)
                        else 0).
Proof.
  intros HL HA Hi Hj. assert (Hk : (0 < k)%nat) by lia.
  assert (HD : wf_matrix k k (Spec.diag_part L_inv)) by (apply wf_diag_part; assumption).
  assert (HAD : wf_matrix k k (dot Lambda (Spec.diag_part L_inv)))
    by (apply (wf_dot k k k); assumption).
  unfold Spec.sigma_term. rewrite mget_mscale.
  rewrite (mget_dot k k k);
    [|apply wf_transpose; assumption|apply wf_triu; assumption|assumption..].
  replace (-1 * sum_n k (fun p => mget (transpose L_inv) i p
             * mget (triu (dot Lambda (Spec.diag_part L_inv))) p j))
    with (- sum_n k (fun p => mget (transpose L_inv) i p
             * mget (triu (dot Lambda (Spec.diag_part L_inv))) p j)) by ring.
  f_equal. apply sum_n_ext. intros a Ha.
  rewrite (mget_transpose k k) by assumption.
  rewrite (mget_triu k k) by assumption.
  destruct (Nat.leb a j); [|ring]. f_equal.
  rewrite (mget_dot k k k) by assumption.
  rewrite (sum_n_ext k _
    (fun b => if Nat.eqb b j then mget Lambda a b * mget L_inv b b else 0)).
  2:{ intros b Hb. rewrite (mget_diag_part k) by assumption.
      destruct (Nat.eqb b j); ring. }
  apply (sum_n_delta k j (fun b => mget Lambda a b * mget L_inv b b)). exact Hj.
Qed.

(** ** Contractions *)

Lemma wf_tensordot_1 (m n q r : nat) (A : matrix) (T : tensor3) :
  wf_matrix m n A -> wf_tensor3 n q r T -> (0 < n)%nat -> (0 < q)%nat ->
  wf_tensor3 m q r (tensordot_1 A T).
Proof.
  intros HA HT Hn Hq. unfold tensordot_1.
  destruct (dims_wf n q r T HT Hn Hq) as [_ [-> ->]].
  rewrite (rows_wf m n A HA). apply wf_mk_tensor3.
Qed.

Lemma tget_tensordot_1 (m n q r : nat) (A : matrix) (T : tensor3) (i j p : nat) :
  wf_matrix m n A -> wf_tensor3 n q r T ->
  (i < m)%nat -> (j < q)%nat -> (p < r)%nat -> (0 < n)%nat ->
  tget (tensordot_1 A T) i j p = sum_n n (fun b => mget A i b * tget T b j p).
Proof.
  intros HA HT Hi Hj Hp Hn. unfold tensordot_1.
  destruct (dims_wf n q r T HT Hn) as [_ [-> ->]]; [lia|].
  rewrite (rows_wf m n A HA), (cols_wf m n A HA) by lia.
  rewrite tget_mk_tensor3 by assumption. reflexivity.
Qed.








(** ** Cholesky factorisation: existence and correctness *)

Module LinalgFacts.
Import Linalg.

Lemma quad_form_S (k : nat) (A : nat -> nat -> R) (x : nat -> R) :
  quad_form (S k) A x =
    x O * A O O * x O
    + x O * sum_n k (fun j => A O (S j) * x (S j))
    + sum_n k (fun i => x (S i) * A (S i) O) * x O
    + quad_form k (fun i j => A (S i) (S j)) (fun i => x (S i)).
Proof.
  unfold quad_form. rewrite sum_n_head.
  rewrite (sum_n_ext k _
    (fun i => x (S i) * A (S i) O * x O
              + sum_n k (fun j => x (S i) * A (S i) (S j) * x (S j))))
    by (intros i _; apply sum_n_head).
  rewrite sum_n_plus, sum_n_head, sum_n_scal_r.
  rewrite (sum_n_ext k (fun i => x O * A O (S i) * x (S i))
             (fun i => x O * (A O (S i) * x (S i))))
    by (intros; ring).
  rewrite sum_n_scal_l. ring.
Qed.

Lemma pd_fn_pivot (k : nat) (A : nat -> nat -> R) :
  pd_fn (S k) A -> 0 < A O O.
Proof.
  intros [_ Hpos].
  specialize (Hpos (fun i => if Nat.eqb i O then 1 else 0)).
  rewrite quad_form_S in Hpos. simpl in Hpos.
  unfold quad_form in Hpos.
  rewrite !sum_n_zero in Hpos; try (intros; ring).
  - assert (H : 0 < 1 * A O O * 1 + 1 * 0 + 0 * 1 + 0).
    { apply Hpos. exists O. split; [lia|]. simpl. lra. }
    lra.
  - intros i _. apply sum_n_zero. intros; ring.
Qed.

(** The Schur complement of a positive-definite matrix is positive-definite. *)
Lemma pd_fn_schur (k : nat) (A : nat -> nat -> R) :
  pd_fn (S k) A ->
  pd_fn k (fun i j => A (S i) (S j)
                      - A (S i) O / sqrt (A O O) * (A (S j) O / sqrt (A O O))).
Proof.
  intros Hpd. pose proof (pd_fn_pivot k A Hpd) as Ha.
  destruct Hpd as [Hsym Hpos].
  assert (Hl : sqrt (A O O) * sqrt (A O O) = A O O) by (apply sqrt_sqrt; lra).
  assert (Hl0 : sqrt (A O O) <> 0).
  { intros E. rewrite E in Hl. lra. }
  split.
  - intros i j Hi Hj. rewrite (Hsym (S i) (S j)) by lia. ring.
  - intros y [i0 [Hi0 Hy]].
    set (b := sum_n k (fun j => A O (S j) * y j)).
    set (x := fun i => match i with O => - b / A O O | S i' => y i' end).
    assert (Hx : 0 < quad_form (S k) A x).
    { apply Hpos. exists (S i0). split; [lia|]. exact Hy. }
    rewrite quad_form_S in Hx. simpl in Hx. fold b in Hx.
    assert (Hb' : sum_n k (fun i => y i * A (S i) O) = b).
    { unfold b. apply sum_n_ext. intros i Hi.
      rewrite (Hsym (S i) O) by lia. ring. }
    rewrite Hb' in Hx.
    assert (Hq : quad_form k
                   (fun i j => A (S i) (S j)
                      - A (S i) O / sqrt (A O O) * (A (S j) O / sqrt (A O O))) y
                 = quad_form k (fun i j => A (S i) (S j)) y - b * b / A O O).
    { unfold quad_form.
      rewrite (sum_n_ext k _
        (fun i => sum_n k (fun j => y i * A (S i) (S j) * y j)
                  - sum_n k (fun j => (y i * A (S i) O) * (y j * A (S j) O) / A O O))).
      2:{ intros i _. rewrite <- sum_n_minus. apply sum_n_ext. intros j _.
          rewrite <- Hl at 3. field. assumption. }
      rewrite sum_n_minus. f_equal.
      rewrite (sum_n_ext k _
        (fun i => sum_n k (fun j => (y i * A (S i) O) * (y j * A (S j) O)) / A O O))
        by (intros i _; apply sum_n_div).
      rewrite sum_n_div, <- sum_n_mult, Hb'. reflexivity. }
    rewrite Hq.
    replace (- b / A O O * A O O * (- b / A O O) + - b / A O O * b
             + b * (- b / A O O)
             + quad_form k (fun i j => A (S i) (S j)) (fun i => y i))
      with (quad_form k (fun i j => A (S i) (S j)) y - b * b / A O O) in Hx.
    + exact Hx.
    + change (fun i => y i) with y. field. lra.
Qed.

(** Existence and correctness of the factor, at index level. *)
Lemma chol_fn_correct (k : nat) :
  forall A, pd_fn k A ->
  exists L, chol_fn k A = Some L
    /\ (forall i j, (i < j)%nat -> (j < k)%nat -> L i j = 0)
    /\ (forall i, (i < k)%nat -> 0 < L i i)
    /\ (forall i j, (i < k)%nat -> (j < k)%nat ->
          sum_n k (fun p => L i p * L j p) = A i j).
Proof.
  induction k as [|k IH]; intros A Hpd.
  - exists (fun _ _ => 0). repeat split; intros; lia.
  - pose proof (pd_fn_pivot k A Hpd) as Ha.
    pose proof (pd_fn_schur k A Hpd) as Hs.
    destruct (IH _ Hs) as [L' [HL' [Hlow [Hdiag Hprod]]]].
    destruct Hpd as [Hsym _].
    assert (Hl : sqrt (A O O) * sqrt (A O O) = A O O) by (apply sqrt_sqrt; lra).
    assert (Hl0 : 0 < sqrt (A O O)) by (apply sqrt_lt_R0; assumption).
    exists (fun i j =>
              match i, j with
              | O, O => sqrt (A O O)
              | O, S _ => 0
              | S i', O => A (S i') O / sqrt (A O O)
              | S i', S j' => L' i' j'
              end).
    split.
    { simpl. destruct (Rlt_dec 0 (A O O)) as [_|Hn]; [|contradiction].
      rewrite HL'. reflexivity. }
    split; [|split].
    + intros i j Hij Hj. destruct i as [|i], j as [|j]; try lia; try reflexivity.
      apply Hlow; lia.
    + intros i Hi. destruct i as [|i]; [assumption|]. apply Hdiag. lia.
    + intros i j Hi Hj. rewrite sum_n_head.
      destruct i as [|i], j as [|j].
      * rewrite sum_n_zero by (intros; ring). lra.
      * rewrite sum_n_zero by (intros; ring).
        rewrite (Hsym O (S j)) by lia. field. lra.
      * rewrite sum_n_zero by (intros; ring). field. lra.
      * rewrite Hprod by lia. ring.
Qed.

(** ** Triangular inverse *)

Lemma inv_fn_correct (k : nat) :
  forall L,
    (forall i j, (i < j)%nat -> (j < k)%nat -> L i j = 0) ->
    (forall i, (i < k)%nat -> L i i <> 0) ->
    (forall i j, (i < k)%nat -> (j < k)%nat ->
       sum_n k (fun p => L i p * inv_fn k L p j) = delta i j)
    /\ (forall i j, (i < k)%nat -> (j < k)%nat ->
       sum_n k (fun p => inv_fn k L i p * L p j) = delta i j)
    /\ (forall i j, (i < j)%nat -> (j < k)%nat -> inv_fn k L i j = 0)
    /\ (forall i, (i < k)%nat -> inv_fn k L i i = 1 / L i i).
Proof.
  induction k as [|k IH]; intros L Hlow Hdiag.
  - repeat split; intros; lia.
  - set (L' := fun i j => L (S i) (S j)).
    assert (Hlow' : forall i j, (i < j)%nat -> (j < k)%nat -> L' i j = 0)
      by (intros; apply Hlow; lia).
    assert (Hdiag' : forall i, (i < k)%nat -> L' i i <> 0)
      by (intros; apply Hdiag; lia).
    destruct (IH L' Hlow' Hdiag') as [Hr [Hl [Hlo Hd]]].
    assert (Hl0 : L O O <> 0) by (apply Hdiag; lia).
    assert (Hrow0 : forall p, (p < k)%nat -> L O (S p) = 0)
      by (intros; apply Hlow; lia).
    change (inv_fn (S k) L) with
      (fun i j =>
         match i, j with
         | O, O => 1 / L O O
         | O, S _ => 0
         | S i', O => - (sum_n k (fun p => inv_fn k L' i' p * L (S p) O)) / L O O
         | S i', S j' => inv_fn k L' i' j'
         end).
    split; [|split; [|split]].
    + intros i j Hi Hj. rewrite sum_n_head.
      destruct i as [|i], j as [|j]; unfold delta; simpl Nat.eqb.
      * rewrite sum_n_zero by (intros p Hp; rewrite Hrow0 by lia; ring).
        field. assumption.
      * rewrite sum_n_zero by (intros p Hp; rewrite Hrow0 by lia; ring). ring.
      * assert (E : sum_n k (fun p => L' i p
                       * sum_n k (fun q => inv_fn k L' p q * L (S q) O))
                    = L (S i) O).
        { rewrite (sum_n_ext k _
            (fun p => sum_n k (fun q => L' i p * inv_fn k L' p q * L (S q) O))).
          2:{ intros p _. rewrite <- sum_n_scal_l.
              apply sum_n_ext. intros q _. ring. }
          rewrite sum_n_swap.
          rewrite (sum_n_ext k _ (fun q => if Nat.eqb q i then L (S q) O else 0)).
          2:{ intros q Hq. rewrite sum_n_scal_r, Hr by lia. unfold delta.
              rewrite Nat.eqb_sym. destruct (Nat.eqb q i); ring. }
          apply (sum_n_delta k i (fun q => L (S q) O)). lia. }
        rewrite (sum_n_ext k _
          (fun p => (L' i p * sum_n k (fun q => inv_fn k L' p q * L (S q) O))
                    * (- / L O O))).
        2:{ intros p _. unfold L'. field. assumption. }
        rewrite sum_n_scal_r, E. field. assumption.
      * fold (L' i j). rewrite Rmult_0_r, Rplus_0_l.
        apply (Hr i j); lia.
    + intros i j Hi Hj. rewrite sum_n_head.
      destruct i as [|i], j as [|j]; unfold delta; simpl Nat.eqb.
      * rewrite sum_n_zero by (intros; ring). field. assumption.
      * rewrite sum_n_zero by (intros; ring). rewrite Hrow0 by lia. ring.
      * unfold Rdiv. rewrite Rmult_assoc, Rinv_l by assumption. ring.
      * rewrite Hrow0 by lia. rewrite Rmult_0_r, Rplus_0_l.
        apply (Hl i j); lia.
    + intros i j Hij Hj. destruct i as [|i], j as [|j]; try lia; try reflexivity.
      apply Hlo; lia.
    + intros i Hi. destruct i as [|i]; [reflexivity|].
      rewrite Hd by lia. reflexivity.
Qed.

(** ** The contract on arrays *)

Lemma wf_matrix_0 (n : nat) (A : matrix) : wf_matrix 0 n A -> A = [].
Proof. intros [Hl _]. destruct A; [reflexivity|discriminate]. Qed.

Lemma wf_inv (k : nat) (L : matrix) : wf_matrix k k L -> wf_matrix k k (inv L).
Proof. intros HL. unfold inv. rewrite (rows_wf k k L HL). apply wf_mk_matrix. Qed.

Lemma mget_inv (k : nat) (L : matrix) (i j : nat) :
  wf_matrix k k L -> (i < k)%nat -> (j < k)%nat ->
  mget (inv L) i j = inv_fn k (mget L) i j.
Proof.
  intros HL Hi Hj. unfold inv. rewrite (rows_wf k k L HL).
  rewrite mget_mk_matrix by assumption. reflexivity.
Qed.

(** The inverse of a lower-triangular matrix with non-zero diagonal. *)
Lemma inv_correct (k : nat) (L : matrix) :
  wf_matrix k k L -> lower_triangular k L ->
  (forall i, (i < k)%nat -> mget L i i <> 0) ->
  dot L (inv L) = eye k /\ dot (inv L) L = eye k
  /\ lower_triangular k (inv L)
  /\ (forall i, (i < k)%nat -> mget (inv L) i i = 1 / mget L i i).
Proof.
  intros HL Hlow Hdiag.
  destruct (Nat.eq_dec k 0) as [->|Hk].
  { rewrite (wf_matrix_0 _ _ HL). unfold lower_triangular.
    repeat split; try reflexivity; intros; lia. }
  pose proof (wf_inv k L HL) as HI.
  destruct (inv_fn_correct k (mget L) Hlow Hdiag) as [Hr [Hl [Hlo Hd]]].
  repeat split.
  - apply (matrix_ext k k); [apply (wf_dot k k k); (assumption || lia)|apply wf_eye|].
    intros i j Hi Hj. rewrite (mget_dot k k k), mget_eye by (assumption || lia).
    change (if Nat.eqb i j then 1 else 0) with (delta i j).
    rewrite <- (Hr i j Hi Hj). apply sum_n_ext. intros p Hp.
    rewrite (mget_inv k) by assumption. reflexivity.
  - apply (matrix_ext k k); [apply (wf_dot k k k); (assumption || lia)|apply wf_eye|].
    intros i j Hi Hj. rewrite (mget_dot k k k), mget_eye by (assumption || lia).
    change (if Nat.eqb i j then 1 else 0) with (delta i j).
    rewrite <- (Hl i j Hi Hj). apply sum_n_ext. intros p Hp.
    rewrite (mget_inv k) by assumption. reflexivity.
  - intros i j Hij Hj. rewrite (mget_inv k) by (assumption || lia).
    apply Hlo; assumption.
  - intros i Hi. rewrite (mget_inv k) by assumption. apply Hd. assumption.
Qed.

(** Every positive-definite matrix has its Cholesky factor, and the routine
    returns it. *)
Lemma cholesky_correct (k : nat) (Sigma : matrix) :
  wf_matrix k k Sigma -> positive_definite k Sigma ->
  exists L, cholesky Sigma = Some L
    /\ wf_matrix k k L
    /\ lower_triangular k L
    /\ positive_diagonal k L
    /\ dot L (transpose L) = Sigma.
Proof.
  intros HS Hpd.
  destruct (chol_fn_correct k (mget Sigma) Hpd) as [Lf [HLf [Hlow [Hdiag Hprod]]]].
  exists (mk_matrix k k Lf).
  assert (HL : wf_matrix k k (mk_matrix k k Lf)) by apply wf_mk_matrix.
  split; [|split; [exact HL|split; [|split]]].
  - unfold cholesky. rewrite (rows_wf k k Sigma HS), HLf. reflexivity.
  - intros i j Hij Hj. rewrite mget_mk_matrix by lia. apply Hlow; assumption.
  - intros i Hi. rewrite mget_mk_matrix by lia. apply Hdiag; assumption.
  - destruct (Nat.eq_dec k 0) as [->|Hk].
    { rewrite (wf_matrix_0 _ _ HS). reflexivity. }
    assert (HT : wf_matrix k k (transpose (mk_matrix k k Lf)))
      by (apply wf_transpose; [assumption|lia]).
    apply (matrix_ext k k); [|assumption|].
    + apply (wf_dot k k k); [assumption|assumption|lia].
    + intros i j Hi Hj.
      rewrite (mget_dot k k k) by (assumption || lia).
      rewrite <- (Hprod i j Hi Hj). apply sum_n_ext. intros p Hp.
      rewrite (mget_transpose k k) by assumption.
      rewrite !mget_mk_matrix by assumption. reflexivity.
Qed.

End LinalgFacts.

(** ** The whitening transform (spec section 4.2) *)

(** C8. For every positive-definite averaged covariance the factorisation
    returns a lower-triangular L with positive diagonal and L L^T equal to the
    covariance; the matrix that the steps of jax_spin.py and stfn_training.py
    use as L^-1 is the inverse of that triangular factor, and L L^-1 is the
    identity. *)
Theorem whitening_contract (k : nat) (Sigma : matrix) :
  wf_matrix k k Sigma ->
  Linalg.positive_definite k Sigma ->
  exists L,
    Linalg.cholesky Sigma = Some L
    /\ wf_matrix k k L
    /\ Linalg.lower_triangular k L
    /\ Linalg.positive_diagonal k L
    /\ dot L (transpose L) = Sigma
    /\ dot L (Linalg.inv L) = eye k
    /\ (forall (opt_state : Type) (self : JaxSpin.SpIN opt_state)
               params inputs avgs beta,
          let u := JaxSpin.net_u self params inputs in
          JaxSpin.blend_sigma beta (fst avgs)
            (mdiv (dot (transpose u) u) (INR (rows inputs))) = Sigma ->
          exists pi rq op,
            JaxSpin.evaluate_spin self params inputs avgs beta
            = Returns ((u, Linalg.inv L, pi, rq, op), Sigma))
    /\ (forall net weight_dict batch sigma_t_bar j_sigma_t_bar beta,
          let u := StfnTraining.model_apply net weight_dict batch in
          Helper.moving_average sigma_t_bar (StfnTraining.covariance u u) beta = Sigma ->
          exists gp,
            StfnTraining.train_step_gradients net weight_dict batch sigma_t_bar
                                              j_sigma_t_bar beta = Returns gp
            /\ StfnTraining.gp_sigma_t_bar gp = Sigma
            /\ StfnTraining.gp_L_inv gp = Linalg.inv L).
Proof.
  intros HS Hpd.
  destruct (LinalgFacts.cholesky_correct k Sigma HS Hpd)
    as [L [Hc [HL [Hlow [Hdiag Hprod]]]]].
  exists L. repeat (split; [assumption|]).
  split; [|split].
  - apply LinalgFacts.inv_correct; [assumption|assumption|].
    intros i Hi. specialize (Hdiag i Hi). lra.
  - intros opt_state self params inputs avgs beta u Hb.
    unfold JaxSpin.evaluate_spin. fold u. rewrite Hb, Hc. simpl.
    do 3 eexists. reflexivity.
  - intros net weight_dict batch sigma_t_bar j_sigma_t_bar beta u Hb.
    unfold StfnTraining.train_step_gradients. fold u. rewrite Hb, Hc. simpl.
    eexists. split; [reflexivity|]. split; reflexivity.
Qed.

Lemma whitening_contract_witness :
  (exists L,
     Linalg.cholesky [[4; 2]; [2; 5]] = Some L
     /\ Linalg.lower_triangular 2 L
     /\ dot L (transpose L) = [[4; 2]; [2; 5]]
     /\ dot L (Linalg.inv L) = eye 2)
  /\ exists L,
       Linalg.cholesky [[1]] = Some L
       /\ (exists pi rq op,
             JaxSpin.evaluate_spin (Examples.spin 1 1) [[0]] [[0]]
               (JaxSpin.Arr2 [[1]], []) (1 / 2)
             = Returns (([[1]], Linalg.inv L, pi, rq, op), [[1]]))
       /\ exists gp,
            StfnTraining.train_step_gradients (Examples.stfn_net 1) [[0]] [[0]] [[1]]
              [[[[0]]]] (1 / 2) = Returns gp
            /\ StfnTraining.gp_L_inv gp = Linalg.inv L.
Proof.
  split.
  - destruct (whitening_contract 2 [[4; 2]; [2; 5]] (wf_2x2 _ _ _ _) pd_2x2_example)
      as [L [Hc [_ [Hlow [_ [Hprod [Hinv _]]]]]]].
    exists L. repeat split; assumption.
  - destruct (whitening_contract 1 [[1]] (wf_1x1 1))
      as [L [Hc [_ [_ [_ [_ [_ [Hjax Hstfn]]]]]]]].
    + apply pd_1x1. lra.
    + exists L. split; [exact Hc|]. split.
      * apply (Hjax _ (Examples.spin 1 1) [[0]] [[0]] (JaxSpin.Arr2 [[1]], []) (1 / 2)).
        arr_compute. simpl INR. repeat f_equal. field.
      * destruct (Hstfn (Examples.stfn_net 1) [[0]] [[0]] [[1]] [[[[0]]]] (1 / 2))
          as [gp [Hgp [_ HL]]].
        -- arr_compute. simpl INR. repeat f_equal. field.
        -- exists gp. split; assumption.
Defined.

(** ** One step of the running averages *)

Module StepFacts.

(** jax_spin.py: a step returns as soon as the blended covariance is
    positive-definite, and hands back that blend and the blended Jacobian. *)
Lemma jax_spin_step_averages {opt_state : Type} (self : JaxSpin.SpIN opt_state)
      (i : nat) (st : opt_state) (inputs : matrix) (seed : JaxSpin.ndarray)
      (J : jac_pytree) (beta : R) (k : nat) :
  let params := JaxSpin.get_params self st in
  let u := JaxSpin.net_u self params inputs in
  let sigma := mdiv (dot (transpose u) u) (INR (rows inputs)) in
  let sigma_avg := JaxSpin.blend_sigma beta seed sigma in
  wf_matrix k k sigma_avg ->
  Linalg.positive_definite k sigma_avg ->
  exists loss st' outs,
    JaxSpin.evaluate_spin self params inputs (seed, J) beta = Returns (outs, sigma_avg)
    /\ JaxSpin.step self i st (inputs, (seed, J), beta)
       = Returns (loss, st',
                  (JaxSpin.Arr2 sigma_avg,
                   snd (JaxSpin.masked_gradients self params inputs outs (seed, J) beta))).
Proof.
  intros params u sigma sigma_avg Hwf Hpd.
  destruct (LinalgFacts.cholesky_correct k sigma_avg Hwf Hpd) as [L [Hc _]].
  unfold JaxSpin.step, JaxSpin.loss_and_grad.
  fold params.
  assert (E : JaxSpin.evaluate_spin self params inputs (seed, J) beta
              = Returns ((u, Linalg.inv L,
                          mdiv (dot (transpose (JaxSpin.operator self (JaxSpin.net_u self) params inputs)) u)
                               (INR (rows inputs)),
                          dot (Linalg.inv L)
                              (dot (mdiv (dot (transpose (JaxSpin.operator self (JaxSpin.net_u self) params inputs)) u)
                                         (INR (rows inputs)))
                                   (transpose (Linalg.inv L))),
                          JaxSpin.operator self (JaxSpin.net_u self) params inputs),
                         sigma_avg)).
  { unfold JaxSpin.evaluate_spin. simpl fst. fold u. fold sigma. fold sigma_avg.
    rewrite Hc. reflexivity. }
  rewrite E. cbn [bind].
  destruct (JaxSpin.masked_gradients self params inputs _ (seed, J) beta)
    as [g J'] eqn:Hg.
  do 3 eexists. split; [reflexivity|].
  cbn [bind]. rewrite Hg. reflexivity.
Qed.

(** stfn_training.py: a step returns as soon as the blended covariance is
    positive-definite, and hands back that blend and the blended Jacobian. *)
Lemma stfn_step_averages (net : StfnTraining.network) (weight_dict : pytree)
      (batch : matrix) (sigma_t_bar : matrix) (j_sigma_t_bar : jac_pytree)
      (beta : R) (k : nat) :
  let u := StfnTraining.model_apply net weight_dict batch in
  let sigma_new := Helper.moving_average sigma_t_bar (StfnTraining.covariance u u) beta in
  wf_matrix k k sigma_new ->
  Linalg.positive_definite k sigma_new ->
  exists gp,
    StfnTraining.train_step_gradients net weight_dict batch sigma_t_bar
                                      j_sigma_t_bar beta = Returns gp
    /\ StfnTraining.gp_sigma_t_bar gp = sigma_new
    /\ StfnTraining.gp_j_sigma_t_bar gp
       = map2 (fun x y => Helper.moving_average_t x y beta) j_sigma_t_bar
              (map (StfnTraining.jacrev_sigma u)
                   (StfnTraining.model_jac net weight_dict batch)).
Proof.
  intros u sigma_new Hwf Hpd.
  destruct (LinalgFacts.cholesky_correct k sigma_new Hwf Hpd) as [L [Hc _]].
  unfold StfnTraining.train_step_gradients. fold u. fold sigma_new.
  rewrite Hc. cbn [of_option bind].
  eexists. split; [reflexivity|]. split; reflexivity.
Qed.

Lemma stfn_epoch_averages {opt_state : Type}
      (self : StfnTraining.ModelTrainer opt_state) (batches : nat -> matrix)
      (epoch : nat) (r : StfnTraining.run_state opt_state) (k : nat) :
  let u := StfnTraining.model_apply (StfnTraining.net_of self)
             (StfnTraining.weight_dict r) (batches epoch) in
  let beta := StfnTraining.moving_average_beta self in
  let sigma_new :=
    Helper.moving_average (StfnTraining.sigma_t_bar r) (StfnTraining.covariance u u) beta in
  wf_matrix k k sigma_new ->
  Linalg.positive_definite k sigma_new ->
  exists r',
    StfnTraining.epoch_body self batches epoch r = Returns r'
    /\ StfnTraining.sigma_t_bar r' = sigma_new
    /\ StfnTraining.j_sigma_t_bar r'
       = map2 (fun x y => Helper.moving_average_t x y beta) (StfnTraining.j_sigma_t_bar r)
              (map (StfnTraining.jacrev_sigma u)
                   (StfnTraining.model_jac (StfnTraining.net_of self)
                      (StfnTraining.weight_dict r) (batches epoch))).
Proof.
  intros u beta sigma_new Hwf Hpd.
  destruct (stfn_step_averages (StfnTraining.net_of self) (StfnTraining.weight_dict r)
              (batches epoch) (StfnTraining.sigma_t_bar r)
              (StfnTraining.j_sigma_t_bar r) beta k Hwf Hpd)
    as [gp [Hgp [Hs Hj]]].
  unfold StfnTraining.epoch_body, StfnTraining.train_step.
  fold beta. rewrite Hgp. cbn [bind].
  destruct (StfnTraining.opt_update _ _ _) as [updates st'].
  cbn [bind]. eexists. split; [reflexivity|]. split; assumption.
Qed.

(** The first pass through the loop of [train] on the example object
    returns. *)
Lemma train_body_example :
  exists ls',
    JaxSpin.train_body (Examples.spin 2 1) (fun _ => [[0]])
      (JaxSpin.train_init (Examples.spin 2 1) (fun _ => [[0]]) Examples.spin_state)
    = Returns ls'.
Proof.
  assert (E : forall seed, JaxSpin.broadcastable 1 seed ->
            JaxSpin.blend_sigma 1 seed
                 (mdiv (dot (transpose [[2]]) [[2]]) (INR (rows [[0]]))) = [[4]]).
  { intros seed Hs. rewrite (blend_sigma_1 1).
    - arr_compute. simpl INR. repeat f_equal. field.
    - exact Hs.
    - arr_arg. apply wf_1x1. }
  unfold JaxSpin.train_body, JaxSpin.step, JaxSpin.loss_and_grad, JaxSpin.evaluate_spin.
  cbn [JaxSpin.train_init JaxSpin.obj JaxSpin.pos JaxSpin.avgs_of Examples.spin_state
       JaxSpin.itercount JaxSpin.st_opt_state JaxSpin.get_params Examples.spin
       JaxSpin.net_u JaxSpin.operator JaxSpin.neig fst snd JaxSpin.beta_at Nat.ltb Nat.leb repeat].
  rewrite E by reflexivity. rewrite cholesky_1x1 by lra.
  cbn [of_option bind JaxSpin.masked_gradients].
  unfold JaxSpin.eigenpairs, JaxSpin.evaluate_spin.
  cbn [Examples.spin JaxSpin.net_u JaxSpin.operator fst snd repeat].
  rewrite E by apply wf_1x1. rewrite cholesky_1x1 by lra.
  cbn [of_option bind]. eexists. reflexivity.
Qed.

End StepFacts.

(** ** Cold start (spec sections 4.1 and 4.4) *)

(** The claim as written fails on stfn_training.py: with decay 1/2, seed
    identity and batch covariance 4, the average after the first step is
    5/2, not the batch covariance. *)
Lemma stfn_first_step_keeps_seed :
  exists r',
    StfnTraining.epoch_body Examples.stfn_trainer (fun _ => [[0]]) 1
      (StfnTraining.start_state Examples.stfn_trainer) = Returns r'
    /\ StfnTraining.covariance [[2]] [[2]] = [[4]]
    /\ StfnTraining.sigma_t_bar r' = [[5 / 2]]
    /\ StfnTraining.sigma_t_bar r' <> StfnTraining.covariance [[2]] [[2]].
Proof.
  destruct (StepFacts.stfn_epoch_averages Examples.stfn_trainer (fun _ => [[0]]) 1
              (StfnTraining.start_state Examples.stfn_trainer) 1) as [r' [Hr [Hs _]]].
  - arr_arg. apply wf_1x1.
  - arr_arg. apply pd_1x1. simpl INR. lra.
  - exists r'. split; [exact Hr|]. rewrite Hs.
    split; [|split].
    + arr_compute. simpl INR. repeat f_equal. field.
    + arr_compute. simpl INR. repeat f_equal. field.
    + arr_compute. intros E. injection E as E. simpl INR in E. lra.
Qed.

(** ** train_spin.py: the module-level dictionary *)

Module TrainSpinFacts.
Import TrainSpin.

Ltac step_through Hg Hh Hk :=
  repeat first
    [ rewrite Hg | rewrite Hh | rewrite Hk | rewrite lookup_insert_eq
    | progress cbn [global_j_sigma_t_bar heap of_option fst snd] ].

(** The loop over the layers never rebinds the global name. *)
Lemma layer_body_global (fac : option (list (list R) * list (list R))) (beta : R)
      (key : string) (jac : tensor3) (s : pystate) :
  global_j_sigma_t_bar (snd (layer_body fac beta key jac s)) = global_j_sigma_t_bar s.
Proof.
  unfold layer_body, mbind, load_j_sigma_t_bar, getitem, setitem, lift, ret.
  destruct (global_j_sigma_t_bar s) as [l|] eqn:Hg; [|simpl; congruence].
  destruct (heap s !! l) as [d|] eqn:Hh; [|simpl; congruence].
  destruct (d !! key) as [old|] eqn:Hk; [|simpl; congruence].
  destruct fac as [[A_1 A_2]|]; [|simpl; congruence].
  step_through Hg Hh Hk. reflexivity.
Qed.

(** With the name unbound, the first pass through the loop raises. *)
Lemma layer_body_unbound (fac : option (list (list R) * list (list R))) (beta : R)
      (key : string) (jac : tensor3) (s : pystate) :
  global_j_sigma_t_bar s = None ->
  layer_body fac beta key jac s = (Raises (NameError "j_sigma_t_bar"), s).
Proof.
  intros Hg. unfold layer_body, mbind, load_j_sigma_t_bar. rewrite Hg. reflexivity.
Qed.

(** With the name bound, no pass through the loop raises [NameError]. *)
Lemma layer_body_bound (fac : option (list (list R) * list (list R))) (beta : R)
      (key : string) (jac : tensor3) (s : pystate) (l : loc) (name : string) :
  global_j_sigma_t_bar s = Some l ->
  fst (layer_body fac beta key jac s) <> Raises (NameError name).
Proof.
  intros Hg.
  unfold layer_body, mbind, load_j_sigma_t_bar, getitem, setitem, lift, ret.
  rewrite Hg.
  destruct (heap s !! l) as [d|] eqn:Hh; [|discriminate].
  destruct (d !! key) as [old|] eqn:Hk; [|discriminate].
  destruct fac as [[A_1 A_2]|]; [|discriminate].
  step_through Hg Hh Hk. discriminate.
Qed.

Lemma layers_loop_bound (fac : option (list (list R) * list (list R))) (beta : R)
      (params : list (string * tensor3)) :
  forall (s : pystate) (l : loc) (name : string),
    global_j_sigma_t_bar s = Some l ->
    fst (layers_loop fac beta params s) <> Raises (NameError name).
Proof.
  induction params as [|[key jac] rest IH]; intros s l name Hg.
  - discriminate.
  - cbn [layers_loop]. unfold mbind at 1.
    pose proof (layer_body_bound fac beta key jac s l name Hg) as Hb.
    pose proof (layer_body_global fac beta key jac s) as Hgl.
    destruct (layer_body fac beta key jac s) as [[g|e|] s1]; cbn [fst snd] in *.
    + unfold mbind. rewrite Hg in Hgl.
      specialize (IH s1 l name Hgl).
      destruct (layers_loop fac beta rest s1) as [[gs|e|] s2]; cbn [fst] in *.
      * discriminate.
      * exact IH.
      * discriminate.
    + intros E. apply Hb. injection E as ->. reflexivity.
    + discriminate.
Qed.

(** One pass through the loop when nothing fails: the dictionary bound to the
    global name is updated in place, and the masked gradient is computed from
    the updated entry. *)
Lemma layer_body_returns (A_1 A_2 : list (list R)) (beta : R) (key : string)
      (jac : tensor3) (s : pystate) (l : loc) (d : gmap string (list R))
      (old : list R) :
  global_j_sigma_t_bar s = Some l ->
  heap s !! l = Some d ->
  d !! key = Some old ->
  let new := Helper.moving_average_v old (mean_rows (einsum_bj_bjcw A_2 jac)) beta in
  layer_body (Some (A_1, A_2)) beta key jac s
  = (Returns (vsub (mean_rows (einsum_bj_bjcw A_1 jac)) new),
     {| heap := <[l := <[key := new]> d]> (heap s);
        global_j_sigma_t_bar := Some l |}).
Proof.
  intros Hg Hh Hk new.
  unfold layer_body, mbind, load_j_sigma_t_bar, getitem, setitem, lift, ret.
  step_through Hg Hh Hk. reflexivity.
Qed.

(** Whatever [train_step] returns as the averages are its own arguments. *)
Lemma train_step_returns_arguments {weights opt_state : Type}
      (e : env weights opt_state) (w : weights) (st : opt_state) (batch : list (list R))
      (sigma_t_bar : list (list R)) (j : loc) (beta : R) (s s' : pystate)
      (w' : weights) (energies : R) (sigma' : list (list R)) (j' : loc) :
  train_step e w st batch sigma_t_bar j beta s = (Returns (w', energies, sigma', j'), s') ->
  sigma' = sigma_t_bar /\ j' = j /\ energies = 0.
Proof.
  unfold train_step, mbind, ret. intros H.
  destruct (calculate_masked_gradient _ _ _ _ _ s) as [[g|ex|] s1]; try discriminate.
  destruct (opt_update e g st) as [updates st'].
  injection H as _ <- <- <- _. repeat split.
Qed.

End TrainSpinFacts.

Module TrainSpinRun.
Import TrainSpin.

(** The factorisation inside [calculate_masked_gradient] on the example
    batch: seed 1, batch covariance 4, decay 1/2. *)
Lemma factors_example :
  exists A_1 A_2, factors [[2]] [[2]] [[1]] (1 / 2) = Some (A_1, A_2).
Proof.
  unfold factors. arr_arg. rewrite cholesky_1x1 by (simpl INR; lra).
  do 2 eexists. reflexivity.
Qed.

Lemma main_state_lookup :
  global_j_sigma_t_bar Examples.train_spin_main = Some O
  /\ heap Examples.train_spin_main !! O
     = Some (<["Dense_0"%string := [0]]> (∅ : gmap string (list R)))
  /\ (<["Dense_0"%string := [0]]> (∅ : gmap string (list R))) !! "Dense_0"%string
     = Some [0].
Proof.
  split; [reflexivity|]. split.
  - unfold Examples.train_spin_main, main_state. cbn [heap].
    rewrite lookup_singleton_eq. reflexivity.
  - apply lookup_insert_eq.
Qed.

Lemma masked_gradient_example :
  exists g s',
    calculate_masked_gradient [("Dense_0"%string, [[[1]]])] [[2]] [[2]] [[1]] (1 / 2)
      Examples.train_spin_main = (Returns g, s').
Proof.
  destruct factors_example as [A_1 [A_2 Hf]].
  destruct main_state_lookup as [Hg [Hh Hk]].
  unfold calculate_masked_gradient. rewrite Hf.
  cbn [layers_loop]. unfold mbind at 1.
  rewrite (TrainSpinFacts.layer_body_returns A_1 A_2 (1 / 2) "Dense_0" [[[1]]]
             Examples.train_spin_main O _ [0] Hg Hh Hk).
  do 2 eexists. reflexivity.
Qed.

End TrainSpinRun.

(** ** Name resolution in train_spin.py *)

(** C9, as the code has it.  [calculate_masked_gradient] reads the name
    [j_sigma_t_bar] among the globals of the module.  With at least one layer
    and the name unbound, the call, and so [train_step], raises [NameError]
    before it returns a gradient; with no layer it returns the empty gradient;
    with the name bound, as it is after the main block of the script has
    created the dictionary, no call raises [NameError]. *)
Theorem masked_gradient_name_lookup :
  (forall key jac rest pred h_u sigma_t_bar beta s,
      TrainSpin.global_j_sigma_t_bar s = None ->
      TrainSpin.calculate_masked_gradient ((key, jac) :: rest) pred h_u sigma_t_bar beta s
      = (Raises (NameError "j_sigma_t_bar"), s))
  /\ (forall (weights opt_state : Type) (e : TrainSpin.env weights opt_state)
             w st batch sigma_t_bar j beta s,
      TrainSpin.model_jacrev e w batch <> [] ->
      TrainSpin.global_j_sigma_t_bar s = None ->
      TrainSpin.train_step e w st batch sigma_t_bar j beta s
      = (Raises (NameError "j_sigma_t_bar"), s))
  /\ (forall pred h_u sigma_t_bar beta s,
      TrainSpin.calculate_masked_gradient [] pred h_u sigma_t_bar beta s
      = (Returns [], s))
  /\ (forall del_u_del_weights pred h_u sigma_t_bar beta s l name,
      TrainSpin.global_j_sigma_t_bar s = Some l ->
      fst (TrainSpin.calculate_masked_gradient del_u_del_weights pred h_u
             sigma_t_bar beta s) <> Raises (NameError name))
  /\ (forall kernel_sizes,
      TrainSpin.global_j_sigma_t_bar (TrainSpin.main_state kernel_sizes) = Some O).
Proof.
  assert (H1 : forall key jac rest pred h_u sigma_t_bar beta s,
      TrainSpin.global_j_sigma_t_bar s = None ->
      TrainSpin.calculate_masked_gradient ((key, jac) :: rest) pred h_u sigma_t_bar beta s
      = (Raises (NameError "j_sigma_t_bar"), s)).
  { intros key jac rest pred h_u sigma_t_bar beta s Hg.
    unfold TrainSpin.calculate_masked_gradient. cbn [TrainSpin.layers_loop].
    unfold TrainSpin.mbind at 1.
    rewrite TrainSpinFacts.layer_body_unbound by exact Hg. reflexivity. }
  split; [exact H1|]. split; [|split; [|split]].
  - intros weights opt_state e w st batch sigma_t_bar j beta s Hne Hg.
    unfold TrainSpin.train_step, TrainSpin.mbind.
    destruct (TrainSpin.model_jacrev e w batch) as [|[key jac] rest]; [contradiction|].
    rewrite H1 by exact Hg. reflexivity.
  - reflexivity.
  - intros del_u_del_weights pred h_u sigma_t_bar beta s l name Hg.
    apply (TrainSpinFacts.layers_loop_bound _ _ _ s l name Hg).
  - reflexivity.
Qed.

Lemma masked_gradient_name_lookup_witness :
  TrainSpin.calculate_masked_gradient [("Dense_0"%string, [[[1]]])] [[2]] [[2]] [[1]]
    (1 / 2) {| TrainSpin.heap := ∅; TrainSpin.global_j_sigma_t_bar := None |}
  = (Raises (NameError "j_sigma_t_bar"),
     {| TrainSpin.heap := ∅; TrainSpin.global_j_sigma_t_bar := None |})
  /\ TrainSpin.train_step Examples.train_spin_env [] tt [[0]] [[1]] O (1 / 2)
       {| TrainSpin.heap := ∅; TrainSpin.global_j_sigma_t_bar := None |}
     = (Raises (NameError "j_sigma_t_bar"),
        {| TrainSpin.heap := ∅; TrainSpin.global_j_sigma_t_bar := None |})
  /\ fst (TrainSpin.calculate_masked_gradient [("Dense_0"%string, [[[1]]])] [[2]] [[2]]
            [[1]] (1 / 2) Examples.train_spin_main)
     <> Raises (NameError "j_sigma_t_bar").
Proof.
  destruct masked_gradient_name_lookup as [Hcall [Hstep [_ [Hbound _]]]].
  split; [|split].
  - apply Hcall. reflexivity.
  - apply Hstep.
    + discriminate.
    + reflexivity.
  - apply (Hbound _ _ _ _ _ _ O). reflexivity.
Defined.

(** The claim as written fails: in the state that the main block of the script
    sets up, the call returns a gradient. *)
Lemma masked_gradient_returns_in_main :
  exists g s',
    TrainSpin.calculate_masked_gradient [("Dense_0"%string, [[[1]]])] [[2]] [[2]] [[1]]
      (1 / 2) Examples.train_spin_main = (Returns g, s')
    /\ forall name, Returns g <> Raises (NameError name).
Proof.
  destruct TrainSpinRun.masked_gradient_example as [g [s' H]].
  exists g, s'. split; [exact H|]. discriminate.
Qed.

(** ** The averages that a step hands to the next one (spec section 3) *)

(** C4, at the failing input of train_spin.py.  Seed 1, batch covariance 4 and
    decay 1/2: [train_step] computes the blend 5/2 inside
    [calculate_masked_gradient] but returns the average 1 it was given. *)
Theorem train_spin_returns_stale_average :
  exists w' j' s',
    TrainSpin.train_step Examples.train_spin_env [] tt [[0]] [[1]] O (1 / 2)
      Examples.train_spin_main = (Returns (w', 0, [[1]], j'), s')
    /\ Helper.moving_average [[1]]
         (StfnTraining.mean_axis0 (StfnTraining.outer_batch [[2]] [[2]])) (1 / 2)
       <> [[1]].
Proof.
  destruct TrainSpinRun.masked_gradient_example as [g [s' H]].
  exists [], O, s'. split.
  - unfold TrainSpin.train_step, TrainSpin.mbind.
    cbn [Examples.train_spin_env TrainSpin.model_apply TrainSpin.model_jacrev
         TrainSpin.hamiltonian_operator TrainSpin.opt_update TrainSpin.apply_updates].
    rewrite H. reflexivity.
  - arr_compute. intros E. injection E as E. lra.
Qed.

(** ** backbone.py: the boundary factor *)

Module BackboneFacts.
Import Backbone.

Lemma rows_dot (A B : list (list R)) : rows (dot A B) = rows A.
Proof. unfold dot. apply rows_mk_matrix. Qed.

Lemma rows_softplus_all (x : list (list R)) : rows (softplus_all x) = rows x.
Proof. unfold softplus_all, rows. apply length_map. Qed.

Lemma rows_hidden_layers (ws : list (list (list R))) :
  forall x, rows (hidden_layers ws x) = rows x.
Proof.
  induction ws as [|w ws IH]; intros x; [reflexivity|].
  simpl. rewrite IH, rows_softplus_all. apply rows_dot.
Qed.

Lemma IZR_sqr (D : Z) : IZR (D ^ 2) = IZR D * IZR D.
Proof. rewrite Z.pow_2_r. apply mult_IZR. Qed.

(** On a coordinate equal to D or -D, with D not negative, the term
    sqrt(2 D^2 - x^2) - D is zero. *)
Lemma boundary_term_zero (D : Z) (x : R) :
  (0 <= D)%Z -> x = IZR D \/ x = - IZR D -> boundary_term D x = Some 0.
Proof.
  intros HD Hx. apply IZR_le in HD.
  assert (E : 2 * IZR (D ^ 2) - x ^ 2 = IZR D * IZR D).
  { rewrite IZR_sqr. destruct Hx as [-> | ->]; ring. }
  unfold boundary_term, jsqrt. rewrite E.
  destruct (Rle_dec 0 (IZR D * IZR D)) as [_|Hn]; [|exfalso; apply Hn; nra].
  simpl. rewrite sqrt_square by exact HD. f_equal. ring.
Qed.

(** Inside the domain of the square root the term has a real value. *)
Lemma boundary_term_real (D : Z) (x : R) :
  x ^ 2 <= 2 * IZR (D ^ 2) -> exists d, boundary_term D x = Some d.
Proof.
  intros Hx. unfold boundary_term, jsqrt.
  destruct (Rle_dec 0 (2 * IZR (D ^ 2) - x ^ 2)) as [_|Hn]; [|exfalso; apply Hn; lra].
  eexists. reflexivity.
Qed.

Lemma prod_row_zero (D : Z) (point : list R) :
  (0 <= D)%Z ->
  (forall x, In x point -> x ^ 2 <= 2 * IZR (D ^ 2)) ->
  (exists x, In x point /\ (x = IZR D \/ x = - IZR D)) ->
  prod_row (map (boundary_term D) point) = Some 0.
Proof.
  intros HD. induction point as [|y point IH]; intros Hdom [x [Hin Hx]].
  - destruct Hin.
  - assert (Hreal : forall z, In z point -> z ^ 2 <= 2 * IZR (D ^ 2))
      by (intros z Hz; apply Hdom; right; exact Hz).
    assert (Hrest : exists p, prod_row (map (boundary_term D) point) = Some p).
    { clear IH Hin. induction point as [|z point IHp]; [eexists; reflexivity|].
      destruct (boundary_term_real D z) as [d Hd]; [apply Hreal; left; reflexivity|].
      destruct IHp as [p Hp].
      - intros t Ht. apply Hdom. destruct Ht as [-> | Ht]; [left; reflexivity|].
        right. right. exact Ht.
      - intros t Ht. apply Hreal. right. exact Ht.
      - simpl. rewrite Hd, Hp. eexists. reflexivity. }
    simpl. destruct Hin as [-> | Hin].
    + rewrite (boundary_term_zero D x HD Hx).
      destruct Hrest as [p ->]. f_equal. ring.
    + destruct (boundary_term_real D y) as [d ->]; [apply Hdom; left; reflexivity|].
      rewrite IH; [f_equal; ring|exact Hreal|exists x; split; assumption].
Qed.

Lemma EigenNet_call_row (D : Z) (w : kernels) (x_in : list (list R)) (r : nat) :
  (r < rows x_in)%nat ->
  let x := Dense (Dense_last w)
             (hidden_layers (Dense_hidden w)
                (softplus_all (Dense (Dense_first w) x_in))) in
  length (EigenNet_call D w x_in) = rows x_in
  /\ nth r (EigenNet_call D w x_in) []
     = map (fun y => option_map (Rmult y)
                       (prod_row (map (boundary_term D) (nth r x_in []))))
           (nth r x []).
Proof.
  intros Hr x.
  assert (Hx : length x = rows x_in).
  { unfold x, Dense. change (length (dot ?A ?B)) with (rows (dot A B)).
    rewrite rows_dot, rows_hidden_layers, rows_softplus_all, rows_dot. reflexivity. }
  unfold EigenNet_call. fold x. split.
  - rewrite length_map2, length_map, Hx. unfold rows. lia.
  - rewrite (nth_map2 _ x _ r [] None) by (rewrite ?length_map, ?Hx; exact Hr).
    rewrite (nth_map_lt (fun point => prod_row (map (boundary_term D) point))
               x_in r [] None) by exact Hr.
    reflexivity.
Qed.

End BackboneFacts.

(** C10, as the code has it.  For a box half-width D that is not negative and
    a point of the batch whose coordinates all lie in the domain of the square
    root (x^2 <= 2 D^2, which holds on the box [-D, D]^d), one coordinate
    equal to D or -D makes every output of the network at that point zero,
    whatever the kernels. *)
Theorem boundary_condition (D : Z) (w : Backbone.kernels) (x_in : matrix) (r : nat) :
  (0 <= D)%Z ->
  (r < rows x_in)%nat ->
  (forall x, In x (nth r x_in []) -> x ^ 2 <= 2 * IZR (D ^ 2)) ->
  (exists x, In x (nth r x_in []) /\ (x = IZR D \/ x = - IZR D)) ->
  length (Backbone.EigenNet_call D w x_in) = rows x_in
  /\ Forall (fun y => y = Some 0) (nth r (Backbone.EigenNet_call D w x_in) []).
Proof.
  intros HD Hr Hdom Hb.
  destruct (BackboneFacts.EigenNet_call_row D w x_in r Hr) as [Hlen Hrow].
  split; [exact Hlen|]. rewrite Hrow.
  rewrite (BackboneFacts.prod_row_zero D _ HD Hdom Hb).
  apply Forall_map, Forall_forall. intros y _. simpl. f_equal. ring.
Qed.

Lemma boundary_condition_witness :
  Forall (fun y => y = Some 0)
         (nth 0 (Backbone.EigenNet_call 1 Examples.unit_kernels_2 [[1; 0]]) []).
Proof.
  apply (boundary_condition 1 Examples.unit_kernels_2 [[1; 0]] 0).
  - lia.
  - simpl. lia.
  - intros x [<- | [<- | []]]; simpl; lra.
  - exists 1. split; [left; reflexivity|]. left. reflexivity.
Defined.

(** The claim as written fails in two ways.  With D = -1 the factor at the
    coordinate 1 = -D is sqrt(2 - 1) + 1, not zero, and the output is not
    zero; with D = 1 and the point (1, 2) the second coordinate is outside the
    domain of the square root and the output has no real value. *)
Lemma boundary_condition_needs_domain :
  (exists y, Backbone.EigenNet_call (-1) Examples.unit_kernels [[1]] = [[Some y]]
             /\ y <> 0)
  /\ Backbone.EigenNet_call 1 Examples.unit_kernels_2 [[1; 2]] = [[None]].
Proof.
  split.
  - unfold Backbone.EigenNet_call.
    assert (Hd : Backbone.boundary_term (-1) 1 = Some (sqrt 1 + 1)).
    { unfold Backbone.boundary_term, Backbone.jsqrt.
      replace (2 * IZR ((-1) ^ 2) - 1 ^ 2) with 1 by (simpl; lra).
      destruct (Rle_dec 0 1) as [_|Hn]; [|exfalso; apply Hn; lra].
      simpl. f_equal. lra. }
    cbn [map Backbone.prod_row]. rewrite Hd.
    eexists. split; [arr_compute; reflexivity|].
    rewrite sqrt_1.
    assert (He : 0 < exp (0 + 1 * 1)) by apply exp_pos.
    assert (Hl : ln 1 < ln (1 + exp (0 + 1 * 1))) by (apply ln_increasing; lra).
    rewrite ln_1 in Hl.
    nra.
  - unfold Backbone.EigenNet_call.
    assert (Hd : Backbone.boundary_term 1 2 = None).
    { unfold Backbone.boundary_term, Backbone.jsqrt.
      destruct (Rle_dec 0 (2 * IZR (1 ^ 2) - 2 ^ 2)) as [Hp|_]; [|reflexivity].
      exfalso. simpl in Hp. lra. }
    cbn [map Backbone.prod_row]. rewrite Hd.
    destruct (Backbone.boundary_term 1 1); arr_compute; reflexivity.
Qed.

(** ** The gradient engine (spec section 4.3) *)

Module GradientFacts.


(** Reverse mode through the network and the covariance rule. *)
Lemma vget_pullback (N k r : nat) (du : tensor3) (ct : matrix) (p : nat) :
  wf_tensor3 N k r du -> (0 < N)%nat -> (0 < k)%nat -> (p < r)%nat ->
  vget (StfnTraining.pullback du ct) p
  = sum_n N (fun b => sum_n k (fun c => mget ct b c * tget du b c p)).
Proof.
  intros Hdu HN Hk Hp. unfold StfnTraining.pullback.
  destruct (dims_wf N k r du Hdu HN Hk) as [-> [-> ->]].
  rewrite vget_mk_vector by assumption. reflexivity.
Qed.

Lemma length_pullback (du : tensor3) (ct : matrix) :
  length (StfnTraining.pullback du ct) = dim2 du.
Proof. apply length_mk_vector. Qed.

(** The pullback of the cotangent (U' G)/N through a Jacobian D' is the
    contraction of G against sum over b of U'[b][i] D'[b][j][p] / N. *)
Lemma vget_pullback_dot (N k r : nat) (u' G : matrix) (d' : tensor3) (p : nat) :
  wf_matrix N k u' -> wf_matrix k k G -> wf_tensor3 N k r d' ->
  (0 < N)%nat -> (0 < k)%nat -> (p < r)%nat ->
  vget (StfnTraining.pullback d' (mdiv (dot u' G) (INR N))) p
  = sum_n k (fun i => sum_n k (fun j =>
      mget G i j * (sum_n N (fun b => mget u' b i * tget d' b j p) / INR N))).
Proof.
  intros Hu HG Hd HN Hk Hp.
  rewrite (vget_pullback N k r) by assumption.
  rewrite (sum_n_ext N _
    (fun b => sum_n k (fun i => sum_n k (fun j =>
       mget G i j * (mget u' b i * tget d' b j p / INR N))))).
  2:{ intros b Hb. rewrite sum_n_swap. apply sum_n_ext. intros c Hc.
      rewrite mget_mdiv, (mget_dot N k k) by assumption.
      unfold Rdiv. rewrite <- !sum_n_scal_r.
      apply sum_n_ext. intros a Ha. ring. }
  rewrite sum_n_swap. apply sum_n_ext. intros i Hi.
  rewrite sum_n_swap. apply sum_n_ext. intros j Hj.
  rewrite sum_n_scal_l. f_equal.
  unfold Rdiv. rewrite <- sum_n_scal_r. reflexivity.
Qed.

Lemma wf_basis (k i j : nat) : wf_matrix k k (StfnTraining.basis k i j).
Proof. apply wf_mk_matrix. Qed.

Lemma contract_basis (k i j : nat) (f : nat -> nat -> R) :
  (i < k)%nat -> (j < k)%nat ->
  sum_n k (fun a => sum_n k (fun c => mget (StfnTraining.basis k i j) a c * f a c))
  = f i j.
Proof.
  intros Hi Hj.
  rewrite (sum_n_ext k _ (fun a => if Nat.eqb a i then f a j else 0)).
  - apply (sum_n_delta k i (fun a => f a j)). exact Hi.
  - intros a Ha.
    rewrite (sum_n_ext k _ (fun c => if Nat.eqb c j
                                     then (if Nat.eqb a i then f a c else 0) else 0)).
    + rewrite (sum_n_delta k j (fun c => if Nat.eqb a i then f a c else 0)) by exact Hj.
      reflexivity.
    + intros c Hc. unfold StfnTraining.basis.
      rewrite mget_mk_matrix by assumption.
      destruct (Nat.eqb a i), (Nat.eqb c j); simpl; ring.
Qed.

(** The raw covariance Jacobian of stfn_training.py, entry by entry. *)
Lemma tget_jacrev_sigma (N k r : nat) (u : matrix) (du : tensor3) (i j p : nat) :
  wf_matrix N k u -> wf_tensor3 N k r du ->
  (0 < N)%nat -> (i < k)%nat -> (j < k)%nat -> (p < r)%nat ->
  tget (StfnTraining.jacrev_sigma u du) i j p
  = 2 * (sum_n N (fun b => mget u b i * tget du b j p) / INR N).
Proof.
  intros Hu Hdu HN Hi Hj Hp. assert (Hk : (0 < k)%nat) by lia.
  unfold StfnTraining.jacrev_sigma.
  destruct (dims_wf N k r du Hdu HN Hk) as [_ [_ Hd2]].
  rewrite (cols_wf N k u Hu HN), Hd2.
  rewrite tget_mk_tensor3 by assumption.
  cbn [StfnTraining.covariance_fwd StfnTraining.covariance_bwd snd].
  rewrite (rows_wf N k u Hu).
  assert (Hct : wf_matrix N k (mdiv (dot u (StfnTraining.basis k i j)) (INR N))).
  { apply wf_mdiv. apply (wf_dot N k k); [assumption|apply wf_basis|assumption]. }
  rewrite (vget_pullback N k r) by assumption.
  rewrite (sum_n_ext N _
    (fun b => 2 * sum_n k (fun c =>
       mget (mdiv (dot u (StfnTraining.basis k i j)) (INR N)) b c * tget du b c p))).
  2:{ intros b Hb. rewrite <- sum_n_scal_l. apply sum_n_ext. intros c Hc.
      rewrite (mget_madd N k) by assumption. ring. }
  rewrite sum_n_scal_l. f_equal.
  rewrite <- (vget_pullback N k r du _ p Hdu HN Hk Hp).
  rewrite (vget_pullback_dot N k r) by (try assumption; apply wf_basis).
  apply (contract_basis k i j
           (fun a c => sum_n N (fun b => mget u b a * tget du b c p) / INR N));
    assumption.
Qed.

Lemma wf_jacrev_sigma (N k r : nat) (u : matrix) (du : tensor3) :
  wf_matrix N k u -> wf_tensor3 N k r du -> (0 < N)%nat -> (0 < k)%nat ->
  wf_tensor3 k k r (StfnTraining.jacrev_sigma u du).
Proof.
  intros Hu Hdu HN Hk. unfold StfnTraining.jacrev_sigma.
  destruct (dims_wf N k r du Hdu HN Hk) as [_ [_ Hd2]].
  rewrite (cols_wf N k u Hu HN), Hd2. apply wf_mk_tensor3.
Qed.

(** [f_vjp] on a cotangent, entry by entry. *)
Lemma vget_vjp_pi (N k r : nat) (u h_u G : matrix) (du dh : tensor3) (p : nat) :
  wf_matrix N k u -> wf_matrix N k h_u -> wf_matrix k k G ->
  wf_tensor3 N k r du -> wf_tensor3 N k r dh ->
  (0 < N)%nat -> (0 < k)%nat -> (p < r)%nat ->
  vget (StfnTraining.vjp_pi u h_u du dh G) p
  = sum_n k (fun i => sum_n k (fun j =>
      mget G i j * (sum_n N (fun b => mget h_u b i * tget du b j p) / INR N
                    + sum_n N (fun b => mget u b i * tget dh b j p) / INR N))).
Proof.
  intros Hu Hh HG Hdu Hdh HN Hk Hp. unfold StfnTraining.vjp_pi.
  cbn [StfnTraining.covariance_fwd StfnTraining.covariance_bwd snd].
  rewrite (rows_wf N k u Hu).
  destruct (dims_wf N k r du Hdu HN Hk) as [_ [_ Hd2]].
  destruct (dims_wf N k r dh Hdh HN Hk) as [_ [_ Hd2']].
  rewrite vget_vadd by (rewrite length_pullback; lia).
  rewrite !(vget_pullback_dot N k r) by assumption.
  rewrite <- sum_n_plus. apply sum_n_ext. intros i Hi.
  rewrite <- sum_n_plus. apply sum_n_ext. intros j Hj. ring.
Qed.





(** The Jacobian of Pi of stfn_training.py, entry by entry. *)
Lemma tget_jacrev_pi (N k r : nat) (u h_u : matrix) (du dh : tensor3) (i j p : nat) :
  wf_matrix N k u -> wf_matrix N k h_u ->
  wf_tensor3 N k r du -> wf_tensor3 N k r dh ->
  (0 < N)%nat -> (i < k)%nat -> (j < k)%nat -> (p < r)%nat ->
  tget (StfnTraining.jacrev_pi u h_u du dh) i j p
  = sum_n N (fun b => mget h_u b i * tget du b j p) / INR N
    + sum_n N (fun b => mget u b i * tget dh b j p) / INR N.
Proof.
  intros Hu Hh Hdu Hdh HN Hi Hj Hp. assert (Hk : (0 < k)%nat) by lia.
  unfold StfnTraining.jacrev_pi.
  destruct (dims_wf N k r du Hdu HN Hk) as [_ [_ Hd2]].
  rewrite (cols_wf N k u Hu HN), Hd2.
  rewrite tget_mk_tensor3 by assumption.
  rewrite (vget_vjp_pi N k r) by (try assumption; apply wf_basis).
  apply (contract_basis k i j
           (fun a c => sum_n N (fun b => mget h_u b a * tget du b c p) / INR N
                       + sum_n N (fun b => mget u b a * tget dh b c p) / INR N));
    assumption.
Qed.


End GradientFacts.

(** ** When the moving average is the new data itself *)

Module AverageFacts.


End AverageFacts.

(** ** The Pi-term against the derivative of Pi *)

Module PiTermFacts.




End PiTermFacts.

(** ** Eigenvalue estimates and eigenfunctions (spec section 3) *)

Module EigenFacts.




End EigenFacts.

(** ** Initial moving averages (spec section 4.4) *)

(** C6, as the code has it.  stfn_training.py enters its loop with the
    identity as the covariance average and, for every leaf of the parameters,
    a zero array of shape (k, k) + leaf shape.  jax_spin.py enters its loop
    with the 1-D array of k ones as the covariance average and, for every
    leaf, a zero array of shape (k, k) + leaf shape. *)
Theorem initial_averages :
  (forall (opt_state : Type) (self : StfnTraining.ModelTrainer opt_state)
          (batches : nat -> matrix) callback,
      let k := StfnTraining.n_eigenfuncs self in
      let r0 := StfnTraining.start_state self in
      StfnTraining.start_training self batches callback
      = StfnTraining.epochs self batches callback (StfnTraining.num_epochs self) 1 r0
      /\ StfnTraining.sigma_t_bar r0 = eye k
      /\ length (StfnTraining.j_sigma_t_bar r0)
         = length (StfnTraining.init_weight_dict self)
      /\ forall l, (l < length (StfnTraining.init_weight_dict self))%nat ->
           let r := length (nth l (StfnTraining.init_weight_dict self) []) in
           wf_tensor3 k k r (nth l (StfnTraining.j_sigma_t_bar r0) [])
           /\ forall i j p, (i < k)%nat -> (j < k)%nat -> (p < r)%nat ->
                tget (nth l (StfnTraining.j_sigma_t_bar r0) []) i j p = 0)
  /\ (forall (opt_state : Type) (self : JaxSpin.SpIN opt_state)
             (inputs : nat -> matrix) (o : JaxSpin.SpIN_state opt_state)
             (N k r l : nat),
      let ls := JaxSpin.train_init self inputs o in
      let params := JaxSpin.get_params self (JaxSpin.st_opt_state o) in
      let grad_theta := JaxSpin.net_u_jac self params (inputs O) in
      fst (JaxSpin.avgs_of ls) = JaxSpin.Arr1 (ones (JaxSpin.neig self))
      /\ length (snd (JaxSpin.avgs_of ls)) = length grad_theta
      /\ ((0 < N)%nat -> (0 < k)%nat ->
          wf_matrix N k (JaxSpin.net_u self params (inputs O)) ->
          (l < length grad_theta)%nat ->
          wf_tensor3 N k r (nth l grad_theta []) ->
          wf_tensor3 k k r (nth l (snd (JaxSpin.avgs_of ls)) [])
          /\ forall i j p, (i < k)%nat -> (j < k)%nat -> (p < r)%nat ->
               tget (nth l (snd (JaxSpin.avgs_of ls)) []) i j p = 0)).
Proof.
  split.
  - intros opt_state self batches callback k r0.
    split; [reflexivity|]. split; [reflexivity|].
    split; [apply length_map|].
    intros l Hl r.
    assert (E : nth l (StfnTraining.j_sigma_t_bar r0) []
                = mk_tensor3 k k r (fun _ _ _ => 0)).
    { unfold r0, StfnTraining.start_state. cbn [StfnTraining.j_sigma_t_bar].
      rewrite (nth_map_lt (fun x : list R => mk_tensor3 _ _ (length x) (fun _ _ _ => 0))
                 _ l [] []) by exact Hl.
      reflexivity. }
    rewrite E. split; [apply wf_mk_tensor3|].
    intros i j p Hi Hj Hp. rewrite tget_mk_tensor3 by assumption. reflexivity.
  - intros opt_state self inputs o N k r l ls params grad_theta.
    split; [reflexivity|]. split; [apply length_map|].
    intros HN Hk Hu Hl Hx.
    assert (E : nth l (snd (JaxSpin.avgs_of ls)) []
                = tscale 0 (tensordot_1
                              (transpose (JaxSpin.net_u self params (inputs O)))
                              (nth l grad_theta []))).
    { unfold ls, JaxSpin.train_init, JaxSpin.init_sigma_jac.
      cbn [JaxSpin.avgs_of snd]. fold params. fold grad_theta.
      rewrite (nth_map_lt _ grad_theta l [] []) by exact Hl. reflexivity. }
    rewrite E.
    assert (Hw : wf_tensor3 k k r
                   (tensordot_1 (transpose (JaxSpin.net_u self params (inputs O)))
                                (nth l grad_theta []))).
    { apply (wf_tensordot_1 k N k r); try assumption. apply wf_transpose; assumption. }
    split; [apply wf_tscale; exact Hw|].
    intros i j p Hi Hj Hp. rewrite tget_tscale. ring.
Qed.

Lemma initial_averages_witness :
  wf_tensor3 1 1 1
    (nth 0 (StfnTraining.j_sigma_t_bar (StfnTraining.start_state Examples.stfn_trainer)) [])
  /\ wf_tensor3 1 1 1
       (nth 0 (snd (JaxSpin.avgs_of
                      (JaxSpin.train_init (Examples.spin 2 1) (fun _ => [[0]])
                                          Examples.spin_state))) []).
Proof.
  split.
  - destruct (proj1 initial_averages _ Examples.stfn_trainer (fun _ => [[0]])
                None) as [_ [_ [_ H]]].
    destruct (H 0%nat) as [Hw _].
    + simpl. lia.
    + exact Hw.
  - destruct (proj2 initial_averages _ (Examples.spin 2 1) (fun _ => [[0]])
                Examples.spin_state 1%nat 1%nat 1%nat 0%nat) as [_ [_ H]].
    apply H.
    + lia.
    + lia.
    + apply wf_1x1.
    + simpl. lia.
    + apply wf_1x1x1.
Defined.

(** The claim as written fails on jax_spin.py: for two eigenfunctions the
    seed of the covariance average is the 1-D array [1, 1]; it is not the
    2 by 2 identity, and broadcast against a 2 by 2 array its entry (0, 1) is
    1 where the identity has 0. *)
Lemma jax_spin_seed_is_not_identity :
  fst (JaxSpin.avgs_of (JaxSpin.train_init (Examples.spin 2 2) (fun _ => [[0]])
                                           Examples.spin_state))
  = JaxSpin.Arr1 [1; 1]
  /\ JaxSpin.Arr1 [1; 1] <> JaxSpin.Arr2 (eye 2)
  /\ JaxSpin.broadcast_entry (JaxSpin.Arr1 [1; 1]) 0 1 = 1
  /\ mget (eye 2) 0 1 = 0.
Proof.
  split; [reflexivity|]. split; [discriminate|]. split; reflexivity.
Qed.

(** ** The bias-corrected gradient (spec section 4.3) *)





(** ** Positive definiteness along a run *)

Module PdFacts.
Import Linalg.

Lemma nonzero_dec (k : nat) (y : nat -> R) :
  (forall i, (i < k)%nat -> y i = 0) \/ (exists i, (i < k)%nat /\ y i <> 0).
Proof.
  induction k as [|k IH].
  - left. intros i Hi. lia.
  - destruct IH as [Hz|[i [Hi Hy]]].
    + destruct (Req_dec (y k) 0) as [E|E].
      * left. intros i Hi. destruct (Nat.eq_dec i k) as [->|Hne]; [exact E|].
        apply Hz. lia.
      * right. exists k. split; [lia|exact E].
    + right. exists i. split; [lia|exact Hy].
Qed.

Lemma quad_form_schur (k : nat) (A : nat -> nat -> R) (y : nat -> R) :
  sym_fn (S k) A -> 0 < A O O ->
  quad_form k (fun i j => A (S i) (S j)
                          - A (S i) O / sqrt (A O O) * (A (S j) O / sqrt (A O O))) y
  = quad_form k (fun i j => A (S i) (S j)) y
    - sum_n k (fun j => A O (S j) * y j) * sum_n k (fun j => A O (S j) * y j) / A O O.
Proof.
  intros Hsym Ha.
  assert (Hl : sqrt (A O O) * sqrt (A O O) = A O O) by (apply sqrt_sqrt; lra).
  assert (Hl0 : sqrt (A O O) <> 0).
  { intros E. rewrite E in Hl. lra. }
  set (b := sum_n k (fun j => A O (S j) * y j)).
  assert (Hb' : sum_n k (fun i => y i * A (S i) O) = b).
  { unfold b. apply sum_n_ext. intros i Hi.
    rewrite (Hsym (S i) O) by lia. ring. }
  unfold quad_form.
  rewrite (sum_n_ext k _
    (fun i => sum_n k (fun j => y i * A (S i) (S j) * y j)
              - sum_n k (fun j => (y i * A (S i) O) * (y j * A (S j) O) / A O O))).
  2:{ intros i _. rewrite <- sum_n_minus. apply sum_n_ext. intros j _.
      rewrite <- Hl at 3. field. assumption. }
  rewrite sum_n_minus. f_equal.
  rewrite (sum_n_ext k _
    (fun i => sum_n k (fun j => (y i * A (S i) O) * (y j * A (S j) O)) / A O O))
    by (intros i _; apply sum_n_div).
  rewrite sum_n_div, <- sum_n_mult, Hb'. reflexivity.
Qed.

(** A matrix on which the factorisation succeeds is positive-definite. *)
Lemma chol_fn_pd (k : nat) :
  forall A L, chol_fn k A = Some L -> sym_fn k A -> pd_fn k A.
Proof.
  induction k as [|k IH]; intros A L Hc Hsym.
  - split; [exact Hsym|]. intros x [i [Hi _]]. lia.
  - simpl in Hc. destruct (Rlt_dec 0 (A O O)) as [Ha|]; [|discriminate].
    destruct (chol_fn k _) as [L'|] eqn:Hc'; [|discriminate].
    assert (Hs : sym_fn k (fun i j => A (S i) (S j)
                   - A (S i) O / sqrt (A O O) * (A (S j) O / sqrt (A O O)))).
    { intros i j Hi Hj. rewrite (Hsym (S i) (S j)) by lia. ring. }
    pose proof (IH _ _ Hc' Hs) as [_ Hpos].
    split; [exact Hsym|].
    intros x [i0 [Hi0 Hx]].
    set (y := fun i => x (S i)).
    set (b := sum_n k (fun j => A O (S j) * y j)).
    pose proof (quad_form_schur k A y Hsym Ha) as Hq. fold b in Hq.
    rewrite LinalgFacts.quad_form_S.
    change (fun i => x (S i)) with y.
    assert (Hb1 : sum_n k (fun j => A O (S j) * x (S j)) = b) by reflexivity.
    assert (Hb2 : sum_n k (fun i => x (S i) * A (S i) O) = b).
    { unfold b. apply sum_n_ext. intros i Hi.
      rewrite (Hsym (S i) O) by lia. unfold y. ring. }
    rewrite Hb1, Hb2.
    assert (Hsq : x O * A O O * x O + x O * b + b * x O
                  = A O O * ((x O + b / A O O) * (x O + b / A O O)) - b * b / A O O)
      by (field; lra).
    assert (Hnn : 0 <= A O O * ((x O + b / A O O) * (x O + b / A O O))).
    { apply Rmult_le_pos; [lra|]. apply Rle_0_sqr. }
    destruct (nonzero_dec k y) as [Hz|Hnz].
    + assert (Hb0 : b = 0).
      { unfold b. apply sum_n_zero. intros j Hj. rewrite (Hz j Hj). ring. }
      assert (Hq0 : quad_form k (fun i j => A (S i) (S j)) y = 0).
      { unfold quad_form. apply sum_n_zero. intros i Hi.
        apply sum_n_zero. intros j Hj. rewrite (Hz i Hi). ring. }
      assert (Hx0 : x O <> 0).
      { destruct i0 as [|i0]; [exact Hx|]. exfalso. apply Hx. apply (Hz i0). lia. }
      rewrite Hq0, Hb0.
      assert (0 < x O * x O) by (apply Rsqr_pos_lt; exact Hx0).
      nra.
    + specialize (Hpos y Hnz). rewrite Hq in Hpos. lra.
Qed.

Lemma cholesky_pd (k : nat) (Sigma L : matrix) :
  wf_matrix k k Sigma -> symmetric k Sigma ->
  cholesky Sigma = Some L -> positive_definite k Sigma.
Proof.
  intros HS Hsym Hc. unfold cholesky in Hc.
  rewrite (rows_wf k k Sigma HS) in Hc.
  destruct (chol_fn k (mget Sigma)) as [Lf|] eqn:E; [|discriminate].
  apply (chol_fn_pd k _ Lf E Hsym).
Qed.

Lemma cholesky_none (k : nat) (Sigma : matrix) :
  wf_matrix k k Sigma -> symmetric k Sigma ->
  ~ positive_definite k Sigma -> cholesky Sigma = None.
Proof.
  intros HS Hsym Hn.
  destruct (cholesky Sigma) as [L|] eqn:E; [|reflexivity].
  exfalso. apply Hn. apply (cholesky_pd k Sigma L); assumption.
Qed.

Lemma quad_form_ext (k : nat) (A B : nat -> nat -> R) (x : nat -> R) :
  (forall i j, (i < k)%nat -> (j < k)%nat -> A i j = B i j) ->
  quad_form k A x = quad_form k B x.
Proof.
  intros H. unfold quad_form. apply sum_n_ext. intros i Hi.
  apply sum_n_ext. intros j Hj. rewrite (H i j Hi Hj). reflexivity.
Qed.

Lemma quad_form_lin (k : nat) (a b : R) (A B : nat -> nat -> R) (x : nat -> R) :
  quad_form k (fun i j => a * A i j + b * B i j) x
  = a * quad_form k A x + b * quad_form k B x.
Proof.
  unfold quad_form.
  rewrite <- !sum_n_scal_l, <- sum_n_plus. apply sum_n_ext. intros i _.
  rewrite <- !sum_n_scal_l, <- sum_n_plus. apply sum_n_ext. intros j _. ring.
Qed.

(** The quadratic form of a batch covariance is a mean of squares. *)
Lemma quad_form_gram (N k : nat) (u : matrix) (x : nat -> R) :
  quad_form k (fun i j => sum_n N (fun b => mget u b i * mget u b j) / INR N) x
  = sum_n N (fun b => sum_n k (fun i => x i * mget u b i)
                      * sum_n k (fun i => x i * mget u b i)) / INR N.
Proof.
  unfold quad_form.
  transitivity
    (sum_n k (fun i => sum_n k (fun j => sum_n N (fun b =>
        (x i * mget u b i) * (x j * mget u b j)))) / INR N).
  - rewrite <- sum_n_div. apply sum_n_ext. intros i _.
    rewrite <- sum_n_div. apply sum_n_ext. intros j _.
    rewrite (sum_n_ext N (fun b => (x i * mget u b i) * (x j * mget u b j))
               (fun b => (x i * x j) * (mget u b i * mget u b j)))
      by (intros; ring).
    rewrite sum_n_scal_l. unfold Rdiv. ring.
  - f_equal.
    rewrite (sum_n_ext k _
      (fun i => sum_n N (fun b => sum_n k (fun j =>
                  (x i * mget u b i) * (x j * mget u b j)))))
      by (intros i _; apply sum_n_swap).
    rewrite sum_n_swap. apply sum_n_ext. intros b _.
    symmetry. apply sum_n_mult.
Qed.

Lemma covariance_sym (N k : nat) (u : matrix) :
  wf_matrix N k u -> (0 < N)%nat ->
  symmetric k (StfnTraining.covariance u u).
Proof.
  intros Hu HN i j Hi Hj.
  rewrite !(mget_covariance N k k) by assumption.
  f_equal. apply sum_n_ext. intros b _. ring.
Qed.

Lemma covariance_psd (N k : nat) (u : matrix) (x : nat -> R) :
  wf_matrix N k u -> (0 < N)%nat ->
  0 <= quad_form k (mget (StfnTraining.covariance u u)) x.
Proof.
  intros Hu HN.
  rewrite (quad_form_ext k _
             (fun i j => sum_n N (fun b => mget u b i * mget u b j) / INR N))
    by (intros i j Hi Hj; apply (mget_covariance N k k); assumption).
  rewrite quad_form_gram.
  assert (HNR : 0 < INR N) by (apply lt_0_INR; exact HN).
  apply Rmult_le_pos.
  - apply sum_n_nonneg. intros b _. apply Rle_0_sqr.
  - left. apply Rinv_0_lt_compat. exact HNR.
Qed.

(** A blend of a positive-definite matrix with a positive semi-definite one
    is positive-definite as long as the decay is below 1. *)
Lemma pd_fn_blend (k : nat) (beta : R) (A B : nat -> nat -> R) :
  0 <= beta < 1 -> pd_fn k A -> sym_fn k B ->
  (forall x, 0 <= quad_form k B x) ->
  pd_fn k (fun i j => (1 - beta) * A i j + beta * B i j).
Proof.
  intros Hb [HsA HpA] HsB HpB. split.
  - intros i j Hi Hj. rewrite (HsA i j), (HsB i j) by assumption. reflexivity.
  - intros x Hx. rewrite quad_form_lin.
    specialize (HpA x Hx). specialize (HpB x). nra.
Qed.

Lemma pd_moving_average (k : nat) (beta : R) (A B : matrix) :
  wf_matrix k k A -> wf_matrix k k B -> 0 <= beta < 1 ->
  positive_definite k A -> symmetric k B ->
  (forall x, 0 <= quad_form k (mget B) x) ->
  positive_definite k (Helper.moving_average A B beta).
Proof.
  intros HA HB Hb Hpd Hs Hp.
  pose proof (pd_fn_blend k beta _ _ Hb Hpd Hs Hp) as [H1 H2].
  split.
  - intros i j Hi Hj. rewrite !(mget_moving_average k k) by assumption.
    apply H1; assumption.
  - intros x Hx.
    rewrite (quad_form_ext k _
               (fun i j => (1 - beta) * mget A i j + beta * mget B i j)).
    + apply H2. exact Hx.
    + intros i j Hi Hj. apply (mget_moving_average k k); assumption.
Qed.

End PdFacts.

(** ** Runs of stfn_training.py *)

Module RunFacts.

Lemma stfn_step_pd (net : StfnTraining.network) (weight_dict : pytree)
      (batch sigma_t_bar : matrix) (J : jac_pytree) (beta : R) (N k : nat) :
  let u := StfnTraining.model_apply net weight_dict batch in
  let sigma_new := Helper.moving_average sigma_t_bar (StfnTraining.covariance u u) beta in
  (0 < N)%nat -> (0 < k)%nat -> wf_matrix N k u ->
  wf_matrix k k sigma_t_bar -> Linalg.positive_definite k sigma_t_bar ->
  0 <= beta < 1 ->
  wf_matrix k k sigma_new /\ Linalg.positive_definite k sigma_new.
Proof.
  intros u sigma_new HN Hk Hu Hs Hpd Hb.
  assert (Hc : wf_matrix k k (StfnTraining.covariance u u))
    by (apply (wf_covariance N); assumption).
  split; [apply wf_moving_average; assumption|].
  apply PdFacts.pd_moving_average; try assumption.
  - apply (PdFacts.covariance_sym N); assumption.
  - intros x. apply (PdFacts.covariance_psd N); assumption.
Qed.

(** The callback is consulted at the multiples of 500 only. *)
Lemma stfn_epochs_callback {opt_state : Type}
      (self : StfnTraining.ModelTrainer opt_state)
      (batches : nat -> matrix) (cb : nat -> list vector -> bool) :
  forall count epoch (r : StfnTraining.run_state opt_state),
    (forall e, (epoch <= e < epoch + count)%nat -> e mod 500 <> O) ->
    StfnTraining.epochs self batches (Some cb) count epoch r
    = StfnTraining.epochs self batches None count epoch r.
Proof.
  induction count as [|count IH]; intros epoch r Hno; [reflexivity|].
  cbn [StfnTraining.epochs].
  destruct (StfnTraining.epoch_body self batches epoch r) as [r1| |];
    cbn [bind]; try reflexivity.
  assert (E : Nat.eqb (epoch mod 500) 0 = false).
  { apply Nat.eqb_neq. apply Hno. lia. }
  rewrite E. cbn [andb]. apply IH. intros e He. apply Hno. lia.
Qed.

End RunFacts.

(** X3 (stfn_training.py, [ModelTrainer.start_training]).  The callback is
    looked at only when the epoch number is a multiple of 500: a run of fewer
    than 500 epochs does the same with any callback as with none. *)
Theorem stfn_callback_only_every_500 :
  forall (opt_state : Type) (self : StfnTraining.ModelTrainer opt_state)
         (batches : nat -> matrix) (cb : nat -> list vector -> bool),
    (StfnTraining.num_epochs self < 500)%nat ->
    StfnTraining.start_training self batches (Some cb)
    = StfnTraining.start_training self batches None.
Proof.
  intros opt_state self batches cb Hn.
  unfold StfnTraining.start_training.
  apply RunFacts.stfn_epochs_callback.
  intros e He. rewrite Nat.mod_small by lia. lia.
Qed.

Lemma stfn_callback_only_every_500_witness :
  StfnTraining.start_training Examples.stfn_trainer (fun _ => [[0]])
    (Some (fun _ _ => true))
  = StfnTraining.start_training Examples.stfn_trainer (fun _ => [[0]]) None.
Proof.
  apply (stfn_callback_only_every_500 unit Examples.stfn_trainer). simpl. lia.
Defined.

(** ** Runs of jax_spin.py *)

Module JaxRunFacts.
Import JaxSpin.

Lemma gram_sym (N k : nat) (u : matrix) :
  wf_matrix N k u -> (0 < N)%nat ->
  Linalg.symmetric k (mdiv (dot (transpose u) u) (INR N)).
Proof.
  intros Hu HN i j Hi Hj.
  rewrite !(mget_dot_transpose_div N k k) by assumption.
  f_equal. apply sum_n_ext. intros b _. ring.
Qed.


Section Run.
Context {opt_state : Type} (self : SpIN opt_state).

Lemma evaluate_spin_not_real (params : pytree) (inputs : matrix)
      (avgs : averages) (beta : R) :
  Linalg.cholesky
    (blend_sigma beta (fst avgs)
       (mdiv (dot (transpose (net_u self params inputs)) (net_u self params inputs))
             (INR (rows inputs)))) = None ->
  evaluate_spin self params inputs avgs beta = NotReal.
Proof. intros H. unfold evaluate_spin. rewrite H. reflexivity. Qed.

Lemma evaluate_spin_returns (params : pytree) (inputs : matrix)
      (avgs : averages) (beta : R) (r : outputs * matrix) :
  evaluate_spin self params inputs avgs beta = Returns r ->
  exists L,
    Linalg.cholesky
      (blend_sigma beta (fst avgs)
         (mdiv (dot (transpose (net_u self params inputs)) (net_u self params inputs))
               (INR (rows inputs)))) = Some L
    /\ snd r = blend_sigma beta (fst avgs)
         (mdiv (dot (transpose (net_u self params inputs)) (net_u self params inputs))
               (INR (rows inputs))).
Proof.
  unfold evaluate_spin. intros H.
  destruct (Linalg.cholesky _) as [L|] eqn:E; [|discriminate].
  cbn [of_option bind] in H. injection H as <-.
  exists L. split; reflexivity.
Qed.

Lemma step_not_real (i : nat) (st : opt_state) (inputs : matrix)
      (avgs : averages) (beta : R) :
  evaluate_spin self (get_params self st) inputs avgs beta = NotReal ->
  step self i st (inputs, avgs, beta) = NotReal.
Proof.
  intros H. unfold step, loss_and_grad. rewrite H. reflexivity.
Qed.

Lemma step_returns (i : nat) (st : opt_state) (inputs : matrix)
      (avgs : averages) (beta : R) (loss : R) (st' : opt_state) (avgs' : averages) :
  step self i st (inputs, avgs, beta) = Returns (loss, st', avgs') ->
  exists outs,
    evaluate_spin self (get_params self st) inputs avgs beta
    = Returns (outs, blend_sigma beta (fst avgs)
         (mdiv (dot (transpose (net_u self (get_params self st) inputs))
                    (net_u self (get_params self st) inputs))
               (INR (rows inputs))))
    /\ fst avgs' = Arr2 (blend_sigma beta (fst avgs)
         (mdiv (dot (transpose (net_u self (get_params self st) inputs))
                    (net_u self (get_params self st) inputs))
               (INR (rows inputs)))).
Proof.
  unfold step, loss_and_grad. intros H.
  destruct (evaluate_spin self (get_params self st) inputs avgs beta)
    as [[outs s]| |] eqn:E; try discriminate.
  destruct (evaluate_spin_returns _ _ _ _ _ E) as [L [_ Hs]]. cbn [snd] in Hs.
  cbn [bind] in H.
  destruct outs as [[[[u choli] pi] rq] op].
  destruct (masked_gradients self _ _ _ _ _) as [g J'].
  cbn [bind] in H. injection H as _ _ <-.
  exists (u, choli, pi, rq, op). rewrite Hs. split; reflexivity.
Qed.

Lemma eigenpairs_returns (params : pytree) (inputs : matrix) (avgs : averages)
      (beta : R) (k : nat) :
  let sigma_avg :=
    blend_sigma beta (fst avgs)
      (mdiv (dot (transpose (net_u self params inputs)) (net_u self params inputs))
            (INR (rows inputs))) in
  wf_matrix k k sigma_avg -> Linalg.positive_definite k sigma_avg ->
  exists evals efuns, eigenpairs self params inputs avgs beta = Returns (evals, efuns).
Proof.
  intros sigma_avg Hw Hpd.
  destruct (LinalgFacts.cholesky_correct k sigma_avg Hw Hpd) as [L [Hc _]].
  unfold eigenpairs, evaluate_spin. fold sigma_avg. rewrite Hc.
  cbn [of_option bind]. do 2 eexists. reflexivity.
Qed.

Lemma train_body_last (inputs : nat -> matrix) (ls ls' : loop_state) :
  train_body self inputs ls = Returns ls' ->
  pos ls' = S (S (pos ls))
  /\ itercount (obj ls') = S (itercount (obj ls))
  /\ length (loss_log (obj ls')) = S (length (loss_log (obj ls)))
  /\ length (evals_log (obj ls')) = S (length (evals_log (obj ls)))
  /\ last ls' = Some (get_params self (st_opt_state (obj ls')),
                      beta_at self (itercount (obj ls))).
Proof.
  unfold train_body. intros H.
  destruct (step self _ _ _) as [[[loss st] avgs]| |]; try discriminate.
  cbn [bind] in H.
  destruct (eigenpairs self _ _ _ _) as [[evals efuns]| |]; try discriminate.
  cbn [bind] in H. injection H as <-.
  cbn [pos obj itercount loss_log evals_log last st_opt_state].
  rewrite !length_app. simpl. repeat split; lia.
Qed.

Lemma train_loop_bookkeeping (inputs : nat -> matrix) :
  forall n ls ls',
    train_loop self inputs n ls = Returns ls' ->
    pos ls' = (pos ls + 2 * n)%nat
    /\ itercount (obj ls') = (itercount (obj ls) + n)%nat
    /\ length (loss_log (obj ls')) = (length (loss_log (obj ls)) + n)%nat
    /\ length (evals_log (obj ls')) = (length (evals_log (obj ls)) + n)%nat
    /\ ((0 < n)%nat ->
        last ls' = Some (get_params self (st_opt_state (obj ls')),
                         beta_at self (itercount (obj ls) + n - 1))).
Proof.
  induction n as [|n IH]; intros ls ls' H.
  - simpl in H. injection H as <-. repeat split; try lia.
  - cbn [train_loop] in H.
    destruct (train_body self inputs ls) as [ls1| |] eqn:E; try discriminate.
    cbn [bind] in H.
    destruct (train_body_last inputs ls ls1 E) as [Hp [Hi [Hl [He Hlast]]]].
    destruct (IH ls1 ls' H) as [Hp' [Hi' [Hl' [He' Hlast']]]].
    split; [lia|]. split; [lia|]. split; [lia|]. split; [lia|].
    intros _. destruct n as [|n].
    + simpl in H. injection H as <-. rewrite Hlast.
      replace (itercount (obj ls) + 1 - 1)%nat with (itercount (obj ls)) by lia.
      reflexivity.
    + rewrite Hlast' by lia. rewrite Hi.
      replace (S (itercount (obj ls)) + S n - 1)%nat
        with (itercount (obj ls) + S (S n) - 1)%nat by lia.
      reflexivity.
Qed.

End Run.

End JaxRunFacts.

Ltac arr_more :=
  match goal with
  | |- Linalg.symmetric _ ?A => arr_eval A
  | |- ~ Linalg.positive_definite _ ?A => arr_eval A
  end.

Module JaxExampleFacts.

Lemma sym_1x1 (a : R) : Linalg.symmetric 1 [[a]].
Proof.
  intros i j Hi Hj. replace i with O by lia. replace j with O by lia. reflexivity.
Qed.

Lemma npd_1x1 (a : R) : a <= 0 -> ~ Linalg.positive_definite 1 [[a]].
Proof.
  intros Ha [_ Hpos].
  assert (H : 0 < Linalg.quad_form 1 (mget [[a]]) (fun _ => 1)).
  { apply Hpos. exists O. split; [lia|lra]. }
  unfold Linalg.quad_form, mget in H. simpl in H. lra.
Qed.

Lemma train_example :
  exists res,
    JaxSpin.train (Examples.spin 2 1) (fun _ => [[0]]) 1 Examples.spin_state
    = Returns res.
Proof.
  destruct StepFacts.train_body_example as [ls' H].
  destruct (JaxRunFacts.train_body_last _ _ _ _ H) as [_ [_ [_ [_ Hlast]]]].
  unfold JaxSpin.train. cbn [JaxSpin.train_loop]. rewrite H. cbn [bind].
  rewrite Hlast. eexists. reflexivity.
Qed.

(** A batch whose rows are all equal has a singular covariance as soon as
    the network has two outputs. *)
Lemma equal_rows_not_pd (N k : nat) (u : matrix) :
  (0 < N)%nat -> (2 <= k)%nat -> wf_matrix N k u ->
  (forall b, (b < N)%nat -> nth b u [] = nth 0 u []) ->
  ~ Linalg.positive_definite k (mdiv (dot (transpose u) u) (INR N)).
Proof.
  intros HN Hk Hu Hrows [_ Hpos].
  assert (Hq : forall x,
             Linalg.quad_form k (mget (mdiv (dot (transpose u) u) (INR N))) x
             = sum_n k (fun i => x i * mget u 0 i) * sum_n k (fun i => x i * mget u 0 i)).
  { intros x.
    rewrite (PdFacts.quad_form_ext k _
               (fun i j => sum_n N (fun b => mget u b i * mget u b j) / INR N))
      by (intros i j Hi Hj; apply (mget_dot_transpose_div N k k); assumption).
    rewrite PdFacts.quad_form_gram.
    rewrite (sum_n_ext N _
               (fun _ => sum_n k (fun i => x i * mget u 0 i)
                         * sum_n k (fun i => x i * mget u 0 i))).
    - assert (Hc : forall (n : nat) (c : R), sum_n n (fun _ => c) = INR n * c).
      { induction n as [|n IH]; intros c.
        - simpl. ring.
        - cbn [sum_n]. rewrite IH, S_INR. ring. }
      rewrite Hc. field. apply not_0_INR. lia.
    - intros b Hb. unfold mget. rewrite (Hrows b Hb). reflexivity. }
  set (a0 := mget u 0 0). set (a1 := mget u 0 1).
  destruct (Req_dec a0 0) as [E|E].
  - specialize (Hpos (fun i => if Nat.eqb i 0 then 1 else 0)).
    rewrite Hq in Hpos.
    rewrite (sum_n_ext k _ (fun i => if Nat.eqb i 0 then mget u 0 i else 0)) in Hpos
      by (intros i _; destruct (Nat.eqb i 0); ring).
    rewrite (sum_n_delta k 0 (fun i => mget u 0 i)) in Hpos by lia.
    fold a0 in Hpos. rewrite E in Hpos.
    assert (H : 0 < 0 * 0).
    { apply Hpos. exists O. split; [lia|]. simpl. lra. }
    lra.
  - specialize (Hpos (fun i => if Nat.eqb i 0 then a1 else if Nat.eqb i 1 then - a0 else 0)).
    rewrite Hq in Hpos.
    rewrite (sum_n_ext k _
               (fun i => (if Nat.eqb i 0 then a1 * mget u 0 i else 0)
                         + (if Nat.eqb i 1 then - a0 * mget u 0 i else 0))) in Hpos.
    2:{ intros i _. destruct i as [|[|i]]; simpl; ring. }
    rewrite sum_n_plus in Hpos.
    rewrite (sum_n_delta k 0 (fun i => a1 * mget u 0 i)) in Hpos by lia.
    rewrite (sum_n_delta k 1 (fun i => - a0 * mget u 0 i)) in Hpos by lia.
    fold a0 a1 in Hpos.
    assert (H : 0 < (a1 * a0 + - a0 * a1) * (a1 * a0 + - a0 * a1)).
    { apply Hpos. exists 1%nat. split; [lia|]. simpl. lra. }
    replace ((a1 * a0 + - a0 * a1) * (a1 * a0 + - a0 * a1)) with 0 in H by ring.
    lra.
Qed.

End JaxExampleFacts.







(** X7 (jax_spin.py, [SpIN.train]).  A run of [nIter] iterations that returns
    has [nIter] > 0, has advanced the counter by [nIter] and appended
    [nIter] entries to each log; the parameters it returns are those of the
    final optimizer state and the decay it returns is the one of the last
    iteration.  With [nIter] = 0 the call raises [UnboundLocalError], and the
    loop takes two batches per iteration from the iterator. *)
Theorem train_bookkeeping :
  forall (opt_state : Type) (self : JaxSpin.SpIN opt_state) (inputs : nat -> matrix),
    (forall o, JaxSpin.train self inputs 0 o = Raises (UnboundLocalError "params"))
    /\ (forall nIter o o' params avgs beta,
          JaxSpin.train self inputs nIter o = Returns (o', (params, avgs, beta)) ->
          (0 < nIter)%nat
          /\ JaxSpin.itercount o' = (JaxSpin.itercount o + nIter)%nat
          /\ length (JaxSpin.loss_log o') = (length (JaxSpin.loss_log o) + nIter)%nat
          /\ length (JaxSpin.evals_log o') = (length (JaxSpin.evals_log o) + nIter)%nat
          /\ params = JaxSpin.get_params self (JaxSpin.st_opt_state o')
          /\ beta = JaxSpin.beta_at self (JaxSpin.itercount o + nIter - 1))
    /\ (forall nIter o ls',
          JaxSpin.train_loop self inputs nIter (JaxSpin.train_init self inputs o)
          = Returns ls' ->
          JaxSpin.pos ls' = (1 + 2 * nIter)%nat).
Proof.
  intros opt_state self inputs. split; [|split].
  - intros o. reflexivity.
  - intros nIter o o' params avgs beta H.
    unfold JaxSpin.train in H.
    destruct (JaxSpin.train_loop self inputs nIter (JaxSpin.train_init self inputs o))
      as [ls'| |] eqn:E; try discriminate.
    cbn [bind] in H.
    destruct (JaxRunFacts.train_loop_bookkeeping self inputs nIter _ ls' E)
      as [_ [Hi [Hl [He Hlast]]]].
    cbn [JaxSpin.train_init JaxSpin.obj] in Hi, Hl, He, Hlast.
    destruct nIter as [|m].
    + simpl in E. injection E as <-. simpl in H. discriminate.
    + rewrite Hlast in H by lia. injection H as <- <- <- <-.
      split; [lia|]. split; [exact Hi|]. split; [exact Hl|]. split; [exact He|].
      split; reflexivity.
  - intros nIter o ls' H.
    destruct (JaxRunFacts.train_loop_bookkeeping self inputs nIter _ ls' H) as [Hp _].
    exact Hp.
Qed.

Lemma train_bookkeeping_witness :
  (exists o' params avgs beta,
     JaxSpin.train (Examples.spin 2 1) (fun _ => [[0]]) 1 Examples.spin_state
     = Returns (o', (params, avgs, beta))
     /\ JaxSpin.itercount o' = 1%nat
     /\ length (JaxSpin.loss_log o') = 1%nat
     /\ beta = 1)
  /\ exists ls',
       JaxSpin.train_loop (Examples.spin 2 1) (fun _ => [[0]]) 1
         (JaxSpin.train_init (Examples.spin 2 1) (fun _ => [[0]]) Examples.spin_state)
       = Returns ls'
       /\ JaxSpin.pos ls' = 3%nat.
Proof.
  split.
  - destruct JaxExampleFacts.train_example as [[o' [[params avgs] beta]] H].
    destruct (proj1 (proj2 (train_bookkeeping _ (Examples.spin 2 1) (fun _ => [[0]])))
                1%nat Examples.spin_state o' params avgs beta H)
      as [_ [Hi [Hl [_ [_ Hb]]]]].
    exists o', params, avgs, beta. split; [exact H|].
    split; [exact Hi|]. split; [exact Hl|exact Hb].
  - destruct StepFacts.train_body_example as [ls' H].
    assert (Hloop : JaxSpin.train_loop (Examples.spin 2 1) (fun _ => [[0]]) 1
                      (JaxSpin.train_init (Examples.spin 2 1) (fun _ => [[0]])
                         Examples.spin_state) = Returns ls').
    { cbn [JaxSpin.train_loop]. rewrite H. reflexivity. }
    exists ls'. split; [exact Hloop|].
    exact (proj2 (proj2 (train_bookkeeping _ (Examples.spin 2 1) (fun _ => [[0]])))
             1%nat Examples.spin_state ls' Hloop).
Defined.



(** ** train_spin.py: the dictionary of averaged Jacobians along a run *)

Module TrainSpinHeap.
Import TrainSpin RunInvariants.

(** The entry that one pass through the loop stores for a layer. *)
Lemma layer_body_missing_key (fac : option (matrix * matrix)) (beta : R)
      (key : string) (jac : tensor3) (s : pystate) (l : loc)
      (d : gmap string vector) :
  global_j_sigma_t_bar s = Some l -> heap s !! l = Some d -> d !! key = None ->
  layer_body fac beta key jac s = (Raises (KeyError key), s).
Proof.
  intros Hg Hh Hk.
  unfold layer_body, mbind, load_j_sigma_t_bar, getitem.
  rewrite Hg, Hh, Hk. reflexivity.
Qed.

(** A pass through the loop changes no object but the one bound to the
    global name. *)
Lemma layer_body_frame (fac : option (matrix * matrix)) (beta : R)
      (key : string) (jac : tensor3) (s : pystate) (l j : loc) :
  global_j_sigma_t_bar s = Some l -> j <> l ->
  heap (snd (layer_body fac beta key jac s)) !! j = heap s !! j.
Proof.
  intros Hg Hj.
  unfold layer_body, mbind, load_j_sigma_t_bar, getitem, setitem, lift, ret.
  rewrite Hg.
  destruct (heap s !! l) as [d|] eqn:Hh; [|reflexivity].
  destruct (d !! key) as [old|] eqn:Hk; [|reflexivity].
  destruct fac as [[A_1 A_2]|]; [|reflexivity].
  TrainSpinFacts.step_through Hg Hh Hk.
  apply lookup_insert_ne. congruence.
Qed.

Lemma layers_loop_global (fac : option (matrix * matrix)) (beta : R)
      (params : list (string * tensor3)) :
  forall s, global_j_sigma_t_bar (snd (layers_loop fac beta params s))
            = global_j_sigma_t_bar s.
Proof.
  induction params as [|[key jac] rest IH]; intros s; [reflexivity|].
  cbn [layers_loop]. unfold mbind at 1.
  pose proof (TrainSpinFacts.layer_body_global fac beta key jac s) as Hgl.
  destruct (layer_body fac beta key jac s) as [[g|e|] s1]; cbn [snd] in *;
    try exact Hgl.
  unfold mbind, ret. specialize (IH s1).
  destruct (layers_loop fac beta rest s1) as [[gs|e|] s2]; cbn [snd] in *;
    congruence.
Qed.

Lemma layers_loop_frame (fac : option (matrix * matrix)) (beta : R)
      (params : list (string * tensor3)) (l j : loc) :
  j <> l ->
  forall s, global_j_sigma_t_bar s = Some l ->
    heap (snd (layers_loop fac beta params s)) !! j = heap s !! j.
Proof.
  intros Hj. induction params as [|[key jac] rest IH]; intros s Hg; [reflexivity|].
  cbn [layers_loop]. unfold mbind at 1.
  pose proof (TrainSpinFacts.layer_body_global fac beta key jac s) as Hgl.
  pose proof (layer_body_frame fac beta key jac s l j Hg Hj) as Hfr.
  destruct (layer_body fac beta key jac s) as [[g|e|] s1]; cbn [snd] in *;
    try exact Hfr.
  unfold mbind, ret. rewrite Hg in Hgl. specialize (IH s1 Hgl).
  destruct (layers_loop fac beta rest s1) as [[gs|e|] s2]; cbn [snd] in *;
    congruence.
Qed.

(** The loop over the layers when nothing fails: every layer's entry of the
    dictionary is replaced once, by the blend of the old entry with the new
    estimate, the other entries are left alone, and every gradient is
    computed from the entry that has just been stored. *)
Lemma layers_loop_returns (A_1 A_2 : matrix) (beta : R) (l : loc) :
  forall (params : list (string * tensor3)) (h : gmap loc (gmap string vector))
         (d : gmap string vector),
    NoDup (map fst params) ->
    (forall key, In key (map fst params) -> is_Some (d !! key)) ->
    h !! l = Some d ->
    exists g d',
      layers_loop (Some (A_1, A_2)) beta params
        {| heap := h; global_j_sigma_t_bar := Some l |}
      = (Returns g, {| heap := <[l := d']> h; global_j_sigma_t_bar := Some l |})
      /\ map fst g = map fst params
      /\ (forall key, ~ In key (map fst params) -> d' !! key = d !! key)
      /\ (forall key jac old,
            In (key, jac) params -> d !! key = Some old ->
            let new := Helper.moving_average_v old
                         (mean_rows (einsum_bj_bjcw A_2 jac)) beta in
            d' !! key = Some new
            /\ In (key, vsub (mean_rows (einsum_bj_bjcw A_1 jac)) new) g).
Proof.
  induction params as [|[key jac] rest IH]; intros h d Hnd Hkeys Hh.
  - exists [], d. cbn [layers_loop]. unfold ret.
    rewrite insert_id by exact Hh.
    split; [reflexivity|]. split; [reflexivity|]. split; [reflexivity|].
    intros key jac old [].
  - cbn [map fst] in Hnd. apply NoDup_cons_iff in Hnd as [Hnin Hnd].
    destruct (Hkeys key (or_introl eq_refl)) as [old Hold].
    set (new := Helper.moving_average_v old (mean_rows (einsum_bj_bjcw A_2 jac)) beta).
    pose proof (TrainSpinFacts.layer_body_returns A_1 A_2 beta key jac
                  {| heap := h; global_j_sigma_t_bar := Some l |} l d old
                  eq_refl Hh Hold) as Hbody.
    cbv zeta in Hbody. fold new in Hbody. cbn [heap] in Hbody.
    destruct (IH (<[l := <[key := new]> d]> h) (<[key := new]> d) Hnd)
      as [g [d' [Hloop [Hfst [Hout Hin]]]]].
    { intros key' Hk'.
      rewrite lookup_insert_ne by (intros ->; contradiction).
      apply Hkeys. right. exact Hk'. }
    { apply lookup_insert_eq. }
    exists ((key, vsub (mean_rows (einsum_bj_bjcw A_1 jac)) new) :: g), d'.
    split.
    { cbn [layers_loop]. unfold mbind at 1. rewrite Hbody.
      unfold mbind at 1. rewrite Hloop. unfold ret.
      rewrite insert_insert_eq. reflexivity. }
    split; [cbn [map fst]; rewrite Hfst; reflexivity|].
    split.
    { intros key' Hk'. cbn [map fst] in Hk'.
      rewrite Hout by (intros Hc; apply Hk'; right; exact Hc).
      apply lookup_insert_ne. intros ->. apply Hk'. left. reflexivity. }
    intros key' jac' old' [E|Hrest] Hold'.
    + injection E as <- <-. rewrite Hold in Hold'. injection Hold' as <-.
      cbv zeta. fold new. split.
      * rewrite (Hout key Hnin). apply lookup_insert_eq.
      * left. reflexivity.
    + assert (Hne : key <> key').
      { intros ->. apply Hnin. apply (in_map fst) in Hrest. exact Hrest. }
      destruct (Hin key' jac' old' Hrest) as [Hd' Hg'].
      { rewrite lookup_insert_ne by exact Hne. exact Hold'. }
      split; [exact Hd'|]. right. exact Hg'.
Qed.

(** The dictionary that the main block creates holds every layer name. *)
Lemma main_dict_keys (kernel_sizes : list (string * nat)) (key : string) :
  In key (map fst kernel_sizes) ->
  is_Some ((list_to_map
              (map (fun kn => (fst kn, mk_vector (snd kn) (fun _ => 0))) kernel_sizes)
            : gmap string vector) !! key).
Proof.
  induction kernel_sizes as [|[k0 n0] rest IH]; intros Hin; [destruct Hin|].
  cbn [map fst snd]. rewrite list_to_map_cons.
  destruct (decide (k0 = key)) as [->|Hne].
  - rewrite lookup_insert_eq. eexists. reflexivity.
  - rewrite lookup_insert_ne by exact Hne. apply IH.
    destruct Hin as [E|Hin]; [contradiction|exact Hin].
Qed.

Lemma factors_some (pred h_u sigma_t_bar : matrix) (beta : R) (N k : nat) :
  (0 < N)%nat -> (0 < k)%nat -> wf_matrix N k pred ->
  wf_matrix k k sigma_t_bar -> Linalg.positive_definite k sigma_t_bar ->
  0 <= beta < 1 ->
  exists A_1 A_2, factors pred h_u sigma_t_bar beta = Some (A_1, A_2).
Proof.
  intros HN Hk Hp Hs Hpd Hb.
  pose proof (RunFacts.stfn_step_pd
                {| StfnTraining.model_apply := fun _ _ => pred;
                   StfnTraining.model_jac := fun _ _ => [];
                   StfnTraining.h_fn := fun _ _ u => u;
                   StfnTraining.h_jac := fun _ _ => [] |}
                [] [] sigma_t_bar [] beta N k HN Hk Hp Hs Hpd Hb) as [Hw' Hpd'].
  cbn [StfnTraining.model_apply] in Hw', Hpd'.
  destruct (LinalgFacts.cholesky_correct k _ Hw' Hpd') as [L [Hc _]].
  unfold factors.
  change (StfnTraining.mean_axis0 (StfnTraining.outer_batch pred pred))
    with (StfnTraining.covariance pred pred).
  rewrite Hc. do 2 eexists. reflexivity.
Qed.

End TrainSpinHeap.

Module TrainSpinLoop.
Import TrainSpin RunInvariants.

Section Loop.
Context {weights opt_state : Type} (e : env weights opt_state).

Lemma train_step_ready (K : list string) (N k : nat) (beta : R)
      (sigma_t_bar : matrix) :
  NoDup K -> (0 < N)%nat -> (0 < k)%nat ->
  (forall w b, wf_matrix N k (model_apply e w b)) ->
  (forall w b, map fst (model_jacrev e w b) = K) ->
  0 <= beta < 1 ->
  wf_matrix k k sigma_t_bar -> Linalg.positive_definite k sigma_t_bar ->
  forall w st batch j s,
    dict_ready K s ->
    exists w' s',
      train_step e w st batch sigma_t_bar j beta s = (Returns (w', 0, sigma_t_bar, j), s')
      /\ dict_ready K s'.
Proof.
  intros HK HN Hk Hsh Hkeys Hb Hs Hpd w st batch j [h g] [Hg [d [Hh Hd]]].
  cbn [global_j_sigma_t_bar heap] in Hg, Hh. subst g.
  destruct (TrainSpinHeap.factors_some (model_apply e w batch)
              (hamiltonian_operator e (model_apply e w) batch) sigma_t_bar beta N k
              HN Hk (Hsh w batch) Hs Hpd Hb) as [A_1 [A_2 Hf]].
  destruct (TrainSpinHeap.layers_loop_returns A_1 A_2 beta O (model_jacrev e w batch)
              h d) as [gr [d' [Hloop [_ [_ Hin]]]]].
  { rewrite Hkeys. exact HK. }
  { rewrite Hkeys. exact Hd. }
  { exact Hh. }
  unfold train_step, mbind, calculate_masked_gradient. rewrite Hf.
  unfold loc in *. rewrite Hloop.
  destruct (opt_update e gr st) as [updates st'].
  unfold ret. do 2 eexists. split; [reflexivity|].
  split; [reflexivity|]. exists d'. cbn [heap].
  split; [apply lookup_insert_eq|].
  intros key Hkey. rewrite <- (Hkeys w batch) in Hkey.
  apply in_map_iff in Hkey as [[key' jac] [E Hin']]. cbn [fst] in E. subst key'.
  destruct (Hd key) as [old Hold].
  { rewrite <- (Hkeys w batch). apply (in_map fst) in Hin'. exact Hin'. }
  destruct (Hin key jac old Hin' Hold) as [Hnew _].
  eexists. exact Hnew.
Qed.

Lemma main_loop_ready (K : list string) (N k : nat) (beta : R)
      (sigma_t_bar : matrix) (batches : nat -> matrix) (st : opt_state) (j : loc) :
  NoDup K -> (0 < N)%nat -> (0 < k)%nat ->
  (forall w b, wf_matrix N k (model_apply e w b)) ->
  (forall w b, map fst (model_jacrev e w b) = K) ->
  0 <= beta < 1 ->
  wf_matrix k k sigma_t_bar -> Linalg.positive_definite k sigma_t_bar ->
  forall count epoch w s,
    dict_ready K s ->
    exists w' s',
      main_loop e batches beta st count epoch w sigma_t_bar j s
      = (Returns (w', sigma_t_bar, j), s')
      /\ dict_ready K s'.
Proof.
  intros HK HN Hk Hsh Hkeys Hb Hs Hpd.
  induction count as [|count IH]; intros epoch w s Hr.
  - exists w, s. split; [reflexivity|exact Hr].
  - destruct (train_step_ready K N k beta sigma_t_bar HK HN Hk Hsh Hkeys Hb Hs Hpd
                w st (batches epoch) j s Hr) as [w1 [s1 [H1 Hr1]]].
    destruct (IH (S epoch) (sparsify_weights e w1) s1 Hr1) as [w' [s' [H' Hr']]].
    exists w', s'. split; [|exact Hr'].
    cbn [main_loop]. unfold mbind at 1. rewrite H1. exact H'.
Qed.

End Loop.

Lemma main_state_ready (kernel_sizes : list (string * nat)) :
  dict_ready (map fst kernel_sizes) (main_state kernel_sizes).
Proof.
  split; [reflexivity|].
  eexists. split.
  - unfold main_state. cbn [heap]. apply lookup_singleton_eq.
  - intros key Hkey. apply TrainSpinHeap.main_dict_keys. exact Hkey.
Qed.

End TrainSpinLoop.

(** X9 (train_spin.py, [calculate_masked_gradient]).  When the module-level
    dictionary exists but has no entry for the first layer, the call, and
    so [train_step], raises [KeyError] for that layer name and leaves the
    interpreter state as it was. *)
Theorem masked_gradient_missing_key :
  forall (weights opt_state : Type) (e : TrainSpin.env weights opt_state)
         (w : weights) (st : opt_state) (batch pred h_u sigma_t_bar : matrix)
         (j : TrainSpin.loc) (beta : R) (key : string) (jac : tensor3)
         (rest : list (string * tensor3)) (s : TrainSpin.pystate)
         (l : TrainSpin.loc) (d : gmap string vector),
    TrainSpin.global_j_sigma_t_bar s = Some l ->
    TrainSpin.heap s !! l = Some d ->
    d !! key = None ->
    TrainSpin.calculate_masked_gradient ((key, jac) :: rest) pred h_u sigma_t_bar beta s
    = (Raises (KeyError key), s)
    /\ (TrainSpin.model_jacrev e w batch = (key, jac) :: rest ->
        TrainSpin.train_step e w st batch sigma_t_bar j beta s
        = (Raises (KeyError key), s)).
Proof.
  intros weights opt_state e w st batch pred h_u sigma_t_bar j beta key jac rest s l d
         Hg Hh Hk.
  assert (H : forall pred h_u,
             TrainSpin.calculate_masked_gradient ((key, jac) :: rest) pred h_u
               sigma_t_bar beta s = (Raises (KeyError key), s)).
  { intros pred' h_u'. unfold TrainSpin.calculate_masked_gradient.
    cbn [TrainSpin.layers_loop]. unfold TrainSpin.mbind at 1.
    rewrite (TrainSpinHeap.layer_body_missing_key _ beta key jac s l d Hg Hh Hk).
    reflexivity. }
  split; [apply H|].
  intros Hj. unfold TrainSpin.train_step, TrainSpin.mbind. rewrite Hj, H. reflexivity.
Qed.

Lemma masked_gradient_missing_key_witness :
  TrainSpin.calculate_masked_gradient [("Dense_0"%string, [[[1]]])] [[2]] [[2]] [[1]]
    (1 / 2) (TrainSpin.main_state [])
  = (Raises (KeyError "Dense_0"), TrainSpin.main_state [])
  /\ TrainSpin.train_step Examples.train_spin_env [] tt [[0]] [[1]] O (1 / 2)
       (TrainSpin.main_state [])
     = (Raises (KeyError "Dense_0"), TrainSpin.main_state []).
Proof.
  destruct (masked_gradient_missing_key _ _ Examples.train_spin_env [] tt [[0]] [[2]]
              [[2]] [[1]] O (1 / 2) "Dense_0" [[[1]]] [] (TrainSpin.main_state []) O ∅)
    as [H1 H2].
  - reflexivity.
  - unfold TrainSpin.main_state. cbn [TrainSpin.heap map list_to_map foldr].
    apply lookup_singleton_eq.
  - apply lookup_empty.
  - split; [exact H1|]. apply H2. reflexivity.
Defined.

(** X10 (train_spin.py, [calculate_masked_gradient]).  When the factorisation
    succeeds, the layer names are distinct and the module-level dictionary
    holds all of them, the call returns one gradient per layer and updates
    that dictionary in place: every layer's entry becomes the blend of its
    old value with the new estimate, every other entry keeps its value, and
    each gradient is the Pi-estimate minus the entry just stored. *)
Theorem masked_gradient_updates_in_place :
  forall (params : list (string * tensor3)) (pred h_u sigma_t_bar : matrix)
         (beta : R) (h : gmap TrainSpin.loc (gmap string vector)) (l : TrainSpin.loc)
         (d : gmap string vector) (A_1 A_2 : matrix),
    TrainSpin.factors pred h_u sigma_t_bar beta = Some (A_1, A_2) ->
    NoDup (map fst params) ->
    (forall key, In key (map fst params) -> is_Some (d !! key)) ->
    h !! l = Some d ->
    exists g d',
      TrainSpin.calculate_masked_gradient params pred h_u sigma_t_bar beta
        {| TrainSpin.heap := h; TrainSpin.global_j_sigma_t_bar := Some l |}
      = (Returns g,
         {| TrainSpin.heap := <[l := d']> h;
            TrainSpin.global_j_sigma_t_bar := Some l |})
      /\ map fst g = map fst params
      /\ (forall key, ~ In key (map fst params) -> d' !! key = d !! key)
      /\ (forall key jac old,
            In (key, jac) params -> d !! key = Some old ->
            let new := Helper.moving_average_v old
                         (TrainSpin.mean_rows (TrainSpin.einsum_bj_bjcw A_2 jac)) beta in
            d' !! key = Some new
            /\ In (key, vsub (TrainSpin.mean_rows (TrainSpin.einsum_bj_bjcw A_1 jac)) new)
                  g).
Proof.
  intros params pred h_u sigma_t_bar beta h l d A_1 A_2 Hf Hnd Hkeys Hh.
  unfold TrainSpin.calculate_masked_gradient. rewrite Hf.
  apply TrainSpinHeap.layers_loop_returns; assumption.
Qed.

Lemma masked_gradient_updates_in_place_witness :
  exists A_1 A_2 g d',
    TrainSpin.factors [[2]] [[2]] [[1]] (1 / 2) = Some (A_1, A_2)
    /\ TrainSpin.calculate_masked_gradient [("Dense_0"%string, [[[1]]])] [[2]] [[2]]
         [[1]] (1 / 2)
         {| TrainSpin.heap := {[ O := {[ "Dense_0"%string := [0] ]} ]};
            TrainSpin.global_j_sigma_t_bar := Some O |}
       = (Returns g,
          {| TrainSpin.heap := <[O := d']> {[ O := {[ "Dense_0"%string := [0] ]} ]};
             TrainSpin.global_j_sigma_t_bar := Some O |})
    /\ d' !! "Dense_0"%string
       = Some (Helper.moving_average_v [0]
                 (TrainSpin.mean_rows (TrainSpin.einsum_bj_bjcw A_2 [[[1]]])) (1 / 2)).
Proof.
  destruct TrainSpinRun.factors_example as [A_1 [A_2 Hf]].
  destruct (masked_gradient_updates_in_place [("Dense_0"%string, [[[1]]])] [[2]] [[2]]
              [[1]] (1 / 2) {[ O := {[ "Dense_0"%string := [0] ]} ]} O
              {[ "Dense_0"%string := [0] ]} A_1 A_2 Hf)
    as [g [d' [H [_ [_ Hin]]]]].
  - cbn [map fst]. constructor; [intros []|constructor].
  - intros key [<-|[]]. rewrite lookup_singleton_eq. eexists. reflexivity.
  - apply lookup_singleton_eq.
  - exists A_1, A_2, g, d'. split; [exact Hf|]. split; [exact H|].
    destruct (Hin "Dense_0"%string [[[1]]] [0]) as [Hd _].
    + left. reflexivity.
    + apply lookup_singleton_eq.
    + exact Hd.
Defined.

(** X11 (train_spin.py, the loop of the main block).  With a
    positive-definite seed, a decay in [0, 1), a network that returns an
    N by k array on every batch and the same distinct layer names in every
    Jacobian, the loop runs to its end from the state that the main block
    sets up; the covariance average that it carries is the seed after every
    epoch. *)
Theorem main_loop_keeps_the_seed :
  forall (weights opt_state : Type) (e : TrainSpin.env weights opt_state)
         (batches : nat -> matrix) (beta : R) (st : opt_state)
         (kernel_sizes : list (string * nat)) (sigma_t_bar : matrix) (N k : nat),
    NoDup (map fst kernel_sizes) -> (0 < N)%nat -> (0 < k)%nat ->
    (forall w b, wf_matrix N k (TrainSpin.model_apply e w b)) ->
    (forall w b, map fst (TrainSpin.model_jacrev e w b) = map fst kernel_sizes) ->
    0 <= beta < 1 ->
    wf_matrix k k sigma_t_bar -> Linalg.positive_definite k sigma_t_bar ->
    forall count epoch w,
      exists w' s',
        TrainSpin.main_loop e batches beta st count epoch w sigma_t_bar O
          (TrainSpin.main_state kernel_sizes)
        = (Returns (w', sigma_t_bar, O), s')
        /\ TrainSpin.global_j_sigma_t_bar s' = Some O.
Proof.
  intros weights opt_state e batches beta st kernel_sizes sigma_t_bar N k
         HK HN Hk Hsh Hkeys Hb Hs Hpd count epoch w.
  destruct (TrainSpinLoop.main_loop_ready e (map fst kernel_sizes) N k beta sigma_t_bar
              batches st O HK HN Hk Hsh Hkeys Hb Hs Hpd count epoch w
              (TrainSpin.main_state kernel_sizes)
              (TrainSpinLoop.main_state_ready kernel_sizes))
    as [w' [s' [H [Hg _]]]].
  exists w', s'. split; assumption.
Qed.

Lemma main_loop_keeps_the_seed_witness :
  exists w' s',
    TrainSpin.main_loop Examples.train_spin_env (fun _ => [[0]]) (1 / 2) tt 3 1 []
      [[1]] O Examples.train_spin_main
    = (Returns (w', [[1]], O), s').
Proof.
  destruct (main_loop_keeps_the_seed _ _ Examples.train_spin_env (fun _ => [[0]])
              (1 / 2) tt [("Dense_0"%string, 1%nat)] [[1]] 1%nat 1%nat)
    with (count := 3%nat) (epoch := 1%nat) (w := @nil (string * list R))
    as [w' [s' [H _]]].
  - cbn [map fst]. constructor; [intros []|constructor].
  - lia.
  - lia.
  - intros w b. apply wf_1x1.
  - intros w b. reflexivity.
  - lra.
  - apply wf_1x1.
  - apply pd_1x1. lra.
  - exists w', s'. exact H.
Defined.

(** X12 (train_spin.py, [train_step]).  The dictionary passed as
    [j_sigma_t_bar] is never read: the effect of a call on the interpreter
    state is the same whatever is passed, a result hands the argument back,
    and no dictionary other than the one bound to the module-level name is
    changed. *)
Theorem train_step_ignores_its_dictionary_argument :
  forall (weights opt_state : Type) (e : TrainSpin.env weights opt_state)
         (w : weights) (st : opt_state) (batch sigma_t_bar : matrix)
         (beta : R) (s : TrainSpin.pystate) (j : TrainSpin.loc),
    (forall j',
        snd (TrainSpin.train_step e w st batch sigma_t_bar j beta s)
        = snd (TrainSpin.train_step e w st batch sigma_t_bar j' beta s))
    /\ (forall res s',
          TrainSpin.train_step e w st batch sigma_t_bar j beta s = (Returns res, s') ->
          snd res = j)
    /\ (forall l,
          TrainSpin.global_j_sigma_t_bar s = Some l -> j <> l ->
          TrainSpin.heap (snd (TrainSpin.train_step e w st batch sigma_t_bar j beta s))
            !! j
          = TrainSpin.heap s !! j).
Proof.
  intros weights opt_state e w st batch sigma_t_bar beta s j.
  assert (Hsnd : forall j0,
             snd (TrainSpin.train_step e w st batch sigma_t_bar j0 beta s)
             = snd (TrainSpin.calculate_masked_gradient
                      (TrainSpin.model_jacrev e w batch)
                      (TrainSpin.model_apply e w batch)
                      (TrainSpin.hamiltonian_operator e (TrainSpin.model_apply e w) batch)
                      sigma_t_bar beta s)).
  { intros j0. unfold TrainSpin.train_step, TrainSpin.mbind, TrainSpin.ret.
    destruct (TrainSpin.calculate_masked_gradient _ _ _ _ _ s) as [[g|ex|] s1];
      try reflexivity.
    destruct (TrainSpin.opt_update e g st) as [updates st']. reflexivity. }
  split; [|split].
  - intros j'. rewrite !Hsnd. reflexivity.
  - intros [[[w' en] sg] j0] s' H.
    destruct (TrainSpinFacts.train_step_returns_arguments e w st batch sigma_t_bar j
                beta s s' w' en sg j0 H) as [_ [-> _]].
    reflexivity.
  - intros l Hg Hj. rewrite Hsnd.
    unfold TrainSpin.calculate_masked_gradient.
    apply (TrainSpinHeap.layers_loop_frame _ _ _ l j Hj s Hg).
Qed.

Lemma train_step_ignores_its_dictionary_argument_witness :
  (exists res s',
     TrainSpin.train_step Examples.train_spin_env [] tt [[0]] [[1]] 5%nat (1 / 2)
       Examples.train_spin_main = (Returns res, s')
     /\ snd res = 5%nat)
  /\ TrainSpin.heap
       (snd (TrainSpin.train_step Examples.train_spin_env [] tt [[0]] [[1]] 5%nat
               (1 / 2) Examples.train_spin_main)) !! 5%nat
     = TrainSpin.heap Examples.train_spin_main !! 5%nat.
Proof.
  split.
  - destruct (TrainSpinLoop.train_step_ready Examples.train_spin_env
                ["Dense_0"%string] 1 1 (1 / 2) [[1]]) with
      (w := @nil (string * list R)) (st := tt) (batch := [[0]]) (j := 5%nat)
      (s := Examples.train_spin_main) as [w' [s' [H _]]].
    + constructor; [intros []|constructor].
    + lia.
    + lia.
    + intros w b. apply wf_1x1.
    + intros w b. reflexivity.
    + lra.
    + apply wf_1x1.
    + apply pd_1x1. lra.
    + apply (TrainSpinLoop.main_state_ready [("Dense_0"%string, 1%nat)]).
    + eexists. exists s'. split; [exact H|].
      exact (proj1 (proj2 (train_step_ignores_its_dictionary_argument _ _
                             Examples.train_spin_env [] tt [[0]] [[1]] (1 / 2)
                             Examples.train_spin_main 5%nat)) _ s' H).
  - apply (proj2 (proj2 (train_step_ignores_its_dictionary_argument _ _
                           Examples.train_spin_env [] tt [[0]] [[1]] (1 / 2)
                           Examples.train_spin_main 5%nat)) O).
    + reflexivity.
    + lia.
Defined.

(** ** The backward rule of [covariance] *)

Module CovarianceFacts.

Lemma sum3_rotate (k N : nat) (f : nat -> nat -> nat -> R) :
  sum_n k (fun a => sum_n k (fun c => sum_n N (fun b => f a c b)))
  = sum_n N (fun b => sum_n k (fun c => sum_n k (fun a => f a c b))).
Proof.
  rewrite (sum_n_ext k _ (fun a => sum_n N (fun b => sum_n k (fun c => f a c b))))
    by (intros a _; apply sum_n_swap).
  rewrite sum_n_swap. apply sum_n_ext. intros b _. apply sum_n_swap.
Qed.

Lemma mget_dot_div (N k : nat) (u g : matrix) (b c : nat) :
  wf_matrix N k u -> wf_matrix k k g -> (0 < k)%nat -> (b < N)%nat -> (c < k)%nat ->
  mget (mdiv (dot u g) (INR N)) b c
  = sum_n k (fun a => mget u b a * mget g a c) / INR N.
Proof.
  intros Hu Hg Hk Hb Hc. rewrite mget_mdiv.
  rewrite (mget_dot N k k) by assumption. reflexivity.
Qed.

End CovarianceFacts.

(** X13 (stfn_training.py, [covariance], [covariance_fwd], [covariance_bwd]).
    The forward pass returns the value of [covariance] and saves the batch
    size.  The second cotangent of the backward rule is the adjoint of the
    map [d |-> covariance(u1, d)] at the incoming cotangent [g]; the first
    one is the adjoint of [d |-> covariance(d, u2)] at the transpose of
    [g], so at [g] itself when [g] is symmetric. *)
Theorem covariance_backward_rule :
  forall (N k : nat) (u1 u2 g d : matrix),
    (0 < N)%nat -> (0 < k)%nat ->
    wf_matrix N k u1 -> wf_matrix N k u2 -> wf_matrix k k g -> wf_matrix N k d ->
    let ct := StfnTraining.covariance_bwd (snd (StfnTraining.covariance_fwd u1 u2)) g in
    StfnTraining.covariance_fwd u1 u2 = (StfnTraining.covariance u1 u2, (u1, u2, N))
    /\ sum_n k (fun i => sum_n k (fun j =>
                  mget g i j * mget (StfnTraining.covariance u1 d) i j))
       = sum_n N (fun b => sum_n k (fun c => mget (snd ct) b c * mget d b c))
    /\ sum_n k (fun i => sum_n k (fun j =>
                  mget g j i * mget (StfnTraining.covariance d u2) i j))
       = sum_n N (fun b => sum_n k (fun c => mget (fst ct) b c * mget d b c))
    /\ (Linalg.symmetric k g ->
        sum_n k (fun i => sum_n k (fun j =>
                   mget g i j * mget (StfnTraining.covariance d u2) i j))
        = sum_n N (fun b => sum_n k (fun c => mget (fst ct) b c * mget d b c))).
Proof.
  intros N k u1 u2 g d HN Hk Hu1 Hu2 Hg Hd ct.
  assert (Hfwd : StfnTraining.covariance_fwd u1 u2
                 = (StfnTraining.covariance u1 u2, (u1, u2, N))).
  { unfold StfnTraining.covariance_fwd. rewrite (rows_wf N k u1 Hu1). reflexivity. }
  assert (Hct : ct = (mdiv (dot u2 g) (INR N), mdiv (dot u1 g) (INR N))).
  { unfold ct. rewrite Hfwd. reflexivity. }
  assert (H2 : sum_n k (fun i => sum_n k (fun j =>
                  mget g i j * mget (StfnTraining.covariance u1 d) i j))
               = sum_n N (fun b => sum_n k (fun c => mget (snd ct) b c * mget d b c))).
  { rewrite Hct. cbn [snd].
    transitivity (sum_n k (fun a => sum_n k (fun c => sum_n N (fun b =>
                    mget g a c * mget u1 b a * mget d b c / INR N)))).
    - apply sum_n_ext. intros a Ha. apply sum_n_ext. intros c Hc.
      rewrite (mget_covariance N k k) by assumption.
      rewrite sum_n_div. unfold Rdiv.
      rewrite <- Rmult_assoc. f_equal.
      rewrite <- sum_n_scal_l. apply sum_n_ext. intros b _. ring.
    - rewrite CovarianceFacts.sum3_rotate.
      apply sum_n_ext. intros b Hb. apply sum_n_ext. intros c Hc.
      rewrite (CovarianceFacts.mget_dot_div N k) by assumption.
      rewrite sum_n_div. unfold Rdiv.
      rewrite (Rmult_comm (sum_n k _ * / INR N)), <- Rmult_assoc. f_equal.
      rewrite <- sum_n_scal_l. apply sum_n_ext. intros a _. ring. }
  assert (H1 : sum_n k (fun i => sum_n k (fun j =>
                  mget g j i * mget (StfnTraining.covariance d u2) i j))
               = sum_n N (fun b => sum_n k (fun c => mget (fst ct) b c * mget d b c))).
  { rewrite Hct. cbn [fst].
    transitivity (sum_n k (fun c => sum_n k (fun a => sum_n N (fun b =>
                    mget g a c * mget u2 b a * mget d b c / INR N)))).
    - apply sum_n_ext. intros c Hc. apply sum_n_ext. intros a Ha.
      rewrite (mget_covariance N k k) by assumption.
      rewrite sum_n_div. unfold Rdiv.
      rewrite <- Rmult_assoc. f_equal.
      rewrite <- sum_n_scal_l. apply sum_n_ext. intros b _. ring.
    - rewrite sum_n_swap. rewrite CovarianceFacts.sum3_rotate.
      apply sum_n_ext. intros b Hb. apply sum_n_ext. intros c Hc.
      rewrite (CovarianceFacts.mget_dot_div N k) by assumption.
      rewrite sum_n_div. unfold Rdiv.
      rewrite (Rmult_comm (sum_n k _ * / INR N)), <- Rmult_assoc. f_equal.
      rewrite <- sum_n_scal_l. apply sum_n_ext. intros a _. ring. }
  split; [exact Hfwd|]. split; [exact H2|]. split; [exact H1|].
  intros Hsym. rewrite <- H1.
  apply sum_n_ext. intros i Hi. apply sum_n_ext. intros j Hj.
  rewrite (Hsym i j Hi Hj). reflexivity.
Qed.

Lemma covariance_backward_rule_witness :
  sum_n 1 (fun i => sum_n 1 (fun j =>
     mget [[3]] i j * mget (StfnTraining.covariance [[2]] [[5]]) i j))
  = sum_n 1 (fun b => sum_n 1 (fun c =>
       mget (snd (StfnTraining.covariance_bwd
                    (snd (StfnTraining.covariance_fwd [[2]] [[7]])) [[3]])) b c
       * mget [[5]] b c))
  /\ sum_n 1 (fun i => sum_n 1 (fun j =>
        mget [[3]] i j * mget (StfnTraining.covariance [[5]] [[7]]) i j))
     = sum_n 1 (fun b => sum_n 1 (fun c =>
          mget (fst (StfnTraining.covariance_bwd
                       (snd (StfnTraining.covariance_fwd [[2]] [[7]])) [[3]])) b c
          * mget [[5]] b c)).
Proof.
  destruct (covariance_backward_rule 1 1 [[2]] [[7]] [[3]] [[5]]) as [_ [H [_ Hs]]].
  - lia.
  - lia.
  - apply wf_1x1.
  - apply wf_1x1.
  - apply wf_1x1.
  - apply wf_1x1.
  - split; [exact H|]. apply Hs. apply JaxExampleFacts.sym_1x1.
Defined.

(** X14 (stfn_training.py [train_step], jax_spin.py [masked_gradients]).  On
    the same network outputs and the same Jacobian of the network, the
    per-batch covariance Jacobian that stfn_training.py feeds to its moving
    average is 2/N times the one that jax_spin.py feeds to its own. *)
Theorem covariance_jacobian_of_the_two_variants :
  forall (N k r : nat) (u : matrix) (x : tensor3),
    (0 < N)%nat -> (0 < k)%nat -> wf_matrix N k u -> wf_tensor3 N k r x ->
    StfnTraining.jacrev_sigma u x
    = tscale (2 / INR N) (tensordot_1 (transpose u) x).
Proof.
  intros N k r u x HN Hk Hu Hx.
  assert (Ht : wf_tensor3 k k r (tensordot_1 (transpose u) x)).
  { apply (wf_tensordot_1 k N k r); try assumption. apply wf_transpose; assumption. }
  apply (tensor3_ext k k r).
  - apply (GradientFacts.wf_jacrev_sigma N); assumption.
  - apply wf_tscale. exact Ht.
  - intros i j p Hi Hj Hp.
    rewrite (GradientFacts.tget_jacrev_sigma N k r) by assumption.
    rewrite tget_tscale.
    rewrite (tget_tensordot_1 k N k r)
      by (try assumption; apply wf_transpose; assumption).
    rewrite (sum_n_ext N (fun b => mget (transpose u) i b * tget x b j p)
               (fun b => mget u b i * tget x b j p)).
    + unfold Rdiv. ring.
    + intros b Hb. rewrite (mget_transpose N k) by assumption. reflexivity.
Qed.

Lemma covariance_jacobian_of_the_two_variants_witness :
  StfnTraining.jacrev_sigma [[2]] [[[1]]]
  = tscale (2 / INR 1) (tensordot_1 (transpose [[2]]) [[[1]]]).
Proof.
  apply (covariance_jacobian_of_the_two_variants 1 1 1).
  - lia.
  - lia.
  - apply wf_1x1.
  - apply wf_1x1x1.
Defined.

(** ** jax_spin.py: the network *)

Module MlpFacts.
Import JaxSpinNet.

Lemma sigmoid_range (x : R) : 0 < sigmoid x < 1.
Proof.
  unfold sigmoid. pose proof (exp_pos (- x)) as He.
  split.
  - apply Rdiv_lt_0_compat; lra.
  - apply (Rmult_lt_reg_r (1 + exp (- x))); [lra|].
    unfold Rdiv. rewrite Rmult_assoc, Rinv_l by lra. lra.
Qed.

Lemma MLP_apply_one (W : matrix) (b : vector) (x : matrix) :
  MLP_apply [(W, b)] x = Py.Ok (dot x W).
Proof. reflexivity. Qed.

Lemma MLP_apply_cons (W : matrix) (b : vector) (p : matrix * vector)
      (ps : list (matrix * vector)) (x : matrix) :
  MLP_apply ((W, b) :: p :: ps) x = MLP_apply (p :: ps) (sigmoid_all (dot x W)).
Proof. reflexivity. Qed.

Lemma MLP_apply_point_cons (W : matrix) (b : vector) (p : matrix * vector)
      (ps : list (matrix * vector)) (x : vector) :
  MLP_apply_point ((W, b) :: p :: ps) x
  = MLP_apply_point (p :: ps) (map sigmoid (vdot x W)).
Proof. reflexivity. Qed.

Lemma MLP_apply_snoc (ps : list (matrix * vector)) (W : matrix) (b : vector)
      (x : matrix) :
  MLP_apply (ps ++ [(W, b)]) x = Py.Ok (dot (hidden ps x) W).
Proof.
  revert x. induction ps as [|[W0 b0] ps IH]; intros x; [reflexivity|].
  destruct ps as [|p ps].
  - reflexivity.
  - change (((W0, b0) :: p :: ps) ++ [(W, b)])
      with ((W0, b0) :: p :: (ps ++ [(W, b)])).
    rewrite MLP_apply_cons. apply (IH (sigmoid_all (dot x W0))).
Qed.

Lemma hidden_snoc (ps : list (matrix * vector)) (W : matrix) (b : vector) (x : matrix) :
  hidden (ps ++ [(W, b)]) x = sigmoid_all (dot (hidden ps x) W).
Proof.
  revert x. induction ps as [|[W0 b0] ps IH]; intros x; [reflexivity|].
  cbn [app hidden]. apply IH.
Qed.

(** The biases are never read. *)
Lemma MLP_apply_fst :
  forall (params params' : list (matrix * vector)) (x : matrix),
    map fst params = map fst params' ->
    MLP_apply params x = MLP_apply params' x.
Proof.
  induction params as [|[W b] ps IH]; intros params' x H.
  - destruct params'; [reflexivity|discriminate].
  - destruct params' as [|[W' b'] ps']; [discriminate|].
    cbn [map fst] in H. injection H as <- H.
    destruct ps as [|p ps]; destruct ps' as [|p' ps']; try discriminate.
    + reflexivity.
    + rewrite !MLP_apply_cons. apply IH. exact H.
Qed.

Lemma rows_of_dot (A B : matrix) : rows (dot A B) = rows A.
Proof. apply length_mk_matrix. Qed.

Lemma rows_sigmoid_all (x : matrix) : rows (sigmoid_all x) = rows x.
Proof. apply length_map. Qed.

Lemma MLP_apply_rows :
  forall (params : list (matrix * vector)) (x : matrix),
    params <> [] ->
    exists out, MLP_apply params x = Py.Ok out /\ rows out = rows x.
Proof.
  induction params as [|[W b] ps IH]; intros x Hne; [contradiction|].
  destruct ps as [|p ps].
  - exists (dot x W). split; [reflexivity|apply rows_of_dot].
  - rewrite MLP_apply_cons.
    destruct (IH (sigmoid_all (dot x W))) as [out [Ho Hr]]; [discriminate|].
    exists out. split; [exact Ho|].
    rewrite Hr, rows_sigmoid_all. apply rows_of_dot.
Qed.

Lemma mget_sigmoid_all (N q : nat) (x : matrix) (b j : nat) :
  wf_matrix N q x -> (b < N)%nat -> (j < q)%nat ->
  mget (sigmoid_all x) b j = sigmoid (mget x b j).
Proof.
  intros [Hl Hf] Hb Hj. unfold mget, sigmoid_all.
  rewrite (nth_map_lt (map sigmoid) x b [] []) by lia.
  apply nth_map_lt.
  pose proof (wf_matrix_nth N q x b (conj Hl Hf) Hb) as Hr. unfold wf_vector in Hr. lia.
Qed.

Lemma wf_sigmoid_all (N q : nat) (x : matrix) :
  wf_matrix N q x -> wf_matrix N q (sigmoid_all x).
Proof.
  intros [Hl Hf]. split.
  - unfold sigmoid_all. rewrite length_map. exact Hl.
  - unfold sigmoid_all. apply Forall_map.
    eapply Forall_impl; [|exact Hf].
    intros r Hr. unfold wf_vector in *. rewrite length_map. exact Hr.
Qed.

Lemma sum_n_abs_le (n : nat) (f g : nat -> R) :
  (forall i, (i < n)%nat -> Rabs (f i) <= g i) ->
  Rabs (sum_n n f) <= sum_n n g.
Proof.
  induction n as [|n IH]; intros H.
  - simpl. rewrite Rabs_R0. lra.
  - cbn [sum_n].
    eapply Rle_trans; [apply Rabs_triang|].
    apply Rplus_le_compat; [apply IH; intros i Hi; apply H; lia|apply H; lia].
Qed.

(** Row [b] of a product is the product of row [b]. *)
Lemma nth_dot (N q : nat) (x W : matrix) (b : nat) :
  wf_matrix N q x -> (b < N)%nat ->
  nth b (dot x W) [] = vdot (nth b x []) W.
Proof.
  intros Hx Hb. unfold dot, vdot.
  rewrite nth_mk_matrix by (rewrite (rows_wf N q x Hx); exact Hb).
  pose proof (wf_matrix_nth N q x b Hx Hb) as Hr. unfold wf_vector in Hr.
  rewrite (cols_wf N q x Hx) by lia. rewrite Hr. reflexivity.
Qed.

Lemma wf_dot_any (N q : nat) (x W : matrix) :
  wf_matrix N q x -> wf_matrix N (cols W) (dot x W).
Proof.
  intros Hx. unfold dot. rewrite (rows_wf N q x Hx). apply wf_mk_matrix.
Qed.

Lemma nth_sigmoid_all (x : matrix) (b : nat) :
  nth b (sigmoid_all x) [] = map sigmoid (nth b x []).
Proof. unfold sigmoid_all. apply nth_map_default. reflexivity. Qed.

Lemma MLP_apply_row :
  forall (params : list (matrix * vector)) (N q : nat) (x out : matrix) (b : nat),
    wf_matrix N q x -> (b < N)%nat ->
    MLP_apply params x = Py.Ok out ->
    MLP_apply_point params (nth b x []) = Py.Ok (nth b out []).
Proof.
  induction params as [|[W bias] ps IH]; intros N q x out b Hx Hb H; [discriminate|].
  destruct ps as [|p ps].
  - cbn in H. injection H as <-. cbn. f_equal. symmetry. apply (nth_dot N q); assumption.
  - rewrite MLP_apply_cons in H. rewrite MLP_apply_point_cons.
    rewrite <- (nth_dot N q x W b Hx Hb), <- nth_sigmoid_all.
    apply (IH N (cols W) (sigmoid_all (dot x W)) out b); try assumption.
    apply wf_sigmoid_all. apply (wf_dot_any N q). exact Hx.
Qed.

(** The mask of a point is 0.1 times the product of its factors. *)
Lemma bump_nonneg (x : R) : 0 <= bump x.
Proof. unfold bump. apply Rmax_r. Qed.

Lemma bump_zero (x : R) : x <= 0 \/ PI <= x -> bump x = 0.
Proof.
  intros H. unfold bump. apply Rmax_right.
  pose proof PI_RGT_0 as Hpi.
  replace (- x ^ 2 + PI * x) with (x * (PI - x)) by ring.
  destruct H as [H|H]; nra.
Qed.

Lemma bump_pos (x : R) : 0 < x < PI -> 0 < bump x <= PI * PI / 4.
Proof.
  intros H. unfold bump.
  assert (Hp : 0 < - x ^ 2 + PI * x).
  { replace (- x ^ 2 + PI * x) with (x * (PI - x)) by ring.
    apply Rmult_lt_0_compat; lra. }
  rewrite Rmax_left by lra. split; [exact Hp|].
  assert (Hsq : 0 <= (x - PI / 2) * (x - PI / 2)) by apply Rle_0_sqr.
  nra.
Qed.

Lemma fold_mask (point : vector) (c : R) :
  fold_left (fun mask x => mask * bump x) point c
  = c * fold_left (fun mask x => mask * bump x) point 1.
Proof.
  revert c. induction point as [|x rest IH]; intros c.
  - simpl. ring.
  - cbn [fold_left]. rewrite (IH (c * bump x)), (IH (1 * bump x)). ring.
Qed.

Lemma mask_of_cons (x : R) (rest : vector) :
  mask_of (x :: rest) = bump x * mask_of rest.
Proof.
  unfold mask_of. cbn [fold_left].
  rewrite (fold_mask rest (1 / 10 * bump x)), (fold_mask rest (1 / 10)). ring.
Qed.

Lemma mask_of_nonneg (point : vector) : 0 <= mask_of point.
Proof.
  induction point as [|x rest IH].
  - unfold mask_of. simpl. lra.
  - rewrite mask_of_cons. apply Rmult_le_pos; [apply bump_nonneg|exact IH].
Qed.

Lemma mask_of_zero (point : vector) :
  (exists x, In x point /\ (x <= 0 \/ PI <= x)) -> mask_of point = 0.
Proof.
  induction point as [|y rest IH]; intros [x [Hin Hx]]; [destruct Hin|].
  rewrite mask_of_cons. destruct Hin as [->|Hin].
  - rewrite (bump_zero x Hx). ring.
  - rewrite IH by (exists x; split; assumption). ring.
Qed.

Lemma mask_of_pos (point : vector) :
  Forall (fun x => 0 < x < PI) point ->
  0 < mask_of point <= 1 / 10 * (PI * PI / 4) ^ length point.
Proof.
  induction 1 as [|x rest Hx _ IH].
  - unfold mask_of. simpl. lra.
  - rewrite mask_of_cons. cbn [length pow].
    pose proof (bump_pos x Hx) as [Hb1 Hb2]. destruct IH as [IH1 IH2].
    split; [apply Rmult_lt_0_compat; assumption|].
    replace (1 / 10 * (PI * PI / 4 * (PI * PI / 4) ^ length rest))
      with (PI * PI / 4 * (1 / 10 * (PI * PI / 4) ^ length rest)) by ring.
    apply Rmult_le_compat; lra.
Qed.

Lemma nth_apply_mask_batch (inputs outputs : matrix) (b : nat) :
  (b < length inputs)%nat -> (b < length outputs)%nat ->
  nth b (apply_mask_batch inputs outputs) []
  = vscale (mask_of (nth b inputs [])) (nth b outputs []).
Proof.
  intros Hi Ho. unfold apply_mask_batch.
  rewrite (nth_map2 (fun point row => vscale (mask_of point) row)
             inputs outputs b [] [] []) by assumption.
  reflexivity.
Qed.

End MlpFacts.

Module MlpMore.
Import JaxSpinNet.

Lemma sigmoid_all_range (x : matrix) :
  Forall (Forall (fun y => 0 < y < 1)) (sigmoid_all x).
Proof.
  unfold sigmoid_all. apply Forall_forall. intros row Hrow.
  apply in_map_iff in Hrow as [row0 [<- _]].
  apply Forall_forall. intros y Hy.
  apply in_map_iff in Hy as [z [<- _]]. apply MlpFacts.sigmoid_range.
Qed.

Lemma hidden_range (ps : list (matrix * vector)) (x : matrix) :
  ps <> [] -> Forall (Forall (fun y => 0 < y < 1)) (hidden ps x).
Proof.
  intros Hne. destruct (exists_last Hne) as [ps' [[W b] ->]].
  rewrite MlpFacts.hidden_snoc. apply sigmoid_all_range.
Qed.

Lemma mget_in_range (N q : nat) (h : matrix) (P : R -> Prop) (r p : nat) :
  wf_matrix N q h -> Forall (Forall P) h -> (r < N)%nat -> (p < q)%nat ->
  P (mget h r p).
Proof.
  intros [Hl Hf] HP Hr Hp. unfold mget.
  assert (Hrow : In (nth r h []) h) by (apply nth_In; lia).
  pose proof (proj1 (Forall_forall _ _) HP _ Hrow) as HPr.
  pose proof (proj1 (Forall_forall _ _) Hf _ Hrow) as Hlen. unfold wf_vector in Hlen.
  apply (proj1 (Forall_forall _ _) HPr). apply nth_In. lia.
Qed.

Lemma net_u_inv (params : list (matrix * vector)) (inputs out : matrix) :
  net_u params inputs = Py.Ok out ->
  exists o, MLP_apply params inputs = Py.Ok o
            /\ out = apply_mask_batch inputs o /\ rows o = rows inputs.
Proof.
  unfold net_u. intros H.
  destruct (MLP_apply params inputs) as [o| |] eqn:E; try discriminate.
  injection H as <-. exists o. split; [reflexivity|]. split; [reflexivity|].
  destruct params as [|p ps]; [discriminate|].
  destruct (MlpFacts.MLP_apply_rows (p :: ps) inputs) as [o' [E' Hr]]; [discriminate|].
  rewrite E in E'. injection E' as ->. exact Hr.
Qed.

End MlpMore.

(** X15 (jax_spin.py, [MLP.apply]).  The biases that [MLP.init] creates are
    never used: two parameter lists with the same weight matrices give the
    same network, whatever their biases. *)
Theorem mlp_biases_are_never_used :
  forall (params params' : list (matrix * vector)) (inputs : matrix),
    map fst params = map fst params' ->
    JaxSpinNet.MLP_apply params inputs = JaxSpinNet.MLP_apply params' inputs
    /\ JaxSpinNet.net_u params inputs = JaxSpinNet.net_u params' inputs.
Proof.
  intros params params' inputs H.
  pose proof (MlpFacts.MLP_apply_fst params params' inputs H) as E.
  split; [exact E|]. unfold JaxSpinNet.net_u. rewrite E. reflexivity.
Qed.

Lemma mlp_biases_are_never_used_witness :
  JaxSpinNet.MLP_apply MoreExamples.mlp_2 [[3]]
  = JaxSpinNet.MLP_apply [([[1]], [0]); ([[2]], [0])] [[3]].
Proof.
  apply (mlp_biases_are_never_used MoreExamples.mlp_2 [([[1]], [0]); ([[2]], [0])] [[3]]).
  reflexivity.
Defined.

(** X16 (jax_spin.py, [MLP.apply]).  With two or more layers every output is
    bounded by the weights of the last layer alone: the hidden activations
    are sigmoids, so the output number j lies within the sum of the absolute
    values of column j of the last weight matrix, whatever the input. *)
Theorem mlp_output_is_bounded :
  forall (ps : list (matrix * vector)) (W : matrix) (b : vector) (inputs : matrix)
         (N q k : nat),
    ps <> [] -> (0 < q)%nat ->
    wf_matrix N q (JaxSpinNet.hidden ps inputs) -> wf_matrix q k W ->
    exists out,
      JaxSpinNet.MLP_apply (ps ++ [(W, b)]) inputs = Py.Ok out
      /\ forall r j, (r < N)%nat -> (j < k)%nat ->
           Rabs (mget out r j) <= sum_n q (fun p => Rabs (mget W p j)).
Proof.
  intros ps W b inputs N q k Hne Hq Hh HW.
  exists (dot (JaxSpinNet.hidden ps inputs) W).
  split; [apply MlpFacts.MLP_apply_snoc|].
  intros r j Hr Hj.
  rewrite (mget_dot N q k) by assumption.
  apply MlpFacts.sum_n_abs_le. intros p Hp.
  pose proof (MlpMore.mget_in_range N q _ _ r p Hh (MlpMore.hidden_range ps inputs Hne)
                Hr Hp) as [H0 H1].
  rewrite Rabs_mult, (Rabs_right (mget _ r p)) by lra.
  pose proof (Rabs_pos (mget W p j)). nra.
Qed.

Lemma mlp_output_is_bounded_witness :
  exists out,
    JaxSpinNet.MLP_apply MoreExamples.mlp_2 [[3]] = Py.Ok out
    /\ Rabs (mget out 0 0) <= sum_n 1 (fun p => Rabs (mget [[2]] p 0)).
Proof.
  destruct (mlp_output_is_bounded [([[1]], [5])] [[2]] [7] [[3]] 1 1 1)
    as [out [H Hb]].
  - discriminate.
  - lia.
  - split; [reflexivity|]. repeat constructor.
  - apply wf_1x1.
  - exists out. split; [exact H|]. apply Hb; lia.
Defined.

(** X17 (jax_spin.py, [SpIN.apply_mask] and [SpIN.net_u]).  At a point of
    the batch with a coordinate that is not inside the open interval (0, pi)
    every output of [net_u] is zero, whatever the parameters: the boundary
    condition on the box [0, pi]^d is built in. *)
Theorem net_u_vanishes_outside_the_box :
  forall (params : list (matrix * vector)) (inputs out : matrix) (r : nat),
    JaxSpinNet.net_u params inputs = Py.Ok out ->
    (r < rows inputs)%nat ->
    (exists x, In x (nth r inputs []) /\ (x <= 0 \/ PI <= x)) ->
    Forall (fun y => y = 0) (nth r out []).
Proof.
  intros params inputs out r H Hr Hx.
  destruct (MlpMore.net_u_inv params inputs out H) as [o [_ [-> Hrows]]].
  rewrite MlpFacts.nth_apply_mask_batch by (unfold rows in *; lia).
  rewrite (MlpFacts.mask_of_zero _ Hx).
  unfold vscale. apply Forall_map, Forall_forall. intros y _. ring.
Qed.

Lemma net_u_vanishes_outside_the_box_witness :
  exists out,
    JaxSpinNet.net_u MoreExamples.mlp_2 [[0]] = Py.Ok out
    /\ Forall (fun y => y = 0) (nth 0 out []).
Proof.
  eexists. split; [reflexivity|].
  apply (net_u_vanishes_outside_the_box MoreExamples.mlp_2 [[0]] _ 0 eq_refl).
  - simpl. lia.
  - exists 0. split; [left; reflexivity|]. left. lra.
Defined.

(** X18 (jax_spin.py, [SpIN.apply_mask] and [SpIN.net_u]).  At a point whose
    coordinates all lie inside (0, pi) the output of [net_u] is the output
    of the network times a positive factor, at most 0.1 (pi^2/4)^d for d
    coordinates. *)
Theorem net_u_keeps_the_sign_inside_the_box :
  forall (params : list (matrix * vector)) (inputs out : matrix) (r : nat),
    JaxSpinNet.net_u params inputs = Py.Ok out ->
    (r < rows inputs)%nat ->
    Forall (fun x => 0 < x < PI) (nth r inputs []) ->
    exists o mask,
      JaxSpinNet.MLP_apply params inputs = Py.Ok o
      /\ 0 < mask <= 1 / 10 * (PI * PI / 4) ^ length (nth r inputs [])
      /\ nth r out [] = vscale mask (nth r o []).
Proof.
  intros params inputs out r H Hr Hx.
  destruct (MlpMore.net_u_inv params inputs out H) as [o [Ho [-> Hrows]]].
  exists o, (JaxSpinNet.mask_of (nth r inputs [])).
  split; [exact Ho|]. split; [apply MlpFacts.mask_of_pos; exact Hx|].
  apply MlpFacts.nth_apply_mask_batch; unfold rows in *; lia.
Qed.

Lemma net_u_keeps_the_sign_inside_the_box_witness :
  exists out o mask,
    JaxSpinNet.net_u MoreExamples.mlp_2 [[1]] = Py.Ok out
    /\ JaxSpinNet.MLP_apply MoreExamples.mlp_2 [[1]] = Py.Ok o
    /\ 0 < mask
    /\ nth 0 out [] = vscale mask (nth 0 o []).
Proof.
  destruct (net_u_keeps_the_sign_inside_the_box MoreExamples.mlp_2 [[1]] _ 0 eq_refl)
    as [o [mask [Ho [[Hm _] Hrow]]]].
  - simpl. lia.
  - constructor; [|constructor]. pose proof PI2_3_2. pose proof PI_RGT_0. lra.
  - eexists. exists o, mask. split; [reflexivity|]. split; [exact Ho|].
    split; [exact Hm|exact Hrow].
Defined.

(** X19 (jax_spin.py, [MLP.apply], [SpIN.apply_mask], [SpIN.net_u]).  The
    network acts on the points of a batch one by one: row r of [net_u] on a
    batch is [net_u] on the point in row r, which is what the per-point
    differentiation under [vmap] relies on. *)
Theorem net_u_acts_pointwise :
  forall (params : list (matrix * vector)) (N q : nat) (inputs out : matrix) (r : nat),
    wf_matrix N q inputs -> (r < N)%nat ->
    JaxSpinNet.net_u params inputs = Py.Ok out ->
    JaxSpinNet.net_u_point params (nth r inputs []) = Py.Ok (nth r out []).
Proof.
  intros params N q inputs out r Hx Hr H.
  destruct (MlpMore.net_u_inv params inputs out H) as [o [Ho [-> Hrows]]].
  unfold JaxSpinNet.net_u_point.
  rewrite (MlpFacts.MLP_apply_row params N q inputs o r Hx Hr Ho).
  rewrite MlpFacts.nth_apply_mask_batch
    by (unfold rows in *; rewrite ?Hrows; rewrite (proj1 Hx); exact Hr).
  reflexivity.
Qed.

Lemma net_u_acts_pointwise_witness :
  exists out,
    JaxSpinNet.net_u MoreExamples.mlp_2 [[1]; [2]] = Py.Ok out
    /\ JaxSpinNet.net_u_point MoreExamples.mlp_2 [2] = Py.Ok (nth 1 out []).
Proof.
  eexists. split; [reflexivity|].
  apply (net_u_acts_pointwise MoreExamples.mlp_2 2 1 [[1]; [2]] _ 1).
  - split; [reflexivity|]. repeat constructor.
  - lia.
  - reflexivity.
Defined.

(** ** jax_spin.py: the exact solution *)

Module ExactFacts.

Lemma efun_derive_1 (i : Z) (t : R) :
  derivable_pt_lim (JaxSpinNet.efun i) t (sqrt (2 / PI) * (IZR i * cos (IZR i * t))).
Proof.
  replace (sqrt (2 / PI) * (IZR i * cos (IZR i * t)))
    with (sqrt (2 / PI) * (cos (IZR i * t) * (IZR i * 1))) by ring.
  apply (derivable_pt_lim_scal (comp sin (mult_real_fct (IZR i) id)) (sqrt (2 / PI)) t).
  apply (derivable_pt_lim_comp (mult_real_fct (IZR i) id) sin t).
  - apply derivable_pt_lim_scal. apply derivable_pt_lim_id.
  - apply derivable_pt_lim_sin.
Qed.

Lemma efun_derive_2 (i : Z) (t : R) :
  derivable_pt_lim (fun t => sqrt (2 / PI) * (IZR i * cos (IZR i * t))) t
    (IZR (- i ^ 2) * JaxSpinNet.efun i t).
Proof.
  replace (IZR (- i ^ 2) * JaxSpinNet.efun i t)
    with (sqrt (2 / PI) * (IZR i * (- sin (IZR i * t) * (IZR i * 1)))).
  - apply (derivable_pt_lim_scal
             (mult_real_fct (IZR i) (comp cos (mult_real_fct (IZR i) id)))
             (sqrt (2 / PI)) t).
    apply (derivable_pt_lim_scal (comp cos (mult_real_fct (IZR i) id)) (IZR i) t).
    apply (derivable_pt_lim_comp (mult_real_fct (IZR i) id) cos t).
    + apply derivable_pt_lim_scal. apply derivable_pt_lim_id.
    + apply derivable_pt_lim_cos.
  - unfold JaxSpinNet.efun. rewrite opp_IZR.
    replace (i ^ 2)%Z with (i * i)%Z by ring. rewrite mult_IZR. ring.
Qed.

Lemma efun_zero (i : Z) : JaxSpinNet.efun i 0 = 0 /\ JaxSpinNet.efun i PI = 0.
Proof.
  unfold JaxSpinNet.efun. split.
  - rewrite Rmult_0_r, sin_0. ring.
  - rewrite (sin_eq_0_1 (IZR i * PI)) by (exists i; reflexivity). ring.
Qed.

Lemma wrap64_small (z : Z) :
  (- 2 ^ 63 <= z < 2 ^ 63)%Z -> JaxSpinNet.wrap64 z = z.
Proof.
  intros Hz. unfold JaxSpinNet.wrap64.
  rewrite Z.mod_small by lia. lia.
Qed.

Lemma nth_idx (n j : nat) :
  (Z.of_nat n < 2 ^ 31)%Z -> (j < n)%nat ->
  nth j (map (fun i => JaxSpinNet.wrap64 (Z.of_nat i + 1)) (seq 0 n)) 0%Z
  = (Z.of_nat j + 1)%Z.
Proof.
  intros Hn Hj.
  rewrite (nth_map_lt (fun i => JaxSpinNet.wrap64 (Z.of_nat i + 1)) (seq 0 n) j O 0%Z)
    by (rewrite length_seq; exact Hj).
  rewrite seq_nth by exact Hj. apply wrap64_small. cbn [Nat.add]. lia.
Qed.

Lemma square_small (n j : nat) :
  (Z.of_nat n < 2 ^ 31)%Z -> (j < n)%nat ->
  JaxSpinNet.wrap64 (- JaxSpinNet.wrap64 ((Z.of_nat j + 1) ^ 2))
  = (- (Z.of_nat j + 1) ^ 2)%Z.
Proof.
  intros Hn Hj.
  assert (H1 : (0 < Z.of_nat j + 1 <= 2 ^ 31)%Z) by lia.
  assert (H2 : (0 <= (Z.of_nat j + 1) ^ 2 <= 2 ^ 62)%Z).
  { replace ((Z.of_nat j + 1) ^ 2)%Z with ((Z.of_nat j + 1) * (Z.of_nat j + 1))%Z by ring.
    change (2 ^ 62)%Z with (2 ^ 31 * 2 ^ 31)%Z. nia. }
  rewrite (wrap64_small ((Z.of_nat j + 1) ^ 2)) by lia.
  apply wrap64_small. lia.
Qed.

End ExactFacts.

(** X20 (jax_spin.py, [exact_eigenpairs_1d]).  On a column of points and for
    n below 2^31, where the 64-bit squares do not wrap, the function returns
    n eigenvalues and one row per point; the eigenvalue number j is
    -(j+1)^2, and there is one function for the column j, the same for every
    point, that vanishes at 0 and at pi, whose second derivative is that
    eigenvalue times the function, and whose values at the points of [x]
    are the entries of column j: the returned pairs solve the Dirichlet
    problem of the Laplacian on [0, pi]. *)
Theorem exact_eigenpairs_solve_the_problem :
  forall (x : matrix) (n j : nat),
    wf_matrix (rows x) 1 x -> (Z.of_nat n < 2 ^ 31)%Z -> (j < n)%nat ->
    let evals := fst (JaxSpinNet.exact_eigenpairs_1d x n) in
    let efuns := snd (JaxSpinNet.exact_eigenpairs_1d x n) in
    let lam := nth j evals 0%Z in
    length evals = n /\ rows efuns = rows x
    /\ lam = (- (Z.of_nat j + 1) ^ 2)%Z
    /\ exists u u' : R -> R,
         u 0 = 0 /\ u PI = 0
         /\ (forall t, derivable_pt_lim u t (u' t))
         /\ (forall t, derivable_pt_lim u' t (IZR lam * u t))
         /\ (forall b, (b < rows x)%nat ->
               mget efuns b j = u (vget (nth b x []) 0)).
Proof.
  intros x n j Hx Hn Hj evals efuns lam.
  assert (Hlam : lam = (- (Z.of_nat j + 1) ^ 2)%Z).
  { unfold lam, evals, JaxSpinNet.exact_eigenpairs_1d. cbn [fst].
    rewrite (nth_map_lt (fun i => JaxSpinNet.wrap64 (- JaxSpinNet.wrap64 (i ^ 2)))
               _ j 0%Z 0%Z)
      by (rewrite length_map, length_seq; exact Hj).
    rewrite ExactFacts.nth_idx by assumption.
    apply (ExactFacts.square_small n); assumption. }
  split; [|split; [|split; [exact Hlam|]]].
  - unfold evals, JaxSpinNet.exact_eigenpairs_1d. cbn [fst].
    rewrite !length_map. apply length_seq.
  - unfold efuns, JaxSpinNet.exact_eigenpairs_1d. cbn [snd]. apply length_map.
  - exists (JaxSpinNet.efun (Z.of_nat j + 1)),
           (fun t => sqrt (2 / PI)
                     * (IZR (Z.of_nat j + 1) * cos (IZR (Z.of_nat j + 1) * t))).
    split; [|split; [|split; [|split]]].
    + apply ExactFacts.efun_zero.
    + apply ExactFacts.efun_zero.
    + intros t. apply ExactFacts.efun_derive_1.
    + intros t. rewrite Hlam. apply ExactFacts.efun_derive_2.
    + intros b Hb. unfold efuns, JaxSpinNet.exact_eigenpairs_1d, mget. cbn [snd].
      rewrite (nth_map_lt _ x b [] []) by exact Hb.
      rewrite (nth_map_lt (fun i => JaxSpinNet.efun i (vget (nth b x []) 0)) _ j 0%Z 0)
        by (rewrite length_map, length_seq; exact Hj).
      rewrite ExactFacts.nth_idx by assumption. reflexivity.
Qed.

Lemma exact_eigenpairs_solve_the_problem_witness :
  (wf_matrix (rows ([[0]; [1]] : matrix)) 1 [[0]; [1]] /\ (Z.of_nat 2 < 2 ^ 31)%Z
   /\ (1 < 2)%nat)
  /\ nth 1 (fst (JaxSpinNet.exact_eigenpairs_1d [[0]; [1]] 2)) 0%Z
     = (- (Z.of_nat 1 + 1) ^ 2)%Z.
Proof.
  assert (Hx : wf_matrix (rows ([[0]; [1]] : matrix)) 1 [[0]; [1]]).
  { split; [reflexivity|]. repeat constructor. }
  split.
  - split; [exact Hx|]. split; [simpl; lia|lia].
  - destruct (exact_eigenpairs_solve_the_problem [[0]; [1]] 2 1) as [_ [_ [H _]]].
    + exact Hx.
    + simpl. lia.
    + lia.
    + exact H.
Defined.

(** ** backbone.py: the sparsifying masks *)

Module MaskFacts.
Import BackboneMasks.

Lemma Rleb_true (a b : R) : Rleb a b = true <-> a <= b.
Proof.
  unfold Rleb. destruct (Rle_dec a b) as [H|H]; split; intros H'; try assumption;
    try reflexivity; try discriminate; contradiction.
Qed.

Lemma length_bmk (m n : nat) (f : nat -> nat -> bool) : length (bmk m n f) = m.
Proof. unfold bmk. rewrite length_map. apply length_seq. Qed.

Lemma nth_bmk (m n : nat) (f : nat -> nat -> bool) (i : nat) :
  (i < m)%nat -> nth i (bmk m n f) [] = map (f i) (seq 0 n).
Proof.
  intros Hi. unfold bmk.
  rewrite (nth_map_lt (fun i => map (f i) (seq 0 n)) (seq 0 m) i O [])
    by (rewrite length_seq; exact Hi).
  rewrite seq_nth by exact Hi. reflexivity.
Qed.

Lemma bget_bmk (m n : nat) (f : nat -> nat -> bool) (i j : nat) :
  (i < m)%nat -> (j < n)%nat -> bget (bmk m n f) i j = f i j.
Proof.
  intros Hi Hj. unfold bget. rewrite nth_bmk by exact Hi.
  rewrite (nth_map_lt (f i) (seq 0 n) j O false) by (rewrite length_seq; exact Hj).
  rewrite seq_nth by exact Hj. reflexivity.
Qed.

Lemma bmk_ext (m n : nat) (f g : nat -> nat -> bool) :
  (forall i j, (i < m)%nat -> (j < n)%nat -> f i j = g i j) -> bmk m n f = bmk m n g.
Proof.
  intros H. unfold bmk. apply map_ext_in. intros i Hi. apply in_seq in Hi.
  apply map_ext_in. intros j Hj. apply in_seq in Hj. apply H; lia.
Qed.

Lemma map2_map {A B C D : Type} (h : B -> C -> D) (f : A -> B) (g : A -> C)
      (l : list A) :
  map2 h (map f l) (map g l) = map (fun x => h (f x) (g x)) l.
Proof. induction l as [|x l IH]; [reflexivity|]. cbn. rewrite IH. reflexivity. Qed.

Lemma bmk_op (op : bool -> bool -> bool) (m n : nat) (f g : nat -> nat -> bool) :
  map2 (map2 op) (bmk m n f) (bmk m n g) = bmk m n (fun i j => op (f i j) (g i j)).
Proof.
  unfold bmk. rewrite map2_map. apply map_ext. intros i. apply map2_map.
Qed.

Section Bands.
Variables (m n K l L : nat).

Lemma bands_some (ks : list nat) (f g : nat -> nat -> bool) :
  bands m n K l L ks (Some (bmk m n f, bmk m n g))
  = Some (bmk m n (fun i j => f i j || existsb (fun k => ii_in_bound m K l L k i) ks),
          bmk m n (fun i j => g i j || existsb (fun k => jj_in_bound n K l L k j) ks)).
Proof.
  revert f g. induction ks as [|k ks IH]; intros f g.
  - cbn [bands existsb]. f_equal. f_equal; apply bmk_ext; intros; apply eq_sym, orb_false_r.
  - cbn [bands existsb]. unfold logical_or. rewrite !bmk_op. rewrite IH.
    f_equal. f_equal; apply bmk_ext; intros; apply eq_sym, orb_assoc.
Qed.

Lemma bands_none (k : nat) (ks : list nat) :
  bands m n K l L (k :: ks) None
  = Some (bmk m n (fun i _ => existsb (fun k => ii_in_bound m K l L k i) (k :: ks)),
          bmk m n (fun _ j => existsb (fun k => jj_in_bound n K l L k j) (k :: ks))).
Proof. cbn [bands]. apply bands_some. Qed.

End Bands.

(** The mask in closed form. *)
Lemma mask_closed (W : matrix) (K l L : nat) :
  (2 <= K)%nat -> (1 <= L)%nat ->
  get_layer_sparsifying_mask W K l L
  = Py.Ok (bmk (rows W) (cols W)
             (fun i j =>
                existsb (fun k => ii_in_bound (rows W) K l L k i) (seq 0 K)
                && existsb (fun k => jj_in_bound (cols W) K l L k j) (seq 0 K))).
Proof.
  intros HK HL. unfold get_layer_sparsifying_mask.
  destruct (Nat.eqb_spec L 0) as [E|_]; [lia|].
  destruct (Nat.eqb_spec K 1) as [E|_]; [lia|].
  destruct K as [|K']; [lia|].
  cbn [seq]. rewrite bands_none. unfold logical_and. rewrite bmk_op. reflexivity.
Qed.

Lemma in_band_iff (K : nat) (f : nat -> bool) :
  existsb f (seq 0 K) = true <-> exists k, (k < K)%nat /\ f k = true.
Proof.
  rewrite existsb_exists. split; intros [k [H1 H2]]; exists k; split; try assumption.
  - apply in_seq in H1. lia.
  - apply in_seq. lia.
Qed.

(** The bands overlap and their union is the whole range when the step
    between two of them is at most their width. *)
Section Cover.
Variables (K l L : nat).
Hypothesis HK : (2 <= K)%nat.
Hypothesis HL : (1 <= L)%nat.
Hypothesis Hl : (l <= L)%nat.
Hypothesis Hstep : (l - 1 <= (K - 1) * (L + 1 - l))%nat.

Let D : R := INR K - 1.
Let c : R := (INR l - 1) / (D * INR L).

Lemma D_pos : 1 <= D.
Proof.
  unfold D. assert (H : INR 2 <= INR K) by (apply le_INR; exact HK).
  simpl in H. lra.
Qed.

Lemma L_pos : 1 <= INR L.
Proof. assert (H : INR 1 <= INR L) by (apply le_INR; exact HL). simpl in H. lra. Qed.

Lemma alpha_eq (k : nat) : alpha K l L k = INR k * c.
Proof.
  unfold alpha, c. fold D. pose proof D_pos. pose proof L_pos. field. split; lra.
Qed.

Lemma step_le_width : c <= beta l L.
Proof.
  pose proof D_pos as HD. pose proof L_pos as HLr.
  assert (Hreal : INR l - 1 <= D * (INR L + 1 - INR l)).
  { pose proof (le_INR _ _ Hl) as Hlr.
    destruct (Nat.eq_dec l 0) as [E|E].
    - rewrite E. simpl INR.
      assert (0 <= D * (INR L + 1 - 0)) by (apply Rmult_le_pos; lra). lra.
    - pose proof (le_INR _ _ Hstep) as Hs.
      rewrite mult_INR in Hs.
      rewrite (minus_INR l 1) in Hs by lia.
      rewrite (minus_INR K 1) in Hs by lia.
      rewrite (minus_INR (L + 1) l) in Hs by lia.
      rewrite plus_INR in Hs. simpl INR in Hs.
      unfold D. exact Hs. }
  unfold c, beta.
  apply (Rmult_le_reg_r (D * INR L)); [nra|].
  replace ((INR l - 1) / (D * INR L) * (D * INR L)) with (INR l - 1) by (field; split; lra).
  replace ((INR L - INR l + 1) / INR L * (D * INR L)) with (D * (INR L + 1 - INR l))
    by (field; lra).
  exact Hreal.
Qed.

Lemma last_band_top : INR (K - 1) * c + beta l L = 1.
Proof.
  pose proof D_pos as HD. pose proof L_pos as HLr.
  rewrite (minus_INR K 1) by lia. simpl INR. fold D.
  unfold c, beta. field. split; lra.
Qed.

Lemma covered (m i : nat) :
  (i < m)%nat ->
  exists k, (k < K)%nat /\ ii_in_bound m K l L k i = true.
Proof.
  intros Hi.
  assert (Him : INR i <= INR m) by (apply le_INR; lia).
  assert (Hm0 : 0 <= INR m) by apply pos_INR.
  assert (Hi0 : 0 <= INR i) by apply pos_INR.
  assert (Hband : forall k, alpha K l L k * INR m <= INR i ->
                   INR i <= (alpha K l L k + beta l L) * INR m ->
                   ii_in_bound m K l L k i = true).
  { intros k H1 H2. unfold ii_in_bound.
    apply andb_true_intro. split; apply Rleb_true; assumption. }
  assert (Hgo : forall d k, (k + d = K - 1)%nat -> alpha K l L k * INR m <= INR i ->
                  exists k', (k' < K)%nat /\ ii_in_bound m K l L k' i = true).
  { induction d as [|d IH]; intros k Hk Hlow.
    - exists k. split; [lia|]. apply Hband; [exact Hlow|].
      rewrite alpha_eq. replace k with (K - 1)%nat by lia.
      rewrite last_band_top. lra.
    - destruct (Rle_dec (alpha K l L (S k) * INR m) (INR i)) as [Hn|Hn].
      + apply (IH (S k)); [lia|exact Hn].
      + exists k. split; [lia|]. apply Hband; [exact Hlow|].
        apply Rnot_le_lt in Hn. rewrite alpha_eq in Hn. rewrite S_INR in Hn.
        rewrite alpha_eq. pose proof step_le_width as Hs.
        assert (Hle : (INR k + 1) * c * INR m <= (INR k * c + beta l L) * INR m).
        { apply Rmult_le_compat_r; [exact Hm0|]. lra. }
        lra. }
  apply (Hgo (K - 1)%nat O); [lia|].
  rewrite alpha_eq. simpl INR. lra.
Qed.

End Cover.

Lemma covered_cols (K l L n j : nat) :
  (2 <= K)%nat -> (1 <= L)%nat -> (l <= L)%nat ->
  (l - 1 <= (K - 1) * (L + 1 - l))%nat -> (j < n)%nat ->
  exists k, (k < K)%nat /\ jj_in_bound n K l L k j = true.
Proof. intros HK HL Hl Hs Hj. apply (covered K l L HK HL Hl Hs n j Hj). Qed.

End MaskFacts.

Module SparsifyFacts.
Import BackboneMasks.

Lemma map2_true (row : vector) :
  forall s n, length row = n ->
    map2 (fun x (b : bool) => x * (if b then 1 else 0)) row
         (map (fun _ : nat => true) (seq s n)) = row.
Proof.
  induction row as [|x row IH]; intros s n Hn; [reflexivity|].
  destruct n as [|n]; [discriminate|]. cbn. f_equal; [ring|].
  apply IH. simpl in Hn. lia.
Qed.

Lemma mul_rows_true (n : nat) (kernel : matrix) :
  Forall (wf_vector n) kernel ->
  forall s m, length kernel = m ->
    map2 (map2 (fun x (b : bool) => x * (if b then 1 else 0))) kernel
         (map (fun _ : nat => map (fun _ : nat => true) (seq 0 n)) (seq s m))
    = kernel.
Proof.
  induction 1 as [|row kernel Hrow _ IH]; intros s m Hl; [reflexivity|].
  destruct m as [|m]; [discriminate|]. cbn [seq map map2]. f_equal.
  - apply map2_true. exact Hrow.
  - apply IH. simpl in Hl. lia.
Qed.

Lemma mul_mask_all_true (m n : nat) (kernel : matrix) (f : nat -> nat -> bool) :
  wf_matrix m n kernel ->
  (forall i j, (i < m)%nat -> (j < n)%nat -> f i j = true) ->
  mul_mask kernel (bmk m n f) = kernel.
Proof.
  intros [Hl Hf] Ht.
  rewrite (MaskFacts.bmk_ext m n f (fun _ _ => true) Ht).
  unfold mul_mask, bmk. apply mul_rows_true; assumption.
Qed.

Lemma map2_idem {A B : Type} (h : A -> B -> A) (l : list A) (l' : list B) :
  (forall x b, h (h x b) b = h x b) ->
  map2 h (map2 h l l') l' = map2 h l l'.
Proof.
  intros H. revert l'. induction l as [|x l IH]; intros [|b l']; try reflexivity.
  cbn. rewrite H, IH. reflexivity.
Qed.

Lemma mul_mask_idem (kernel : matrix) (mask : bmatrix) :
  mul_mask (mul_mask kernel mask) mask = mul_mask kernel mask.
Proof.
  unfold mul_mask. apply map2_idem. intros row mrow.
  apply map2_idem. intros x b. destruct b; ring.
Qed.

Lemma mget_mul_mask (kernel : matrix) (mask : bmatrix) (i j : nat) :
  (i < length kernel)%nat -> (i < length mask)%nat ->
  (j < length (nth i kernel []))%nat -> (j < length (nth i mask []))%nat ->
  mget (mul_mask kernel mask) i j = if bget mask i j then mget kernel i j else 0.
Proof.
  intros Hi Hi' Hj Hj'. unfold mget, bget, mul_mask.
  rewrite (nth_map2 (map2 (fun x (b : bool) => x * (if b then 1 else 0)))
             kernel mask i [] [] []) by assumption.
  rewrite (nth_map2 (fun x (b : bool) => x * (if b then 1 else 0))
             (nth i kernel []) (nth i mask []) j 0 false 0) by assumption.
  destruct (nth j (nth i mask []) false); ring.
Qed.

Lemma step_condition (K L l : nat) :
  (2 <= K)%nat -> (L <= 2 * K)%nat -> (l < L)%nat ->
  (l - 1 <= (K - 1) * (L + 1 - l))%nat.
Proof.
  intros HK HL Hl.
  assert (H : ((K - 1) * 2 <= (K - 1) * (L + 1 - l))%nat)
    by (apply Nat.mul_le_mono_l; lia).
  lia.
Qed.

Lemma mask_all_true (W : matrix) (K l L : nat) :
  (2 <= K)%nat -> (1 <= L)%nat -> (l <= L)%nat ->
  (l - 1 <= (K - 1) * (L + 1 - l))%nat ->
  exists f,
    get_layer_sparsifying_mask W K l L = Py.Ok (bmk (rows W) (cols W) f)
    /\ forall i j, (i < rows W)%nat -> (j < cols W)%nat -> f i j = true.
Proof.
  intros HK HL Hl Hs. eexists. split; [apply MaskFacts.mask_closed; assumption|].
  intros i j Hi Hj. cbv beta. apply andb_true_intro. split.
  - apply MaskFacts.in_band_iff. apply (MaskFacts.covered K l L HK HL Hl Hs). exact Hi.
  - apply MaskFacts.in_band_iff. apply (MaskFacts.covered_cols K l L); assumption.
Qed.

Lemma masks_from_identity (K L : nat) :
  (2 <= K)%nat -> (L <= 2 * K)%nat ->
  forall (layers : list (string * matrix)) (l : nat),
    (l + length layers <= L)%nat ->
    Forall (fun kw => wf_matrix (rows (snd kw)) (cols (snd kw)) (snd kw)) layers ->
    exists masks,
      masks_from layers K l L = Py.Ok masks
      /\ length masks = length layers
      /\ sparsify_weights layers masks = layers.
Proof.
  intros HK HL layers. induction layers as [|[key kernel] rest IH]; intros l Hlen Hwf.
  - exists []. repeat split.
  - apply Forall_cons_iff in Hwf as [Hk Hrest]. cbn [snd] in Hk.
    cbn [length] in Hlen.
    destruct (mask_all_true kernel K l L) as [f [Hm Hf]]; try lia.
    { apply step_condition; lia. }
    destruct (IH (S l)) as [masks [Hms [Hlm Hsp]]]; [lia|exact Hrest|].
    exists (bmk (rows kernel) (cols kernel) f :: masks).
    cbn [masks_from]. rewrite Hm, Hms. split; [reflexivity|].
    split; [cbn [length]; rewrite Hlm; reflexivity|].
    cbn [sparsify_weights]. rewrite Hsp.
    rewrite (mul_mask_all_true _ _ kernel f Hk Hf). reflexivity.
Qed.

End SparsifyFacts.

(** X21 (backbone.py, [EigenNet.get_layer_sparsifying_mask] and
    [EigenNet.get_all_layer_sparsifying_masks]).  The mask function raises
    [ZeroDivisionError] when the number of layers L is 0 and when
    [sparsifing_K] is 1.  For an empty weight dictionary the list of masks is
    empty whatever [sparsifing_K]; for a weight dictionary with a layer and
    [sparsifing_K] = 1 the call raises [ZeroDivisionError]. *)
Theorem masks_divide_by_zero :
  forall (W : matrix) (sparsifing_K l L : nat) (key : string)
         (rest : list (string * matrix)),
    BackboneMasks.get_layer_sparsifying_mask W sparsifing_K l 0
    = Py.Err Py.ZeroDivisionError
    /\ BackboneMasks.get_layer_sparsifying_mask W 1 l L = Py.Err Py.ZeroDivisionError
    /\ BackboneMasks.get_all_layer_sparsifying_masks [] sparsifing_K = Py.Ok []
    /\ BackboneMasks.get_all_layer_sparsifying_masks ((key, W) :: rest) 1
       = Py.Err Py.ZeroDivisionError.
Proof.
  intros W K l L key rest.
  assert (H1 : forall l L, BackboneMasks.get_layer_sparsifying_mask W 1 l L
                           = Py.Err Py.ZeroDivisionError).
  { intros l0 L0. unfold BackboneMasks.get_layer_sparsifying_mask.
    destruct (Nat.eqb L0 0); reflexivity. }
  split; [reflexivity|]. split; [apply H1|]. split; [reflexivity|].
  unfold BackboneMasks.get_all_layer_sparsifying_masks.
  cbn [BackboneMasks.masks_from]. rewrite H1. reflexivity.
Qed.

(** X22 (backbone.py, [EigenNet.get_layer_sparsifying_mask]).  For
    [sparsifing_K] >= 2 and L >= 1 the call returns a mask of the shape of
    the kernel, and the entry (i, j) is [True] exactly when the row index i
    lies in one of the [sparsifing_K] row bands and the column index j lies
    in one of the column bands, not necessarily the band of the same pass.
    So the kept entries form a product of a set of rows with a set of
    columns: with (i, j) and (i', j') the mask keeps (i, j') too. *)
Theorem mask_is_rows_times_columns :
  forall (W : matrix) (K l L : nat),
    (2 <= K)%nat -> (1 <= L)%nat ->
    let m := rows W in
    let n := cols W in
    let a := BackboneMasks.alpha K l L in
    let b := BackboneMasks.beta l L in
    exists mask,
      BackboneMasks.get_layer_sparsifying_mask W K l L = Py.Ok mask
      /\ length mask = m
      /\ (forall i, (i < m)%nat -> length (nth i mask []) = n)
      /\ (forall i j, (i < m)%nat -> (j < n)%nat ->
            (BackboneMasks.bget mask i j = true
             <-> (exists k, (k < K)%nat
                            /\ a k * INR m <= INR i <= (a k + b) * INR m)
                 /\ (exists k, (k < K)%nat
                               /\ a k * INR n <= INR j <= (a k + b) * INR n)))
      /\ (forall i i' j j',
            (i < m)%nat -> (i' < m)%nat -> (j < n)%nat -> (j' < n)%nat ->
            BackboneMasks.bget mask i j = true ->
            BackboneMasks.bget mask i' j' = true ->
            BackboneMasks.bget mask i j' = true).
Proof.
  intros W K l L HK HL m n a b.
  eexists. split; [apply MaskFacts.mask_closed; assumption|].
  fold m n.
  split; [apply MaskFacts.length_bmk|].
  split.
  { intros i Hi. rewrite MaskFacts.nth_bmk by exact Hi.
    rewrite length_map. apply length_seq. }
  assert (Hband : forall (q : nat) (k i : nat),
             (BackboneMasks.Rleb (a k * INR q) (INR i)
              && BackboneMasks.Rleb (INR i) ((a k + b) * INR q) = true)
             <-> a k * INR q <= INR i <= (a k + b) * INR q).
  { intros q k i. rewrite andb_true_iff, !MaskFacts.Rleb_true. reflexivity. }
  split.
  - intros i j Hi Hj. rewrite MaskFacts.bget_bmk by assumption.
    rewrite andb_true_iff, !MaskFacts.in_band_iff.
    split; intros [[k [Hk H1]] [k' [Hk' H2]]]; (split; [exists k|exists k']);
      (split; [assumption|]); apply (Hband _ _ _); assumption.
  - intros i i' j j' Hi Hi' Hj Hj'.
    rewrite !MaskFacts.bget_bmk by assumption.
    rewrite !andb_true_iff. intros [H1 _] [_ H2]. split; assumption.
Qed.

Lemma mask_is_rows_times_columns_witness :
  exists mask,
    BackboneMasks.get_layer_sparsifying_mask [[1; 2]; [3; 4]] 3 2 4 = Py.Ok mask
    /\ length mask = 2%nat.
Proof.
  destruct (mask_is_rows_times_columns [[1; 2]; [3; 4]] 3 2 4) as [mask [H [Hl _]]].
  - lia.
  - lia.
  - exists mask. split; [exact H|exact Hl].
Defined.

(** X23 (backbone.py, [EigenNet.get_layer_sparsifying_mask]).  When the step
    from one band to the next is at most the width of a band,
    l - 1 <= (sparsifing_K - 1) (L - l + 1), the bands cover every row and
    every column and the mask is [True] everywhere; this holds in particular
    for the layers number 0 and 1. *)
Theorem mask_keeps_everything_when_bands_overlap :
  forall (W : matrix) (K l L : nat),
    (2 <= K)%nat -> (1 <= L)%nat -> (l <= L)%nat ->
    (l - 1 <= (K - 1) * (L + 1 - l))%nat ->
    exists mask,
      BackboneMasks.get_layer_sparsifying_mask W K l L = Py.Ok mask
      /\ forall i j, (i < rows W)%nat -> (j < cols W)%nat ->
           BackboneMasks.bget mask i j = true.
Proof.
  intros W K l L HK HL Hl Hs.
  destruct (SparsifyFacts.mask_all_true W K l L HK HL Hl Hs) as [f [Hm Hf]].
  eexists. split; [exact Hm|].
  intros i j Hi Hj. rewrite MaskFacts.bget_bmk by assumption. apply Hf; assumption.
Qed.

Lemma mask_keeps_everything_when_bands_overlap_witness :
  exists mask,
    BackboneMasks.get_layer_sparsifying_mask [[1; 2]; [3; 4]] 3 3 4 = Py.Ok mask
    /\ BackboneMasks.bget mask 1 0 = true.
Proof.
  destruct (mask_keeps_everything_when_bands_overlap [[1; 2]; [3; 4]] 3 3 4)
    as [mask [H Ht]].
  - lia.
  - lia.
  - lia.
  - simpl. lia.
  - exists mask. split; [exact H|]. apply Ht; unfold rows, cols; simpl; lia.
Defined.

(** X24 (backbone.py, [EigenNet.get_all_layer_sparsifying_masks] and
    [EigenNet.sparsify_weights]).  For a network with at most
    2 [sparsifing_K] layers (and [sparsifing_K] >= 2) every mask is [True]
    everywhere, so sparsifying the weights with the masks computed from them
    returns the weights unchanged.  The scripts use [sparsifing_K] = 3 on
    four layers. *)
Theorem sparsifying_a_shallow_network_changes_nothing :
  forall (weight_dict : list (string * matrix)) (K : nat),
    (2 <= K)%nat -> (length weight_dict <= 2 * K)%nat ->
    Forall (fun kw => wf_matrix (rows (snd kw)) (cols (snd kw)) (snd kw)) weight_dict ->
    exists masks,
      BackboneMasks.get_all_layer_sparsifying_masks weight_dict K = Py.Ok masks
      /\ length masks = length weight_dict
      /\ BackboneMasks.sparsify_weights weight_dict masks = weight_dict.
Proof.
  intros weight_dict K HK HL Hwf.
  unfold BackboneMasks.get_all_layer_sparsifying_masks.
  apply SparsifyFacts.masks_from_identity; try assumption. lia.
Qed.

Lemma sparsifying_a_shallow_network_changes_nothing_witness :
  exists masks,
    BackboneMasks.get_all_layer_sparsifying_masks MoreExamples.three_layers 3
    = Py.Ok masks
    /\ BackboneMasks.sparsify_weights MoreExamples.three_layers masks
       = MoreExamples.three_layers.
Proof.
  destruct (sparsifying_a_shallow_network_changes_nothing MoreExamples.three_layers 3)
    as [masks [H [_ Hs]]].
  - lia.
  - simpl. lia.
  - repeat constructor.
  - exists masks. split; [exact H|exact Hs].
Defined.

(** X25 (backbone.py, [EigenNet.sparsify_weights]).  The call keeps the
    layer names and their order; a layer that has a mask gets its kernel
    times the mask, so an entry is kept where the mask is [True] and is 0
    where it is [False]; the layers past the end of the list of masks keep
    their kernels; and sparsifying twice with the same masks is the same as
    sparsifying once. *)
Theorem sparsify_weights_semantics :
  forall (weight_dict : list (string * matrix))
         (masks : list BackboneMasks.bmatrix),
    map fst (BackboneMasks.sparsify_weights weight_dict masks) = map fst weight_dict
    /\ skipn (length masks) (BackboneMasks.sparsify_weights weight_dict masks)
       = skipn (length masks) weight_dict
    /\ BackboneMasks.sparsify_weights
         (BackboneMasks.sparsify_weights weight_dict masks) masks
       = BackboneMasks.sparsify_weights weight_dict masks
    /\ (forall q key kernel mask,
          nth_error weight_dict q = Some (key, kernel) ->
          nth_error masks q = Some mask ->
          nth_error (BackboneMasks.sparsify_weights weight_dict masks) q
          = Some (key, BackboneMasks.mul_mask kernel mask)
          /\ forall i j,
               (i < length kernel)%nat -> (i < length mask)%nat ->
               (j < length (nth i kernel []))%nat -> (j < length (nth i mask []))%nat ->
               mget (BackboneMasks.mul_mask kernel mask) i j
               = if BackboneMasks.bget mask i j then mget kernel i j else 0).
Proof.
  intros weight_dict. induction weight_dict as [|[key kernel] rest IH]; intros masks.
  - destruct masks; (split; [reflexivity|]); (split; [reflexivity|]);
      (split; [reflexivity|]); intros q k0 ke mk H; destruct q; discriminate.
  - destruct masks as [|mask masks].
    + split; [reflexivity|]. split; [reflexivity|]. split; [reflexivity|].
      intros q k0 ke mk _ H. destruct q; discriminate.
    + destruct (IH masks) as [H1 [H2 [H3 H4]]].
      cbn [BackboneMasks.sparsify_weights map fst length skipn].
      split; [rewrite H1; reflexivity|]. split; [exact H2|].
      split; [rewrite SparsifyFacts.mul_mask_idem, H3; reflexivity|].
      intros q k0 ke mk Hw Hm. destruct q as [|q].
      * cbn in Hw, Hm. injection Hw as <- <-. injection Hm as <-.
        split; [reflexivity|]. intros i j. apply SparsifyFacts.mget_mul_mask.
      * cbn in Hw, Hm. cbn [nth_error]. apply (H4 q k0 ke mk Hw Hm).
Qed.

Lemma sparsify_weights_semantics_witness :
  nth_error (BackboneMasks.sparsify_weights MoreExamples.three_layers
               [[[true; false]; [false; true]]]) 0
  = Some ("Dense_0"%string,
          BackboneMasks.mul_mask [[1; 2]; [3; 4]] [[true; false]; [false; true]])
  /\ mget (BackboneMasks.mul_mask [[1; 2]; [3; 4]] [[true; false]; [false; true]]) 0 1
     = 0.
Proof.
  destruct (proj2 (proj2 (proj2 (sparsify_weights_semantics MoreExamples.three_layers
                                   [[[true; false]; [false; true]]])))
              0%nat "Dense_0"%string [[1; 2]; [3; 4]] [[true; false]; [false; true]])
    as [H Hm].
  - reflexivity.
  - reflexivity.
  - split; [exact H|]. apply (Hm 0%nat 1%nat); simpl; lia.
Defined.

(** ** backbone.py: the boundary factor inside the box *)

Module InteriorFacts.
Import Backbone.

Lemma boundary_term_inside (D : Z) (x : R) :
  (0 < D)%Z -> - IZR D < x < IZR D ->
  exists t, boundary_term D x = Some t /\ 0 < t <= (sqrt 2 - 1) * IZR D.
Proof.
  intros HD Hx. apply IZR_lt in HD.
  assert (Hsq : x * x < IZR D * IZR D) by nra.
  assert (Hd2 : sqrt (IZR D * IZR D) = IZR D) by (apply sqrt_square; lra).
  unfold boundary_term, jsqrt. rewrite BackboneFacts.IZR_sqr.
  replace (x ^ 2) with (x * x) by ring.
  destruct (Rle_dec 0 (2 * (IZR D * IZR D) - x * x)) as [Hp|Hn];
    [|exfalso; apply Hn; nra].
  eexists. split; [reflexivity|]. split.
  - assert (H : sqrt (IZR D * IZR D) < sqrt (2 * (IZR D * IZR D) - x * x)).
    { apply sqrt_lt_1; nra. }
    rewrite Hd2 in H. lra.
  - assert (H : sqrt (2 * (IZR D * IZR D) - x * x) <= sqrt (2 * (IZR D * IZR D))).
    { apply sqrt_le_1; nra. }
    rewrite sqrt_mult in H by nra. rewrite Hd2 in H. lra.
Qed.

Lemma prod_row_inside (D : Z) (point : vector) :
  (0 < D)%Z -> Forall (fun x => - IZR D < x < IZR D) point ->
  exists p, prod_row (map (boundary_term D) point) = Some p
            /\ 0 < p <= ((sqrt 2 - 1) * IZR D) ^ length point.
Proof.
  intros HD. induction 1 as [|x rest Hx _ IH].
  - exists 1. split; [reflexivity|]. simpl. lra.
  - destruct (boundary_term_inside D x HD Hx) as [t [Ht [Ht1 Ht2]]].
    destruct IH as [p [Hp [Hp1 Hp2]]].
    exists (t * p). cbn [map prod_row length pow]. rewrite Ht, Hp.
    split; [reflexivity|]. split; [apply Rmult_lt_0_compat; assumption|].
    apply Rmult_le_compat; lra.
Qed.

End InteriorFacts.

(** X26 (backbone.py, [EigenNet.__call__]).  At a point whose coordinates all
    lie strictly inside (-D, D), with D > 0, the boundary factor is a
    positive number, at most ((sqrt 2 - 1) D)^d for d coordinates, and the
    output of the network is the output of its last layer times that factor:
    inside the box the factor never removes or flips an output. *)
Theorem boundary_factor_is_positive_inside :
  forall (D : Z) (w : Backbone.kernels) (x_in : matrix) (r : nat),
    (0 < D)%Z -> (r < rows x_in)%nat ->
    Forall (fun x => - IZR D < x < IZR D) (nth r x_in []) ->
    let last :=
      Backbone.Dense (Backbone.Dense_last w)
        (Backbone.hidden_layers (Backbone.Dense_hidden w)
           (Backbone.softplus_all (Backbone.Dense (Backbone.Dense_first w) x_in))) in
    exists p,
      0 < p <= ((sqrt 2 - 1) * IZR D) ^ length (nth r x_in [])
      /\ nth r (Backbone.EigenNet_call D w x_in) []
         = map (fun y => Some (y * p)) (nth r last []).
Proof.
  intros D w x_in r HD Hr Hin last.
  destruct (InteriorFacts.prod_row_inside D (nth r x_in []) HD Hin) as [p [Hp Hb]].
  destruct (BackboneFacts.EigenNet_call_row D w x_in r Hr) as [_ Hrow].
  exists p. split; [exact Hb|].
  rewrite Hrow, Hp. reflexivity.
Qed.

Lemma boundary_factor_is_positive_inside_witness :
  exists p,
    0 < p
    /\ nth 0 (Backbone.EigenNet_call 1 Examples.unit_kernels [[0]]) []
       = map (fun y => Some (y * p))
             (nth 0 (Backbone.Dense [[1]]
                       (Backbone.hidden_layers []
                          (Backbone.softplus_all (Backbone.Dense [[1]] [[0]])))) []).
Proof.
  destruct (boundary_factor_is_positive_inside 1 Examples.unit_kernels [[0]] 0)
    as [p [[Hp _] H]].
  - lia.
  - simpl. lia.
  - constructor; [simpl; lra|constructor].
  - exists p. split; [exact Hp|exact H].
Defined.

(** ** jax_spin.py with decay 1 *)

Module DecayOneFacts.

Lemma blend_leaf_1 (k r : nat) (a y : tensor3) :
  wf_tensor3 k k r a -> wf_tensor3 k k r y ->
  tadd (tscale (1 - 1) a) (tscale 1 y) = y.
Proof.
  intros Ha Hy. apply (tensor3_ext k k r).
  - apply wf_tadd; apply wf_tscale; assumption.
  - exact Hy.
  - intros i j p Hi Hj Hp.
    rewrite (tget_tadd k k r) by (try apply wf_tscale; assumption).
    rewrite !tget_tscale. ring.
Qed.

Lemma blend_leaves_1 (N k : nat) (u : matrix) (J : jac_pytree) (xs : jac_pytree) :
  (0 < N)%nat -> (0 < k)%nat -> wf_matrix N k u ->
  Forall2 (fun a x => exists r, wf_tensor3 k k r a /\ wf_tensor3 N k r x) J xs ->
  map2 (fun x y => tadd (tscale (1 - 1) x) (tscale 1 y)) J
       (map (fun x => tensordot_1 (transpose u) x) xs)
  = map (fun x => tensordot_1 (transpose u) x) xs.
Proof.
  intros HN Hk Hu. induction 1 as [|a x J xs [r [Ha Hx]] _ IH]; [reflexivity|].
  cbn [map map2]. rewrite IH. f_equal.
  apply (blend_leaf_1 k r); [exact Ha|].
  apply (wf_tensordot_1 k N k r); try assumption. apply wf_transpose; assumption.
Qed.

Lemma batch_leaves_same_shape (N k : nat) (u : matrix) (J xs : jac_pytree) :
  (0 < N)%nat -> (0 < k)%nat -> wf_matrix N k u ->
  Forall2 (fun a x => exists r, wf_tensor3 k k r a /\ wf_tensor3 N k r x) J xs ->
  Forall2 (fun a x => exists r, wf_tensor3 k k r a /\ wf_tensor3 N k r x)
          (map (fun x => tensordot_1 (transpose u) x) xs) xs.
Proof.
  intros HN Hk Hu. induction 1 as [|a x J xs [r [Ha Hx]] _ IH]; cbn [map].
  - constructor.
  - constructor; [|exact IH]. exists r. split; [|exact Hx].
    apply (wf_tensordot_1 k N k r); try assumption. apply wf_transpose; assumption.
Qed.

End DecayOneFacts.

(** X27 (jax_spin.py, [SpIN.step] with [SpIN.evaluate_spin] and
    [SpIN.masked_gradients], at the decay that [SpIN.train] passes).  At the
    cold start, and in every iteration while [self.beta] is 1, the value that
    [SpIN.__init__] assigns, a step does not depend on the averages it is
    given: the covariance average and the covariance Jacobian that it uses
    and returns are those of the batch alone. *)
Theorem decay_one_forgets_the_averages :
  forall (opt_state : Type) (self : JaxSpin.SpIN opt_state) (cnt i : nat)
         (st : opt_state) (inputs : matrix) (seed seed' : JaxSpin.ndarray)
         (J J' : jac_pytree) (N k : nat),
    let params := JaxSpin.get_params self st in
    let u := JaxSpin.net_u self params inputs in
    let leaves := JaxSpin.net_u_jac self params inputs in
    cnt = 0%nat \/ JaxSpin.beta self = 1 ->
    (0 < N)%nat -> (0 < k)%nat -> rows inputs = N -> wf_matrix N k u ->
    JaxSpin.broadcastable k seed -> JaxSpin.broadcastable k seed' ->
    Forall2 (fun a x => exists r, wf_tensor3 k k r a /\ wf_tensor3 N k r x) J leaves ->
    Forall2 (fun a x => exists r, wf_tensor3 k k r a /\ wf_tensor3 N k r x) J' leaves ->
    JaxSpin.step self i st (inputs, (seed, J), JaxSpin.beta_at self cnt)
    = JaxSpin.step self i st (inputs, (seed', J'), JaxSpin.beta_at self cnt)
    /\ forall loss st' avgs',
         JaxSpin.step self i st (inputs, (seed, J), JaxSpin.beta_at self cnt)
         = Returns (loss, st', avgs') ->
         avgs' = (JaxSpin.Arr2 (mdiv (dot (transpose u) u) (INR N)),
                  map (fun x => tensordot_1 (transpose u) x) leaves).
Proof.
  intros opt_state self cnt i st inputs seed seed' J J' N k params u leaves
         Hone HN Hk Hr Hu Hseed Hseed' HJ HJ'.
  assert (Hb : JaxSpin.beta_at self cnt = 1).
  { unfold JaxSpin.beta_at. destruct Hone as [-> | Hone]; [reflexivity|].
    destruct (Nat.ltb 0 cnt); [exact Hone|reflexivity]. }
  rewrite Hb.
  assert (Hs : wf_matrix k k (mdiv (dot (transpose u) u) (INR N)))
    by (apply (wf_dot_transpose_div N); assumption).
  assert (Hform : forall sd Jx,
             JaxSpin.broadcastable k sd ->
             Forall2 (fun a x => exists r, wf_tensor3 k k r a /\ wf_tensor3 N k r x)
                     Jx leaves ->
             JaxSpin.step self i st (inputs, (sd, Jx), 1)
             = JaxSpin.step self i st
                 (inputs, (JaxSpin.Arr2 (mdiv (dot (transpose u) u) (INR N)),
                           map (fun x => tensordot_1 (transpose u) x) leaves), 1)
             /\ forall loss st' avgs',
                 JaxSpin.step self i st (inputs, (sd, Jx), 1)
                 = Returns (loss, st', avgs') ->
                 avgs' = (JaxSpin.Arr2 (mdiv (dot (transpose u) u) (INR N)),
                          map (fun x => tensordot_1 (transpose u) x) leaves)).
  { intros sd Jx Hsd HJx.
    assert (E1 := DecayOneFacts.blend_leaves_1 N k u Jx leaves HN Hk Hu HJx).
    assert (E2 := DecayOneFacts.blend_leaves_1 N k u
                    (map (fun x => tensordot_1 (transpose u) x) leaves) leaves
                    HN Hk Hu
                    (DecayOneFacts.batch_leaves_same_shape N k u Jx leaves HN Hk Hu HJx)).
    unfold JaxSpin.step, JaxSpin.loss_and_grad, JaxSpin.evaluate_spin,
      JaxSpin.masked_gradients.
    fold params. cbn [fst snd]. fold u. fold leaves. rewrite Hr.
    rewrite (blend_sigma_1 k sd _ Hsd Hs).
    rewrite (blend_sigma_1 k (JaxSpin.Arr2 (mdiv (dot (transpose u) u) (INR N))) _ Hs Hs).
    destruct (Linalg.cholesky (mdiv (dot (transpose u) u) (INR N))) as [L|].
    2: { split; [reflexivity|]. intros ? ? ? H; discriminate H. }
    cbn [of_option bind fst snd]. rewrite E1, E2.
    split; [reflexivity|].
    intros loss st' avgs' H. injection H as _ _ <-. reflexivity. }
  destruct (Hform seed J Hseed HJ) as [E H]. split; [|exact H].
  rewrite E. symmetry. exact (proj1 (Hform seed' J' Hseed' HJ')).
Qed.

Lemma decay_one_forgets_the_averages_witness :
  ((0%nat = 0%nat \/ JaxSpin.beta (Examples.spin 2 1) = 1)
   /\ (0 < 1)%nat /\ rows [[0]] = 1%nat
   /\ wf_matrix 1 1 (JaxSpin.net_u (Examples.spin 2 1) [[0]] [[0]])
   /\ JaxSpin.broadcastable 1 (JaxSpin.Arr1 [1])
   /\ JaxSpin.broadcastable 1 (JaxSpin.Arr2 [[3]])
   /\ Forall2 (fun a x => exists r, wf_tensor3 1 1 r a /\ wf_tensor3 1 1 r x)
              [[[[0]]]] (JaxSpin.net_u_jac (Examples.spin 2 1) [[0]] [[0]])
   /\ Forall2 (fun a x => exists r, wf_tensor3 1 1 r a /\ wf_tensor3 1 1 r x)
              [[[[5]]]] (JaxSpin.net_u_jac (Examples.spin 2 1) [[0]] [[0]]))
  /\ JaxSpin.step (Examples.spin 2 1) 0 [[0]]
       ([[0]], (JaxSpin.Arr1 [1], [[[[0]]]]), JaxSpin.beta_at (Examples.spin 2 1) 0)
     = JaxSpin.step (Examples.spin 2 1) 0 [[0]]
       ([[0]], (JaxSpin.Arr2 [[3]], [[[[5]]]]), JaxSpin.beta_at (Examples.spin 2 1) 0).
Proof.
  assert (Hu : wf_matrix 1 1 (JaxSpin.net_u (Examples.spin 2 1) [[0]] [[0]]))
    by apply wf_1x1.
  assert (HJ : forall a : R,
             Forall2 (fun a x => exists r, wf_tensor3 1 1 r a /\ wf_tensor3 1 1 r x)
                     [[[[a]]]] (JaxSpin.net_u_jac (Examples.spin 2 1) [[0]] [[0]])).
  { intros a. constructor; [|constructor]. exists 1%nat.
    split; apply wf_1x1x1. }
  split.
  - split; [left; reflexivity|].
    split; [lia|]. split; [reflexivity|]. split; [exact Hu|].
    split; [reflexivity|]. split; [apply wf_1x1|]. split; apply HJ.
  - apply (decay_one_forgets_the_averages _ (Examples.spin 2 1) 0%nat 0%nat [[0]] [[0]]
             (JaxSpin.Arr1 [1]) (JaxSpin.Arr2 [[3]]) [[[[0]]]] [[[[5]]]] 1%nat 1%nat).
    + left. reflexivity.
    + lia.
    + lia.
    + reflexivity.
    + exact Hu.
    + reflexivity.
    + apply wf_1x1.
    + apply HJ.
    + apply HJ.
Defined.

(** ** Arithmetic on one-entry arrays *)





(** ** The loop of [SpIN.train], pass by pass *)

Module LoopFacts.
Import JaxSpin.

Section Loop.
Context {opt_state : Type} (self : SpIN opt_state).

Lemma beta_at_eq (cnt : nat) :
  beta_at self cnt = if Nat.eqb cnt 0 then 1 else beta self.
Proof. unfold beta_at. destruct cnt; reflexivity. Qed.

(** A pass that returns has run the step on the batch at the iterator
    position with the decay of the counter, then [eigenpairs] on the next
    batch with the new parameters, the new averages and the same decay. *)
Lemma train_body_inv (inputs : nat -> matrix) (ls ls' : loop_state) :
  train_body self inputs ls = Returns ls' ->
  let o := obj ls in
  let cnt := itercount o in
  let decay := if Nat.eqb cnt 0 then 1 else beta self in
  exists loss st avgs evals efuns,
    step self cnt (st_opt_state o) (inputs (pos ls), avgs_of ls, decay)
    = Returns (loss, st, avgs)
    /\ eigenpairs self (get_params self st) (inputs (S (pos ls))) avgs decay
       = Returns (evals, efuns)
    /\ ls' = {| obj := {| st_opt_state := st;
                          itercount := S cnt;
                          loss_log := loss_log o ++ [loss];
                          evals_log := evals_log o ++ [evals] |};
                pos := S (S (pos ls));
                avgs_of := avgs;
                last := Some (get_params self st, decay) |}.
Proof.
  intros H o cnt decay. unfold train_body in H. cbv zeta in H.
  rewrite beta_at_eq in H. fold o cnt decay in H.
  destruct (step self cnt (st_opt_state o) (inputs (pos ls), avgs_of ls, decay))
    as [[[loss st] avgs]| |] eqn:Es; try discriminate.
  cbn [bind] in H.
  destruct (eigenpairs self (get_params self st) (inputs (S (pos ls))) avgs decay)
    as [[evals efuns]| |] eqn:Ee; try discriminate.
  cbn [bind] in H. injection H as <-.
  exists loss, st, avgs, evals, efuns.
  split; [reflexivity|]. split; [exact Ee|reflexivity].
Qed.

Lemma train_body_intro (inputs : nat -> matrix) (ls : loop_state)
      (loss : R) (st : opt_state) (avgs : averages) (evals : vector) (efuns : matrix) :
  let o := obj ls in
  let cnt := itercount o in
  let decay := if Nat.eqb cnt 0 then 1 else beta self in
  step self cnt (st_opt_state o) (inputs (pos ls), avgs_of ls, decay)
  = Returns (loss, st, avgs) ->
  eigenpairs self (get_params self st) (inputs (S (pos ls))) avgs decay
  = Returns (evals, efuns) ->
  train_body self inputs ls
  = Returns {| obj := {| st_opt_state := st;
                         itercount := S cnt;
                         loss_log := loss_log o ++ [loss];
                         evals_log := evals_log o ++ [evals] |};
               pos := S (S (pos ls));
               avgs_of := avgs;
               last := Some (get_params self st, decay) |}.
Proof.
  intros o cnt decay Hs He. unfold train_body. cbv zeta. rewrite beta_at_eq.
  fold o cnt decay. rewrite Hs. cbn [bind]. rewrite He. reflexivity.
Qed.

(** A pass returns when both factorised averages are positive-definite:
    the one of the step and, for every parameter value that the update can
    give, the one that [eigenpairs] blends from the next batch. *)
Lemma train_body_returns (inputs : nat -> matrix) (ls : loop_state) (N k : nat) :
  let o := obj ls in
  let cnt := itercount o in
  let decay := if Nat.eqb cnt 0 then 1 else beta self in
  let u := net_u self (get_params self (st_opt_state o)) (inputs (pos ls)) in
  let sigma := mdiv (dot (transpose u) u) (INR N) in
  let sigma_avg := blend_sigma decay (fst (avgs_of ls)) sigma in
  (0 < N)%nat -> rows (inputs (pos ls)) = N -> wf_matrix N k u ->
  broadcastable k (fst (avgs_of ls)) ->
  Linalg.positive_definite k sigma_avg ->
  (forall p',
      let u2 := net_u self p' (inputs (S (pos ls))) in
      let sigma2 :=
        blend_sigma decay (Arr2 sigma_avg)
          (mdiv (dot (transpose u2) u2) (INR (rows (inputs (S (pos ls)))))) in
      wf_matrix k k sigma2 /\ Linalg.positive_definite k sigma2) ->
  exists ls',
    train_body self inputs ls = Returns ls'
    /\ itercount (obj ls') = S cnt
    /\ pos ls' = S (S (pos ls))
    /\ fst (avgs_of ls') = Arr2 sigma_avg.
Proof.
  intros o cnt decay u sigma sigma_avg HN Hr Hu Hseed Hpd H2.
  assert (Hs : wf_matrix k k sigma) by (apply (wf_dot_transpose_div N); assumption).
  assert (Hw : wf_matrix k k sigma_avg) by (apply wf_blend_sigma; assumption).
  destruct (avgs_of ls) as [seed J] eqn:Ea. cbn [fst] in *.
  destruct (StepFacts.jax_spin_step_averages self cnt (st_opt_state o)
              (inputs (pos ls)) seed J decay k)
    as [loss [st' [outs [_ Hstep]]]].
  { rewrite Hr. exact Hw. }
  { rewrite Hr. exact Hpd. }
  rewrite Hr in Hstep. fold u sigma sigma_avg in Hstep.
  destruct (H2 (get_params self st')) as [Hw2 Hpd2].
  destruct (JaxRunFacts.eigenpairs_returns self (get_params self st')
              (inputs (S (pos ls)))
              (Arr2 sigma_avg,
               snd (masked_gradients self (get_params self (st_opt_state o))
                      (inputs (pos ls)) outs (seed, J) decay))
              decay k Hw2 Hpd2) as [evals [efuns He]].
  eexists. split.
  - eapply train_body_intro.
    + fold o cnt decay. rewrite Ea. exact Hstep.
    + exact He.
  - cbn [obj itercount pos avgs_of fst]. repeat split; reflexivity.
Qed.

End Loop.

End LoopFacts.

(** ** What a pass of the loop of [SpIN.train] logs *)

Module LogFacts.
Import JaxSpin.


End LogFacts.

(** ** A failed factorisation raises nothing *)

Module SilentFacts.

Section Jax.
Import JaxSpin.
Context {opt_state : Type} (self : SpIN opt_state).

Lemma evaluate_spin_never_raises (params : pytree) (inputs : matrix)
      (avgs : averages) (beta : R) (e : exn) :
  evaluate_spin self params inputs avgs beta <> Raises e.
Proof.
  unfold evaluate_spin. destruct (Linalg.cholesky _); discriminate.
Qed.

Lemma step_never_raises (i : nat) (st : opt_state)
      (batch : matrix * averages * R) (e : exn) :
  step self i st batch <> Raises e.
Proof.
  destruct batch as [[inputs avgs] beta]. unfold step, loss_and_grad.
  destruct (evaluate_spin self (get_params self st) inputs avgs beta)
    as [[outs s]| |] eqn:E.
  - cbn [bind]. destruct outs as [[[[u choli] pi] rq] op].
    destruct (masked_gradients self _ _ _ _ _). discriminate.
  - exfalso. exact (evaluate_spin_never_raises _ _ _ _ _ E).
  - discriminate.
Qed.

Lemma eigenpairs_never_raises (params : pytree) (inputs : matrix)
      (avgs : averages) (beta : R) (e : exn) :
  eigenpairs self params inputs avgs beta <> Raises e.
Proof.
  unfold eigenpairs.
  destruct (evaluate_spin self params inputs avgs beta) as [[outs s]| |] eqn:E.
  - cbn [bind]. destruct outs as [[[[u choli] pi] rq] op]. discriminate.
  - exfalso. exact (evaluate_spin_never_raises _ _ _ _ _ E).
  - discriminate.
Qed.

Lemma train_body_never_raises (inputs : nat -> matrix) (ls : loop_state) (e : exn) :
  train_body self inputs ls <> Raises e.
Proof.
  unfold train_body. cbv zeta.
  destruct (step self _ _ _) as [[[loss st] avgs]| |] eqn:Es.
  - cbn [bind].
    destruct (eigenpairs self _ _ _ _) as [[evals efuns]| |] eqn:Ee.
    + discriminate.
    + exfalso. exact (eigenpairs_never_raises _ _ _ _ _ Ee).
    + discriminate.
  - exfalso. exact (step_never_raises _ _ _ _ Es).
  - discriminate.
Qed.

Lemma train_loop_never_raises (inputs : nat -> matrix) (e : exn) :
  forall n ls, train_loop self inputs n ls <> Raises e.
Proof.
  induction n as [|n IH]; intros ls; cbn [train_loop]; [discriminate|].
  destruct (train_body self inputs ls) as [ls1| |] eqn:E.
  - cbn [bind]. apply IH.
  - exfalso. exact (train_body_never_raises _ _ _ E).
  - discriminate.
Qed.

(** A step whose blended average is symmetric and not positive-definite has
    no real result. *)
Lemma step_not_pd (i : nat) (st : opt_state) (inputs : matrix)
      (seed : ndarray) (J : jac_pytree) (beta : R) (k : nat) :
  let u := net_u self (get_params self st) inputs in
  let sigma_avg :=
    blend_sigma beta seed (mdiv (dot (transpose u) u) (INR (rows inputs))) in
  wf_matrix k k sigma_avg -> Linalg.symmetric k sigma_avg ->
  ~ Linalg.positive_definite k sigma_avg ->
  step self i st (inputs, (seed, J), beta) = NotReal.
Proof.
  intros u sigma_avg Hw Hsym Hn.
  apply JaxRunFacts.step_not_real. apply JaxRunFacts.evaluate_spin_not_real.
  cbn [fst]. fold u. fold sigma_avg. apply (PdFacts.cholesky_none k); assumption.
Qed.

(** At the cold start a batch with equal rows of two or more outputs has a
    singular covariance, and that is what the step factorises. *)
Lemma cold_step_equal_rows (st : opt_state) (inputs : matrix)
      (seed : ndarray) (J : jac_pytree) (N k : nat) :
  let u := net_u self (get_params self st) inputs in
  (0 < N)%nat -> (2 <= k)%nat -> rows inputs = N -> wf_matrix N k u ->
  (forall b, (b < N)%nat -> nth b u [] = nth 0 u []) ->
  broadcastable k seed ->
  step self 0 st (inputs, (seed, J), 1) = NotReal.
Proof.
  intros u HN Hk Hr Hu Hrows Hseed.
  assert (Hs : wf_matrix k k (mdiv (dot (transpose u) u) (INR N)))
    by (apply (wf_dot_transpose_div N); assumption).
  assert (E : blend_sigma 1 seed (mdiv (dot (transpose u) u) (INR (rows inputs)))
              = mdiv (dot (transpose u) u) (INR N)).
  { rewrite Hr. apply (blend_sigma_1 k); assumption. }
  apply (step_not_pd 0 st inputs seed J 1 k); fold u; rewrite E.
  - exact Hs.
  - apply (JaxRunFacts.gram_sym N); assumption.
  - apply (JaxExampleFacts.equal_rows_not_pd N k u); assumption.
Qed.

(** The outcome of the pass is the outcome of the run. *)
Lemma train_not_real (inputs : nat -> matrix) (o : SpIN_state opt_state) (n : nat) :
  train_body self inputs (train_init self inputs o) = NotReal ->
  train self inputs (S n) o = NotReal.
Proof.
  intros H. unfold train. cbn [train_loop]. rewrite H. reflexivity.
Qed.

Lemma train_body_not_real (inputs : nat -> matrix) (ls : loop_state) :
  step self (itercount (obj ls)) (st_opt_state (obj ls))
    (inputs (pos ls), avgs_of ls,
     if Nat.eqb (itercount (obj ls)) 0 then 1 else beta self) = NotReal ->
  train_body self inputs ls = NotReal.
Proof.
  intros H. unfold train_body. cbv zeta. rewrite LoopFacts.beta_at_eq.
  rewrite H. reflexivity.
Qed.

End Jax.

Section Stfn.
Import StfnTraining.

Lemma train_step_never_raises {opt_state : Type} (net : network)
      (weight_dict : pytree) (opt : optimizer opt_state) (st : opt_state)
      (batch sigma_t_bar : matrix) (J : jac_pytree) (beta : R) (epoch : nat)
      (e : exn) :
  train_step net weight_dict opt st batch sigma_t_bar J beta epoch <> Raises e.
Proof.
  unfold train_step, train_step_gradients.
  destruct (Linalg.cholesky _); cbn [of_option bind]; [|discriminate].
  destruct (opt_update opt _ st). discriminate.
Qed.

Lemma epoch_body_never_raises {opt_state : Type} (self : ModelTrainer opt_state)
      (batches : nat -> matrix) (epoch : nat) (r : run_state opt_state) (e : exn) :
  epoch_body self batches epoch r <> Raises e.
Proof.
  unfold epoch_body.
  destruct (train_step _ _ _ _ _ _ _ _ _) as [[[[[[[l w] en] s] j] li] st]| |] eqn:E.
  - discriminate.
  - exfalso. exact (train_step_never_raises _ _ _ _ _ _ _ _ _ _ E).
  - discriminate.
Qed.

Lemma train_step_not_pd {opt_state : Type} (net : network)
      (weight_dict : pytree) (opt : optimizer opt_state) (st : opt_state)
      (batch sigma_t_bar : matrix) (J : jac_pytree) (beta : R) (epoch k : nat) :
  let u := model_apply net weight_dict batch in
  let sigma_new := Helper.moving_average sigma_t_bar (covariance u u) beta in
  wf_matrix k k sigma_new -> Linalg.symmetric k sigma_new ->
  ~ Linalg.positive_definite k sigma_new ->
  train_step net weight_dict opt st batch sigma_t_bar J beta epoch = NotReal.
Proof.
  intros u sigma_new Hw Hsym Hn.
  unfold train_step, train_step_gradients. fold u. fold sigma_new.
  rewrite (PdFacts.cholesky_none k sigma_new Hw Hsym Hn). reflexivity.
Qed.

End Stfn.

End SilentFacts.





(** ** Cold start (spec sections 4.1 and 4.4), on the loops *)

(** C3, as the code has it.  jax_spin.py: a pass through the loop of
    [SpIN.train] advances the counter by one; the pass with counter 0 runs
    its step with decay 1, so that the covariance average it leaves is the
    covariance (1/N) U^T U of its batch, whatever average it started from,
    and every pass with a counter above 0 blends with [self.beta].  Such a
    pass returns as soon as the matrices it factorises are positive-definite,
    and a call of [train] for one iteration on a new object returns the
    covariance of its first training batch and the decay 1.
    stfn_training.py has no cold start: the first epoch blends the identity
    seed with the batch covariance with the configured decay. *)
Theorem cold_start_rule :
  (forall (opt_state : Type) (self : JaxSpin.SpIN opt_state)
          (inputs : nat -> matrix) (ls ls' : JaxSpin.loop_state) (N k : nat),
      let o := JaxSpin.obj ls in
      let cnt := JaxSpin.itercount o in
      let u := JaxSpin.net_u self (JaxSpin.get_params self (JaxSpin.st_opt_state o))
                 (inputs (JaxSpin.pos ls)) in
      let sigma := mdiv (dot (transpose u) u) (INR N) in
      (0 < N)%nat -> rows (inputs (JaxSpin.pos ls)) = N -> wf_matrix N k u ->
      JaxSpin.broadcastable k (fst (JaxSpin.avgs_of ls)) ->
      JaxSpin.train_body self inputs ls = Returns ls' ->
      JaxSpin.itercount (JaxSpin.obj ls') = S cnt
      /\ (cnt = 0%nat -> fst (JaxSpin.avgs_of ls') = JaxSpin.Arr2 sigma)
      /\ ((0 < cnt)%nat ->
          fst (JaxSpin.avgs_of ls')
          = JaxSpin.Arr2 (JaxSpin.blend_sigma (JaxSpin.beta self)
                            (fst (JaxSpin.avgs_of ls)) sigma)))
  /\ (forall (opt_state : Type) (self : JaxSpin.SpIN opt_state)
             (inputs : nat -> matrix) (ls : JaxSpin.loop_state) (N k : nat),
      let o := JaxSpin.obj ls in
      let u := JaxSpin.net_u self (JaxSpin.get_params self (JaxSpin.st_opt_state o))
                 (inputs (JaxSpin.pos ls)) in
      let sigma := mdiv (dot (transpose u) u) (INR N) in
      JaxSpin.itercount o = 0%nat ->
      (0 < N)%nat -> rows (inputs (JaxSpin.pos ls)) = N -> wf_matrix N k u ->
      JaxSpin.broadcastable k (fst (JaxSpin.avgs_of ls)) ->
      Linalg.positive_definite k sigma ->
      (forall p',
          let u2 := JaxSpin.net_u self p' (inputs (S (JaxSpin.pos ls))) in
          let sigma2 :=
            mdiv (dot (transpose u2) u2) (INR (rows (inputs (S (JaxSpin.pos ls))))) in
          wf_matrix k k sigma2 /\ Linalg.positive_definite k sigma2) ->
      exists ls',
        JaxSpin.train_body self inputs ls = Returns ls'
        /\ JaxSpin.itercount (JaxSpin.obj ls') = 1%nat
        /\ fst (JaxSpin.avgs_of ls') = JaxSpin.Arr2 sigma)
  /\ (forall (opt_state : Type) (self : JaxSpin.SpIN opt_state)
             (inputs : nat -> matrix) (ls : JaxSpin.loop_state) (N k : nat),
      let o := JaxSpin.obj ls in
      let u := JaxSpin.net_u self (JaxSpin.get_params self (JaxSpin.st_opt_state o))
                 (inputs (JaxSpin.pos ls)) in
      let sigma := mdiv (dot (transpose u) u) (INR N) in
      let sigma_avg :=
        JaxSpin.blend_sigma (JaxSpin.beta self) (fst (JaxSpin.avgs_of ls)) sigma in
      (0 < JaxSpin.itercount o)%nat ->
      (0 < N)%nat -> rows (inputs (JaxSpin.pos ls)) = N -> wf_matrix N k u ->
      JaxSpin.broadcastable k (fst (JaxSpin.avgs_of ls)) ->
      Linalg.positive_definite k sigma_avg ->
      (forall p',
          let u2 := JaxSpin.net_u self p' (inputs (S (JaxSpin.pos ls))) in
          let sigma2 :=
            JaxSpin.blend_sigma (JaxSpin.beta self) (JaxSpin.Arr2 sigma_avg)
              (mdiv (dot (transpose u2) u2)
                    (INR (rows (inputs (S (JaxSpin.pos ls)))))) in
          wf_matrix k k sigma2 /\ Linalg.positive_definite k sigma2) ->
      exists ls',
        JaxSpin.train_body self inputs ls = Returns ls'
        /\ JaxSpin.itercount (JaxSpin.obj ls') = S (JaxSpin.itercount o)
        /\ fst (JaxSpin.avgs_of ls') = JaxSpin.Arr2 sigma_avg)
  /\ (forall (opt_state : Type) (self : JaxSpin.SpIN opt_state)
             (inputs : nat -> matrix) (o : JaxSpin.SpIN_state opt_state) (N k : nat),
      let u := JaxSpin.net_u self (JaxSpin.get_params self (JaxSpin.st_opt_state o))
                 (inputs 1%nat) in
      let sigma := mdiv (dot (transpose u) u) (INR N) in
      JaxSpin.itercount o = 0%nat -> JaxSpin.neig self = k ->
      (0 < N)%nat -> rows (inputs 1%nat) = N -> wf_matrix N k u ->
      Linalg.positive_definite k sigma ->
      (forall p',
          let u2 := JaxSpin.net_u self p' (inputs 2%nat) in
          let sigma2 := mdiv (dot (transpose u2) u2) (INR (rows (inputs 2%nat))) in
          wf_matrix k k sigma2 /\ Linalg.positive_definite k sigma2) ->
      exists o' params J',
        JaxSpin.train self inputs 1 o
        = Returns (o', (params, (JaxSpin.Arr2 sigma, J'), 1))
        /\ JaxSpin.itercount o' = 1%nat)
  /\ (forall (opt_state : Type) (self : StfnTraining.ModelTrainer opt_state)
             (batches : nat -> matrix) (N : nat),
      let k := StfnTraining.n_eigenfuncs self in
      let beta := StfnTraining.moving_average_beta self in
      let u := StfnTraining.model_apply (StfnTraining.net_of self)
                 (StfnTraining.init_weight_dict self) (batches 1%nat) in
      let sigma_1 := Helper.moving_average (eye k) (StfnTraining.covariance u u) beta in
      (0 < N)%nat -> (0 < k)%nat -> wf_matrix N k u ->
      Linalg.positive_definite k sigma_1 ->
      exists r',
        StfnTraining.epoch_body self batches 1 (StfnTraining.start_state self) = Returns r'
        /\ StfnTraining.sigma_t_bar r' = sigma_1
        /\ forall i j, (i < k)%nat -> (j < k)%nat ->
             mget (StfnTraining.sigma_t_bar r') i j
             = (1 - beta) * (if Nat.eqb i j then 1 else 0)
               + beta * (sum_n N (fun b => mget u b i * mget u b j) / INR N)).
Proof.
  assert (Hcold : forall (opt_state : Type) (self : JaxSpin.SpIN opt_state)
             (inputs : nat -> matrix) (ls : JaxSpin.loop_state) (N k : nat),
      let o := JaxSpin.obj ls in
      let u := JaxSpin.net_u self (JaxSpin.get_params self (JaxSpin.st_opt_state o))
                 (inputs (JaxSpin.pos ls)) in
      let sigma := mdiv (dot (transpose u) u) (INR N) in
      JaxSpin.itercount o = 0%nat ->
      (0 < N)%nat -> rows (inputs (JaxSpin.pos ls)) = N -> wf_matrix N k u ->
      JaxSpin.broadcastable k (fst (JaxSpin.avgs_of ls)) ->
      Linalg.positive_definite k sigma ->
      (forall p',
          let u2 := JaxSpin.net_u self p' (inputs (S (JaxSpin.pos ls))) in
          let sigma2 :=
            mdiv (dot (transpose u2) u2) (INR (rows (inputs (S (JaxSpin.pos ls))))) in
          wf_matrix k k sigma2 /\ Linalg.positive_definite k sigma2) ->
      exists ls',
        JaxSpin.train_body self inputs ls = Returns ls'
        /\ JaxSpin.itercount (JaxSpin.obj ls') = 1%nat
        /\ JaxSpin.pos ls' = S (S (JaxSpin.pos ls))
        /\ fst (JaxSpin.avgs_of ls') = JaxSpin.Arr2 sigma).
  { intros opt_state self inputs ls N k o u sigma Hcnt HN Hr Hu Hseed Hpd H2.
    assert (Hs : wf_matrix k k sigma) by (apply (wf_dot_transpose_div N); assumption).
    pose proof (LoopFacts.train_body_returns self inputs ls N k) as H.
    cbv zeta in H. fold o in H. rewrite Hcnt in H. cbn [Nat.eqb] in H.
    fold u in H. fold sigma in H.
    rewrite (blend_sigma_1 k _ sigma Hseed Hs) in H.
    destruct (H HN Hr Hu Hseed Hpd) as [ls' [Hb [Hi [Hp Ha]]]].
    - intros p'. destruct (H2 p') as [Hw2 Hpd2].
      rewrite (blend_sigma_1 k (JaxSpin.Arr2 sigma) _ Hs Hw2). split; assumption.
    - exists ls'. repeat split; assumption. }
  split; [|split; [|split; [|split]]].
  - intros opt_state self inputs ls ls' N k o cnt u sigma HN Hr Hu Hseed Hb.
    destruct (LoopFacts.train_body_inv self inputs ls ls' Hb)
      as [loss [st [avgs [evals [efuns [Hstep [_ ->]]]]]]].
    fold o cnt in Hstep. cbn [JaxSpin.obj JaxSpin.itercount JaxSpin.avgs_of].
    destruct (JaxRunFacts.step_returns self _ _ _ _ _ _ _ _ Hstep) as [outs [_ Ha]].
    rewrite Hr in Ha. fold u sigma in Ha.
    assert (Hs : wf_matrix k k sigma) by (apply (wf_dot_transpose_div N); assumption).
    split; [reflexivity|]. split.
    + intros Hc. rewrite Ha, Hc. cbn [Nat.eqb].
      rewrite (blend_sigma_1 k _ sigma Hseed Hs). reflexivity.
    + intros Hc. rewrite Ha. destruct cnt; [lia|]. reflexivity.
  - intros opt_state self inputs ls N k o u sigma Hcnt HN Hr Hu Hseed Hpd H2.
    destruct (Hcold opt_state self inputs ls N k Hcnt HN Hr Hu Hseed Hpd H2)
      as [ls' [Hb [Hi [_ Ha]]]].
    exists ls'. repeat split; assumption.
  - intros opt_state self inputs ls N k o u sigma sigma_avg Hcnt HN Hr Hu Hseed Hpd H2.
    pose proof (LoopFacts.train_body_returns self inputs ls N k) as H.
    cbv zeta in H. fold o in H.
    destruct (JaxSpin.itercount o) as [|c] eqn:Ec; [lia|]. cbn [Nat.eqb] in H.
    fold u in H. fold sigma in H. fold sigma_avg in H.
    destruct (H HN Hr Hu Hseed Hpd H2) as [ls' [Hb [Hi [_ Ha]]]].
    exists ls'. repeat split; assumption.
  - intros opt_state self inputs o N k u sigma Hcnt Hneig HN Hr Hu Hpd H2.
    destruct (Hcold opt_state self inputs (JaxSpin.train_init self inputs o) N k)
      as [ls' [Hb [Hi [_ Ha]]]]; try assumption.
    { cbn [JaxSpin.train_init JaxSpin.avgs_of fst JaxSpin.broadcastable].
      rewrite Hneig. apply length_mk_vector. }
    destruct (LoopFacts.train_body_inv self inputs _ ls' Hb)
      as [loss [st [avgs [evals [efuns [_ [_ E]]]]]]].
    cbn [JaxSpin.train_init JaxSpin.obj] in E. rewrite Hcnt in E. cbn [Nat.eqb] in E.
    subst ls'. cbn [JaxSpin.avgs_of JaxSpin.obj JaxSpin.itercount] in Ha, Hi.
    destruct avgs as [S J']. cbn [fst] in Ha. subst S.
    do 3 eexists. split.
    + unfold JaxSpin.train. cbn [JaxSpin.train_loop]. rewrite Hb.
      cbn [bind JaxSpin.last JaxSpin.obj JaxSpin.avgs_of]. reflexivity.
    + reflexivity.
  - intros opt_state self batches N k beta u sigma_1 HN Hk Hu Hpd.
    assert (Hc : wf_matrix k k (StfnTraining.covariance u u))
      by (apply (wf_covariance N); assumption).
    assert (Hw : wf_matrix k k sigma_1)
      by (apply wf_moving_average; [apply wf_eye|assumption]).
    destruct (StepFacts.stfn_epoch_averages self batches 1
                (StfnTraining.start_state self) k Hw Hpd) as [r' [Hr [Hs _]]].
    change (StfnTraining.sigma_t_bar r' = sigma_1) in Hs.
    exists r'. split; [exact Hr|]. split; [exact Hs|].
    intros i j Hi Hj. rewrite Hs. unfold sigma_1.
    rewrite (mget_moving_average k k) by (try assumption; apply wf_eye).
    rewrite mget_eye by assumption.
    rewrite (mget_covariance N k k) by assumption. reflexivity.
Qed.

Lemma cold_start_rule_witness :
  (exists ls',
     JaxSpin.train_body (Examples.spin 2 1) (fun _ => [[0]])
       (JaxSpin.train_init (Examples.spin 2 1) (fun _ => [[0]]) Examples.spin_state)
     = Returns ls'
     /\ JaxSpin.itercount (JaxSpin.obj ls') = 1%nat
     /\ fst (JaxSpin.avgs_of ls')
        = JaxSpin.Arr2 (mdiv (dot (transpose [[2]]) [[2]]) (INR 1)))
  /\ (exists ls',
        JaxSpin.train_body (Examples.spin 2 1) (fun _ => [[0]])
          {| JaxSpin.obj := Examples.spin_state; JaxSpin.pos := 1;
             JaxSpin.avgs_of := (JaxSpin.Arr2 [[7]], []); JaxSpin.last := None |}
        = Returns ls'
        /\ JaxSpin.itercount (JaxSpin.obj ls') = 1%nat
        /\ fst (JaxSpin.avgs_of ls')
           = JaxSpin.Arr2 (mdiv (dot (transpose [[2]]) [[2]]) (INR 1)))
  /\ (exists ls',
        JaxSpin.train_body (Examples.spin 2 1) (fun _ => [[0]])
          (JaxSpin.train_init (Examples.spin 2 1) (fun _ => [[0]])
             MoreExamples.spin_state_1)
        = Returns ls'
        /\ JaxSpin.itercount (JaxSpin.obj ls') = 2%nat
        /\ fst (JaxSpin.avgs_of ls')
           = JaxSpin.Arr2
               (JaxSpin.blend_sigma (1 / 2) (JaxSpin.Arr1 (ones 1))
                  (mdiv (dot (transpose [[2]]) [[2]]) (INR 1))))
  /\ (exists o' params J',
        JaxSpin.train (Examples.spin 2 1) (fun _ => [[0]]) 1 Examples.spin_state
        = Returns (o', (params,
                        (JaxSpin.Arr2 (mdiv (dot (transpose [[2]]) [[2]]) (INR 1)), J'),
                        1))
        /\ JaxSpin.itercount o' = 1%nat)
  /\ (exists r',
        StfnTraining.epoch_body Examples.stfn_trainer (fun _ => [[0]]) 1
          (StfnTraining.start_state Examples.stfn_trainer) = Returns r'
        /\ StfnTraining.sigma_t_bar r'
           = Helper.moving_average (eye 1) (StfnTraining.covariance [[2]] [[2]]) (1 / 2)).
Proof.
  destruct cold_start_rule as [Hpass [Hfirst [Hlater [Htrain Hstfn]]]].
  assert (Hcov : Linalg.positive_definite 1 (mdiv (dot (transpose [[2]]) [[2]]) (INR 1))).
  { arr_arg. apply pd_1x1. simpl INR. lra. }
  assert (Hcov2 : forall p' : list (list R),
             wf_matrix 1 1
               (mdiv (dot (transpose (JaxSpin.net_u (Examples.spin 2 1) p' [[0]]))
                          (JaxSpin.net_u (Examples.spin 2 1) p' [[0]]))
                     (INR (rows [[0]])))
             /\ Linalg.positive_definite 1
                  (mdiv (dot (transpose (JaxSpin.net_u (Examples.spin 2 1) p' [[0]]))
                             (JaxSpin.net_u (Examples.spin 2 1) p' [[0]]))
                        (INR (rows [[0]])))).
  { intros p'. split.
    - arr_arg. apply wf_1x1.
    - arr_arg. apply pd_1x1. simpl INR. lra. }
  split; [|split; [|split; [|split]]].
  - destruct StepFacts.train_body_example as [ls' Hls].
    destruct (Hpass _ (Examples.spin 2 1) (fun _ => [[0]])
                (JaxSpin.train_init (Examples.spin 2 1) (fun _ => [[0]])
                   Examples.spin_state) ls' 1%nat 1%nat)
      as [Hi [Hc _]]; try exact Hls.
    + lia.
    + reflexivity.
    + apply wf_1x1.
    + reflexivity.
    + exists ls'. split; [exact Hls|]. split; [exact Hi|]. apply Hc. reflexivity.
  - apply (Hfirst _ (Examples.spin 2 1) (fun _ => [[0]])
             {| JaxSpin.obj := Examples.spin_state; JaxSpin.pos := 1;
                JaxSpin.avgs_of := (JaxSpin.Arr2 [[7]], []); JaxSpin.last := None |}
             1%nat 1%nat).
    + reflexivity.
    + lia.
    + reflexivity.
    + apply wf_1x1.
    + apply wf_1x1.
    + exact Hcov.
    + exact Hcov2.
  - apply (Hlater _ (Examples.spin 2 1) (fun _ => [[0]])
             (JaxSpin.train_init (Examples.spin 2 1) (fun _ => [[0]])
                MoreExamples.spin_state_1) 1%nat 1%nat).
    + simpl. lia.
    + lia.
    + reflexivity.
    + apply wf_1x1.
    + reflexivity.
    + arr_arg. apply pd_1x1. simpl INR. lra.
    + intros p'. split.
      * arr_arg. apply wf_1x1.
      * arr_arg. apply pd_1x1. simpl INR. lra.
  - apply (Htrain _ (Examples.spin 2 1) (fun _ => [[0]]) Examples.spin_state
             1%nat 1%nat).
    + reflexivity.
    + reflexivity.
    + lia.
    + reflexivity.
    + apply wf_1x1.
    + exact Hcov.
    + exact Hcov2.
  - destruct (Hstfn _ Examples.stfn_trainer (fun _ => [[0]]) 1%nat) as [r' [Hr [Hs _]]].
    + lia.
    + simpl. lia.
    + apply wf_1x1.
    + arr_arg. apply pd_1x1. simpl INR. lra.
    + exists r'. split; [exact Hr|exact Hs].
Defined.

(** ** A covariance average that is not positive-definite (spec sections
    4.2 and 7) *)

(** C5, as the code has it.  Neither variant raises when the average it
    factorises is not positive-definite: no step, no pass of a loop and no
    run of [SpIN.train] for one or more iterations ever ends in a raised
    exception.  A step whose blended average is symmetric and not
    positive-definite has no real result ([NotReal]): the program goes on
    with what the factorisation hands back.  In the loop of [SpIN.train] that
    outcome of the first pass is the outcome of the whole call. *)
Theorem failed_factorisation_is_silent :
  (forall (opt_state : Type) (self : JaxSpin.SpIN opt_state) (i : nat)
          (st : opt_state) (batch : matrix * JaxSpin.averages * R) (e : exn),
      JaxSpin.step self i st batch <> Raises e)
  /\ (forall (opt_state : Type) (self : JaxSpin.SpIN opt_state)
             (inputs : nat -> matrix) (n : nat) (o : JaxSpin.SpIN_state opt_state)
             (ls : JaxSpin.loop_state) (e : exn),
      JaxSpin.train_body self inputs ls <> Raises e
      /\ JaxSpin.train self inputs (S n) o <> Raises e)
  /\ (forall (opt_state : Type) (self : StfnTraining.ModelTrainer opt_state)
             (net : StfnTraining.network) (weight_dict : pytree)
             (opt : StfnTraining.optimizer opt_state) (st : opt_state)
             (batch sigma_t_bar : matrix) (J : jac_pytree) (beta : R) (epoch : nat)
             (batches : nat -> matrix) (r : StfnTraining.run_state opt_state)
             (e : exn),
      StfnTraining.train_step net weight_dict opt st batch sigma_t_bar J beta epoch
      <> Raises e
      /\ StfnTraining.epoch_body self batches epoch r <> Raises e)
  /\ (forall (opt_state : Type) (self : JaxSpin.SpIN opt_state) (i : nat)
             (st : opt_state) (inputs : matrix) (seed : JaxSpin.ndarray)
             (J : jac_pytree) (beta : R) (k : nat),
      let u := JaxSpin.net_u self (JaxSpin.get_params self st) inputs in
      let sigma_avg :=
        JaxSpin.blend_sigma beta seed (mdiv (dot (transpose u) u) (INR (rows inputs))) in
      wf_matrix k k sigma_avg -> Linalg.symmetric k sigma_avg ->
      ~ Linalg.positive_definite k sigma_avg ->
      JaxSpin.step self i st (inputs, (seed, J), beta) = NotReal)
  /\ (forall (opt_state : Type) (net : StfnTraining.network) (weight_dict : pytree)
             (opt : StfnTraining.optimizer opt_state) (st : opt_state)
             (batch sigma_t_bar : matrix) (J : jac_pytree) (beta : R)
             (epoch k : nat),
      let u := StfnTraining.model_apply net weight_dict batch in
      let sigma_new :=
        Helper.moving_average sigma_t_bar (StfnTraining.covariance u u) beta in
      wf_matrix k k sigma_new -> Linalg.symmetric k sigma_new ->
      ~ Linalg.positive_definite k sigma_new ->
      StfnTraining.train_step net weight_dict opt st batch sigma_t_bar J beta epoch
      = NotReal)
  /\ (forall (opt_state : Type) (self : JaxSpin.SpIN opt_state)
             (inputs : nat -> matrix) (o : JaxSpin.SpIN_state opt_state)
             (n N k : nat),
      let u := JaxSpin.net_u self (JaxSpin.get_params self (JaxSpin.st_opt_state o))
                 (inputs 1%nat) in
      JaxSpin.itercount o = 0%nat -> JaxSpin.neig self = k ->
      (0 < N)%nat -> (2 <= k)%nat -> rows (inputs 1%nat) = N -> wf_matrix N k u ->
      (forall b, (b < N)%nat -> nth b u [] = nth 0 u []) ->
      JaxSpin.train_body self inputs (JaxSpin.train_init self inputs o) = NotReal
      /\ JaxSpin.train self inputs (S n) o = NotReal).
Proof.
  split; [|split; [|split; [|split; [|split]]]].
  - intros opt_state self i st batch e. apply SilentFacts.step_never_raises.
  - intros opt_state self inputs n o ls e. split.
    + apply SilentFacts.train_body_never_raises.
    + unfold JaxSpin.train.
      destruct (JaxSpin.train_loop self inputs (S n) (JaxSpin.train_init self inputs o))
        as [ls'| |] eqn:E.
      * cbn [bind].
        destruct (JaxRunFacts.train_loop_bookkeeping self inputs (S n) _ ls' E)
          as [_ [_ [_ [_ Hlast]]]].
        rewrite Hlast by lia. discriminate.
      * exfalso. exact (SilentFacts.train_loop_never_raises self inputs e0 _ _ E).
      * discriminate.
  - intros opt_state self net weight_dict opt st batch sigma_t_bar J beta epoch
           batches r e. split.
    + apply SilentFacts.train_step_never_raises.
    + apply SilentFacts.epoch_body_never_raises.
  - intros opt_state self i st inputs seed J beta k. apply SilentFacts.step_not_pd.
  - intros opt_state net weight_dict opt st batch sigma_t_bar J beta epoch k.
    apply SilentFacts.train_step_not_pd.
  - intros opt_state self inputs o n N k u Hcnt Hneig HN Hk Hr Hu Hrows.
    assert (Hb : JaxSpin.train_body self inputs (JaxSpin.train_init self inputs o)
                 = NotReal).
    { apply SilentFacts.train_body_not_real.
      cbn [JaxSpin.train_init JaxSpin.obj JaxSpin.pos JaxSpin.avgs_of].
      rewrite Hcnt. cbn [Nat.eqb].
      apply (SilentFacts.cold_step_equal_rows self _ _ _ _ N k); try assumption.
      cbn [JaxSpin.broadcastable]. rewrite Hneig. apply length_mk_vector. }
    split; [exact Hb|]. apply SilentFacts.train_not_real. exact Hb.
Qed.

Lemma failed_factorisation_is_silent_witness :
  JaxSpin.step (Examples.spin 0 1) 0 [[0]] ([[0]], (JaxSpin.Arr2 [[0]], []), 1 / 2)
  = NotReal
  /\ StfnTraining.train_step (Examples.stfn_net 0) [[0]] Examples.stfn_opt tt
       [[0]] [[0]] [[[[0]]]] (1 / 2) 1
     = NotReal
  /\ JaxSpin.train (MoreExamples.spin_const 3 2) (fun _ => [[0]; [1]]) 1
       Examples.spin_state
     = NotReal.
Proof.
  destruct failed_factorisation_is_silent as [_ [_ [_ [Hjax [Hstfn Hrun]]]]].
  split; [|split].
  - apply (Hjax _ (Examples.spin 0 1) 0%nat [[0]] [[0]] (JaxSpin.Arr2 [[0]]) []
             (1 / 2) 1%nat).
    + arr_arg. apply wf_1x1.
    + arr_more. apply JaxExampleFacts.sym_1x1.
    + arr_more. apply JaxExampleFacts.npd_1x1. simpl INR. lra.
  - apply (Hstfn unit (Examples.stfn_net 0) [[0]] Examples.stfn_opt tt [[0]] [[0]]
             [[[[0]]]] (1 / 2) 1%nat 1%nat).
    + arr_arg. apply wf_1x1.
    + arr_more. apply JaxExampleFacts.sym_1x1.
    + arr_more. apply JaxExampleFacts.npd_1x1. simpl INR. lra.
  - apply (Hrun _ (MoreExamples.spin_const 3 2) (fun _ => [[0]; [1]])
             Examples.spin_state 0%nat 2%nat 2%nat).
    + reflexivity.
    + reflexivity.
    + lia.
    + lia.
    + reflexivity.
    + split; [reflexivity|]. repeat constructor.
    + intros b Hb. destruct b as [|[|b]]; [reflexivity|reflexivity|lia].
Defined.

(** The claim as written fails on both variants.  With two outputs that are
    the same in both rows of the first batch, the covariance that the cold
    start of jax_spin.py factorises is singular; the step raises nothing and
    neither does the call of [train]: their outcome is the one of the failed
    factorisation.  The same holds for a step of stfn_training.py on an
    average that is 0. *)
Lemma degenerate_batch_raises_nothing :
  JaxSpin.step (MoreExamples.spin_const 3 2) 0 [[0]]
    ([[0]; [1]], (JaxSpin.Arr1 [1; 1], []),
     JaxSpin.beta_at (MoreExamples.spin_const 3 2) 0)
  = NotReal
  /\ (forall e,
        JaxSpin.step (MoreExamples.spin_const 3 2) 0 [[0]]
          ([[0]; [1]], (JaxSpin.Arr1 [1; 1], []),
           JaxSpin.beta_at (MoreExamples.spin_const 3 2) 0)
        <> Raises e)
  /\ JaxSpin.train (MoreExamples.spin_const 3 2) (fun _ => [[0]; [1]]) 1
       Examples.spin_state
     = NotReal
  /\ (forall e,
        JaxSpin.train (MoreExamples.spin_const 3 2) (fun _ => [[0]; [1]]) 1
          Examples.spin_state
        <> Raises e)
  /\ StfnTraining.train_step (Examples.stfn_net 0) [[0]] Examples.stfn_opt tt
       [[0]] [[0]] [[[[0]]]] (1 / 2) 1
     = NotReal
  /\ (forall e,
        StfnTraining.train_step (Examples.stfn_net 0) [[0]] Examples.stfn_opt tt
          [[0]] [[0]] [[[[0]]]] (1 / 2) 1
        <> Raises e).
Proof.
  assert (Hstep : JaxSpin.step (MoreExamples.spin_const 3 2) 0 [[0]]
                    ([[0]; [1]], (JaxSpin.Arr1 [1; 1], []), 1) = NotReal).
  { apply (SilentFacts.cold_step_equal_rows (MoreExamples.spin_const 3 2) [[0]]
             [[0]; [1]] (JaxSpin.Arr1 [1; 1]) [] 2%nat 2%nat).
    - lia.
    - lia.
    - reflexivity.
    - split; [reflexivity|]. repeat constructor.
    - intros b Hb. destruct b as [|[|b]]; [reflexivity|reflexivity|lia].
    - reflexivity. }
  assert (Hrun : JaxSpin.train (MoreExamples.spin_const 3 2) (fun _ => [[0]; [1]]) 1
                   Examples.spin_state = NotReal).
  { apply SilentFacts.train_not_real. apply SilentFacts.train_body_not_real.
    cbn [JaxSpin.train_init JaxSpin.obj JaxSpin.pos JaxSpin.avgs_of
         Examples.spin_state JaxSpin.itercount JaxSpin.st_opt_state Nat.eqb].
    apply (SilentFacts.cold_step_equal_rows (MoreExamples.spin_const 3 2) [[0]]
             [[0]; [1]] _ _ 2%nat 2%nat).
    - lia.
    - lia.
    - reflexivity.
    - split; [reflexivity|]. repeat constructor.
    - intros b Hb. destruct b as [|[|b]]; [reflexivity|reflexivity|lia].
    - reflexivity. }
  assert (Hstfn : StfnTraining.train_step (Examples.stfn_net 0) [[0]] Examples.stfn_opt
                    tt [[0]] [[0]] [[[[0]]]] (1 / 2) 1 = NotReal).
  { apply (SilentFacts.train_step_not_pd (Examples.stfn_net 0) [[0]] Examples.stfn_opt
             tt [[0]] [[0]] [[[[0]]]] (1 / 2) 1%nat 1%nat).
    - arr_arg. apply wf_1x1.
    - arr_more. apply JaxExampleFacts.sym_1x1.
    - arr_more. apply JaxExampleFacts.npd_1x1. simpl INR. lra. }
  change (JaxSpin.beta_at (MoreExamples.spin_const 3 2) 0) with 1.
  split; [exact Hstep|]. split; [intros e; rewrite Hstep; discriminate|].
  split; [exact Hrun|]. split; [intros e; rewrite Hrun; discriminate|].
  split; [exact Hstfn|]. intros e. rewrite Hstfn. discriminate.
Qed.

(** ** Eigenvalue estimates, loss and eigenfunctions, as they are reported *)





(** ** A second call of [SpIN.train] *)


